(** * mflag: struct-tag driven flag binding (pkg/mflag)

    A shallow embedding of [pkg/mflag/function.go]: the naming converter
    [toKebabCase], the default-value parser [parseDefaultValue] /
    [parseSliceDefaultValue] and the binder [bindFieldTag], together with the
    parts of the Go runtime they lean on ([strings], [strconv], [reflect],
    [os.Getenv]) and of the flag registry of spf13/pflag that the binder
    drives.

    Modelling conventions.
    - A Go [string] is a Rocq [string] (a sequence of bytes).  The model
      covers ASCII text: a rune is a byte below 128, so [range s] visits one
      byte per step, [unicode.IsUpper], [IsLower], [ToLower], [ToUpper] are
      the ASCII ones and [strings.TrimSpace] trims ASCII white space.  A
      statement that holds of the code on ASCII text only says so ([isASCII],
      [blank]).
    - Types are the predeclared ones, defined types over them, slices, maps,
      pointers, structs, arrays, channels, functions and interfaces; an
      interface value ([any]) is nil or a value with its dynamic type.
    - Go's [int] is 64 bits wide ([IntSize]).
    - A panic is an explicit outcome ([Panic]); everything that can panic
      lives in the [outcome] monad. *)

From Stdlib Require Import ZArith Ascii String List Bool Lia.
From stdpp Require Import base option list strings gmap.

Set Warnings "-register-all".

Local Open Scope string_scope.
Local Open Scope Z_scope.

(** ** Runes (package unicode, ASCII range) *)

Module unicode.

Definition code (r : ascii) : Z := Z.of_N (N_of_ascii r).

Definition IsUpper (r : ascii) : bool := (65 <=? code r) && (code r <=? 90).
Definition IsLower (r : ascii) : bool := (97 <=? code r) && (code r <=? 122).
Definition IsDigit (r : ascii) : bool := (48 <=? code r) && (code r <=? 57).

Definition ToLower (r : ascii) : ascii :=
  if IsUpper r then ascii_of_N (Z.to_N (code r + 32)) else r.
Definition ToUpper (r : ascii) : ascii :=
  if IsLower r then ascii_of_N (Z.to_N (code r - 32)) else r.

(** White space as [unicode.IsSpace] sees it below 128. *)
Definition IsSpace (r : ascii) : bool :=
  ((9 <=? code r) && (code r <=? 13)) || (code r =? 32).

End unicode.

(** ** Package strings *)

Module strings.

Definition len (s : string) : Z := Z.of_nat (String.length s).

(** [s[i]]; the callers below guard the index, so the default is never
    observed. *)
Definition byteAt (s : string) (i : Z) : ascii :=
  match String.get (Z.to_nat i) s with
  | Some c => c
  | None => zero
  end.

Fixpoint ContainsRune (cutset : string) (r : ascii) : bool :=
  match cutset with
  | EmptyString => false
  | String c cs => Ascii.eqb c r || ContainsRune cs r
  end.

Fixpoint TrimLeftFunc (f : ascii -> bool) (s : string) : string :=
  match s with
  | EmptyString => EmptyString
  | String c s' => if f c then TrimLeftFunc f s' else s
  end.

(** Drops the longest suffix whose bytes all satisfy [f]. *)
Fixpoint TrimRightFunc (f : ascii -> bool) (s : string) : string :=
  match s with
  | EmptyString => EmptyString
  | String c s' =>
      match TrimRightFunc f s' with
      | EmptyString => if f c then EmptyString else String c EmptyString
      | t => String c t
      end
  end.

Definition TrimFunc (f : ascii -> bool) (s : string) : string :=
  TrimRightFunc f (TrimLeftFunc f s).

Definition Trim (s cutset : string) : string := TrimFunc (ContainsRune cutset) s.

Definition TrimSpace (s : string) : string := TrimFunc unicode.IsSpace s.

Fixpoint ToUpper (s : string) : string :=
  match s with
  | EmptyString => EmptyString
  | String c s' => String (unicode.ToUpper c) (ToUpper s')
  end.

Fixpoint HasPrefix (s prefix : string) {struct prefix} : bool :=
  match prefix, s with
  | EmptyString, _ => true
  | String p ps, String c cs => Ascii.eqb p c && HasPrefix cs ps
  | String _ _, EmptyString => false
  end.

(** [replaceFrom old new skip s]: [skip] bytes of [s] still belong to an
    occurrence of [old] that has already been replaced. *)
Fixpoint replaceFrom (old new : string) (skip : nat) (s : string) : string :=
  match s with
  | EmptyString => EmptyString
  | String c s' =>
      match skip with
      | S k => replaceFrom old new k s'
      | O =>
          if HasPrefix s old
          then new ++ replaceFrom old new (String.length old - 1) s'
          else String c (replaceFrom old new O s')
      end
  end.

(** With an empty [old], Go inserts [new] before every rune and at the end. *)
Fixpoint intersperse (new s : string) : string :=
  match s with
  | EmptyString => new
  | String c s' => new ++ String c (intersperse new s')
  end.

Definition ReplaceAll (s old new : string) : string :=
  match old with
  | EmptyString => intersperse new s
  | _ => replaceFrom old new O s
  end.

(** [splitFrom sep skip cur s]: [cur] is the piece being collected and
    [skip] counts the bytes that still belong to the separator just seen. *)
Fixpoint splitFrom (sep : string) (skip : nat) (cur : string) (s : string) : list string :=
  match s with
  | EmptyString => [cur]
  | String c s' =>
      match skip with
      | S k => splitFrom sep k cur s'
      | O =>
          if HasPrefix s sep
          then cur :: splitFrom sep (String.length sep - 1) EmptyString s'
          else splitFrom sep O (cur ++ String c EmptyString) s'
      end
  end.

Fixpoint explode (s : string) : list string :=
  match s with
  | EmptyString => []
  | String c s' => String c EmptyString :: explode s'
  end.

Definition Split (s sep : string) : list string :=
  match sep with
  | EmptyString => explode s
  | _ => splitFrom sep O EmptyString s
  end.

End strings.

Module slices.
Definition Contains (s : list string) (v : string) : bool :=
  existsb (String.eqb v) s.
End slices.

(** ** toKebabCase *)

Definition isBoundary (r : ascii) : bool :=
  Ascii.eqb r "." || Ascii.eqb r " " || Ascii.eqb r "_".

(** [append(result, r)] on a rune slice. *)
Definition append (result : list ascii) (r : ascii) : list ascii :=
  (result ++ [r])%list.

Definition lastIsDash (result : list ascii) : bool :=
  match last result with
  | Some c => Ascii.eqb c "-"
  | None => false
  end.

(** The body of [for _, r := range s]: [rest] is what is left to visit,
    [result] and [prevDash] are the loop's two variables.  Note that the
    look-ahead reads [s] at [len(result) + 1]. *)
Fixpoint toKebabCase_loop (s rest : string) (result : list ascii) (prevDash : bool)
  : list ascii :=
  match rest with
  | EmptyString => result
  | String r rest' =>
      if isBoundary r then
        if negb prevDash
        then toKebabCase_loop s rest' (append result "-") true
        else toKebabCase_loop s rest' result prevDash
      else if unicode.IsUpper r then
        let result1 :=
          if (0 <? Z.of_nat (length result)) && negb (lastIsDash result) then
            let nextIndex := Z.of_nat (length result) in
            if nextIndex <? strings.len s - 1 then
              let nextRune := strings.byteAt s (nextIndex + 1) in
              if unicode.IsLower nextRune then append result "-" else result
            else result
          else result in
        toKebabCase_loop s rest' (append result1 (unicode.ToLower r)) false
      else
        toKebabCase_loop s rest' (append result r) false
  end.

Definition toKebabCase (s : string) : string :=
  let result := toKebabCase_loop s s [] false in
  strings.Trim (string_of_list_ascii result) "-".

(** ** Outcomes: a returned value or a panic *)

Inductive outcome (A : Type) : Type :=
| Ret (a : A)
| Panic (msg : string).
Arguments Ret {A} a.
Arguments Panic {A} msg.

#[global] Instance outcome_ret : MRet outcome := fun A a => Ret a.
#[global] Instance outcome_bind : MBind outcome := fun A B f m =>
  match m with
  | Ret a => f a
  | Panic msg => Panic msg
  end.

Definition panics {A} (m : outcome A) : bool :=
  match m with
  | Ret _ => false
  | Panic _ => true
  end.

(** ** Package reflect: kinds, types and values *)

Module reflect.

Inductive Kind : Set :=
| Invalid | Bool | Int | Int8 | Int16 | Int32 | Int64
| Uint | Uint8 | Uint16 | Uint32 | Uint64 | Uintptr
| Float32 | Float64 | Complex64 | Complex128
| Array | Chan | Func | Interface | Map | Pointer | Slice | String | Struct
| UnsafePointer.

(** The declaration order of the constants, which [<=] on kinds compares. *)
Definition ord (k : Kind) : Z :=
  match k with
  | Invalid => 0 | Bool => 1 | Int => 2 | Int8 => 3 | Int16 => 4 | Int32 => 5
  | Int64 => 6 | Uint => 7 | Uint8 => 8 | Uint16 => 9 | Uint32 => 10
  | Uint64 => 11 | Uintptr => 12 | Float32 => 13 | Float64 => 14
  | Complex64 => 15 | Complex128 => 16 | Array => 17 | Chan => 18 | Func => 19
  | Interface => 20 | Map => 21 | Pointer => 22 | Slice => 23 | String => 24
  | Struct => 25 | UnsafePointer => 26
  end.

Definition Kind_eqb (a b : Kind) : bool := ord a =? ord b.
Definition Kind_leb (a b : Kind) : bool := ord a <=? ord b.

(** The predeclared types. *)
Inductive basic : Set :=
| t_bool | t_int | t_int8 | t_int16 | t_int32 | t_int64
| t_uint | t_uint8 | t_uint16 | t_uint32 | t_uint64 | t_uintptr
| t_float32 | t_float64 | t_complex64 | t_complex128 | t_string.

Definition basic_Kind (b : basic) : Kind :=
  match b with
  | t_bool => Bool | t_int => Int | t_int8 => Int8 | t_int16 => Int16
  | t_int32 => Int32 | t_int64 => Int64 | t_uint => Uint | t_uint8 => Uint8
  | t_uint16 => Uint16 | t_uint32 => Uint32 | t_uint64 => Uint64
  | t_uintptr => Uintptr | t_float32 => Float32 | t_float64 => Float64
  | t_complex64 => Complex64 | t_complex128 => Complex128 | t_string => String
  end.

Definition basic_eqb (a b : basic) : bool :=
  Kind_eqb (basic_Kind a) (basic_Kind b).

(** Types.  [Named] is a defined type over a predeclared one, such as
    [time.Duration]; a struct type stands for itself whether it was given
    a name or not, since nothing below tells the two apart.  A function
    type is kept as its signature and an interface type as the names of its
    methods ([InterfaceOf []] is [interface{}]); a channel type has no
    direction. *)
Inductive rtype : Type :=
| Basic (b : basic)
| Named (name : string) (underlying : basic)
| SliceOf (elem : rtype)
| MapOf (key elem : rtype)
| PointerTo (elem : rtype)
| StructOf (fields : list StructField)
| ArrayOf (len : nat) (elem : rtype)
| ChanOf (elem : rtype)
| FuncOf (signature : string)
| InterfaceOf (methods : list string)
with StructField : Type :=
| mkStructField (Name : string) (Type_ : rtype) (Tag : list (string * string)).

Definition Name (f : StructField) : string :=
  match f with mkStructField n _ _ => n end.
Definition Type_ (f : StructField) : rtype :=
  match f with mkStructField _ t _ => t end.
Definition Tag (f : StructField) : list (string * string) :=
  match f with mkStructField _ _ tg => tg end.

(** [Tag.Get(key)]: the value of the first [key:"value"] pair, or [""]. *)
Fixpoint Get (tag : list (string * string)) (key : string) : string :=
  match tag with
  | [] => ""
  | (k, v) :: tag' => if String.eqb k key then v else Get tag' key
  end.

Definition KindOf (t : rtype) : Kind :=
  match t with
  | Basic b => basic_Kind b
  | Named _ b => basic_Kind b
  | SliceOf _ => Slice
  | MapOf _ _ => Map
  | PointerTo _ => Pointer
  | StructOf _ => Struct
  | ArrayOf _ _ => Array
  | ChanOf _ => Chan
  | FuncOf _ => Func
  | InterfaceOf _ => Interface
  end.

(** [Type.Elem()]; it panics on a type without elements. *)
Definition Elem (t : rtype) : outcome rtype :=
  match t with
  | SliceOf e | MapOf _ e | PointerTo e | ArrayOf _ e | ChanOf e => Ret e
  | _ => Panic "reflect: Elem of invalid type"
  end.

Definition underlying (t : rtype) : rtype :=
  match t with
  | Named _ b => Basic b
  | _ => t
  end.

Definition isNamed (t : rtype) : bool :=
  match t with
  | Basic _ | Named _ _ => true
  | _ => false
  end.

(** Type identity ([==] on [reflect.Type]). *)
Fixpoint rtype_eqb (a b : rtype) {struct a} : bool :=
  match a, b with
  | Basic x, Basic y => basic_eqb x y
  | Named n x, Named m y => String.eqb n m && basic_eqb x y
  | SliceOf x, SliceOf y => rtype_eqb x y
  | MapOf k x, MapOf l y => rtype_eqb k l && rtype_eqb x y
  | PointerTo x, PointerTo y => rtype_eqb x y
  | StructOf fs, StructOf gs =>
      (fix fields_eqb (fs gs : list StructField) {struct fs} : bool :=
         match fs, gs with
         | [], [] => true
         | mkStructField n t tg :: fs', mkStructField m u th :: gs' =>
             String.eqb n m && rtype_eqb t u
             && bool_decide (tg = th) && fields_eqb fs' gs'
         | _, _ => false
         end) fs gs
  | ArrayOf n x, ArrayOf m y => Nat.eqb n m && rtype_eqb x y
  | ChanOf x, ChanOf y => rtype_eqb x y
  | FuncOf f, FuncOf g => String.eqb f g
  | InterfaceOf ms, InterfaceOf ns => bool_decide (ms = ns)
  | _, _ => false
  end.

(** [V.Implements(T)] for an interface type [T].  Method sets are not part of
    the types here, so only the empty interface is known to be implemented;
    the package never asks (see [Convert]). *)
Definition Implements (V T : rtype) : bool :=
  match T with
  | InterfaceOf [] => true
  | _ => false
  end.

(** Values, without their types. *)
Inductive value : Type :=
| VBool (b : bool)
| VInt (i : Z)
| VUint (u : Z)
| VFloat (bits : Z)
| VComplex (re im : Z)
| VString (s : string)
| VSlice (elems : option (list value))
| VMap (entries : option (list (value * value)))
| VPointer (target : option (list nat))
| VStruct (fields : list value)
| VArray (elems : list value)
| VChan (channel : option nat)
| VFunc (code : option nat)
| VInterface (dynamic : option (rtype * value)).

(** [reflect.Zero(t)]. *)
Fixpoint Zero (t : rtype) : value :=
  match t with
  | Basic b | Named _ b =>
      match b with
      | t_bool => VBool false
      | t_int | t_int8 | t_int16 | t_int32 | t_int64 => VInt 0
      | t_uint | t_uint8 | t_uint16 | t_uint32 | t_uint64 | t_uintptr => VUint 0
      | t_float32 | t_float64 => VFloat 0
      | t_complex64 | t_complex128 => VComplex 0 0
      | t_string => VString ""
      end
  | SliceOf _ => VSlice None
  | MapOf _ _ => VMap None
  | PointerTo _ => VPointer None
  | StructOf fs =>
      VStruct ((fix zeros (fs : list StructField) : list value :=
                  match fs with
                  | [] => []
                  | mkStructField _ u _ :: fs' => Zero u :: zeros fs'
                  end) fs)
  | ArrayOf n e => VArray (replicate n (Zero e))
  | ChanOf _ => VChan None
  | FuncOf _ => VFunc None
  | InterfaceOf _ => VInterface None
  end.

(** [v.Interface()] on a value [v] of type [t]: a value of interface kind
    gives up what it holds, which is nil for the zero value; any other value
    comes with its type. *)
Definition Interface_ (t : rtype) (v : value) : option (rtype * value) :=
  match t with
  | InterfaceOf _ =>
      match v with
      | VInterface x => x
      | _ => None
      end
  | _ => Some (t, v)
  end.

End reflect.

(** An interface value ([any]): the dynamic type with the value, or nil. *)
Definition any : Type := option (reflect.rtype * reflect.value).

Module time.
Definition Duration : reflect.rtype := reflect.Named "time.Duration" reflect.t_int64.
End time.

(** ** Errors and diagnostics

    An error built by [fmt.Errorf] is kept as its format and its operands,
    which determine the message; so is a line written by [fmt.Printf] or
    [log.Println]. *)

Inductive NumErr : Set :=
| ErrSyntax
| ErrRange
| ErrBase (base : Z)
| ErrBitSize (bitSize : Z).

Inductive error : Type :=
| NumError (Func Num : string) (Err : NumErr)
| ErrorString (msg : string)
| Errorf (format : string) (args : list operand)
with operand : Type :=
| OpString (s : string)
| OpKind (k : reflect.Kind)
| OpError (e : error).

Inductive diagnostic : Type :=
| Printf (format : string) (args : list operand)
| Println (args : list operand).

(** ** Package strconv *)

Module strconv.

Definition IntSize : Z := 64.
Definition maxUint64 : Z := 2 ^ 64 - 1.

Definition syntaxError (fn str : string) : error := NumError fn str ErrSyntax.
Definition rangeError (fn str : string) : error := NumError fn str ErrRange.
Definition baseError (fn str : string) (base : Z) : error :=
  NumError fn str (ErrBase base).
Definition bitSizeError (fn str : string) (bitSize : Z) : error :=
  NumError fn str (ErrBitSize bitSize).

Definition ParseBool (str : string) : bool * option error :=
  if existsb (String.eqb str) ["1"; "t"; "T"; "true"; "TRUE"; "True"]
  then (true, None)
  else if existsb (String.eqb str) ["0"; "f"; "F"; "false"; "FALSE"; "False"]
  then (false, None)
  else (false, Some (syntaxError "ParseBool" str)).

(** [lower(c)]: [c | ('x' - 'X')]. *)
Definition lower (c : Z) : Z := Z.lor c 32.

Definition isDigitByte (c : Z) : bool := (48 <=? c) && (c <=? 57).

(** The loop of [underscoreOK] over the number proper; [saw] is one of
    ['^'], ['0'], ['_'], ['!'], kept as its byte. *)
Fixpoint underscoreOK_loop (hex : bool) (saw : Z) (s : string) : bool :=
  match s with
  | EmptyString => negb (saw =? 95)
  | String ch s' =>
      let c := unicode.code ch in
      if isDigitByte c || (hex && (97 <=? lower c) && (lower c <=? 102))
      then underscoreOK_loop hex 48 s'
      else if c =? 95 then
        if negb (saw =? 48) then false else underscoreOK_loop hex 95 s'
      else if saw =? 95 then false
      else underscoreOK_loop hex 33 s'
  end.

Definition underscoreOK (s : string) : bool :=
  let s1 :=
    match s with
    | String c s' => if Ascii.eqb c "-" || Ascii.eqb c "+" then s' else s
    | EmptyString => s
    end in
  match s1 with
  | String c0 (String c1 s2) =>
      let l1 := lower (unicode.code c1) in
      if Ascii.eqb c0 "0" && ((l1 =? 98) || (l1 =? 111) || (l1 =? 120))
      then underscoreOK_loop (l1 =? 120) 48 s2
      else underscoreOK_loop false 94 s1
  | _ => underscoreOK_loop false 94 s1
  end.

(** The digit loop of [ParseUint]: the accumulated [n], whether an
    underscore was seen, or the value and error to return at once. *)
Fixpoint ParseUint_loop (fn s0 : string) (base : Z) (base0 : bool)
    (cutoff maxVal : Z) (s : string) (n : Z) (underscores : bool)
  : (Z * bool) + (Z * error) :=
  match s with
  | EmptyString => inl (n, underscores)
  | String ch s' =>
      let c := unicode.code ch in
      if (c =? 95) && base0
      then ParseUint_loop fn s0 base base0 cutoff maxVal s' n true
      else
        let digit :=
          if isDigitByte c then Some (c - 48)
          else if (97 <=? lower c) && (lower c <=? 122) then Some (lower c - 97 + 10)
          else None in
        match digit with
        | None => inr (0, syntaxError fn s0)
        | Some d =>
            if d >=? base then inr (0, syntaxError fn s0)
            else if n >=? cutoff then inr (maxVal, rangeError fn s0)
            else
              let n' := (n * base) mod 2 ^ 64 in
              let n1 := (n' + d) mod 2 ^ 64 in
              if (n1 <? n') || (n1 >? maxVal)
              then inr (maxVal, rangeError fn s0)
              else ParseUint_loop fn s0 base base0 cutoff maxVal s' n1 underscores
        end
  end.

(** The base and the digits to read once a base prefix is picked off
    ([base == 0]). *)
Definition pickBase (s : string) : Z * string :=
  match s with
  | String c0 rest =>
      if Ascii.eqb c0 "0" then
        match rest with
        | String c1 rest' =>
            let l1 := lower (unicode.code c1) in
            if (3 <=? strings.len s) && (l1 =? 98) then (2, rest')
            else if (3 <=? strings.len s) && (l1 =? 111) then (8, rest')
            else if (3 <=? strings.len s) && (l1 =? 120) then (16, rest')
            else (8, rest)
        | EmptyString => (8, rest)
        end
      else (10, s)
  | EmptyString => (10, s)
  end.

Definition ParseUint_fn (fn : string) (s : string) (base bitSize : Z)
  : Z * option error :=
  if String.eqb s "" then (0, Some (syntaxError fn s))
  else
    let base0 := base =? 0 in
    let s0 := s in
    if negb (((2 <=? base) && (base <=? 36)) || base0)
    then (0, Some (baseError fn s0 base))
    else
      let '(base, s) := if base0 then pickBase s else (base, s) in
      if (bitSize <? 0) || (64 <? bitSize)
      then (0, Some (bitSizeError fn s0 bitSize))
      else
        let bitSize := if bitSize =? 0 then IntSize else bitSize in
        let cutoff := maxUint64 / base + 1 in
        let maxVal := 2 ^ bitSize - 1 in
        match ParseUint_loop fn s0 base base0 cutoff maxVal s 0 false with
        | inr (v, e) => (v, Some e)
        | inl (n, underscores) =>
            if underscores && negb (underscoreOK s0)
            then (0, Some (syntaxError fn s0))
            else (n, None)
        end.

Definition ParseUint (s : string) (base bitSize : Z) : Z * option error :=
  ParseUint_fn "ParseUint" s base bitSize.

Definition ParseInt (s : string) (base bitSize : Z) : Z * option error :=
  if String.eqb s "" then (0, Some (syntaxError "ParseInt" s))
  else
    let s0 := s in
    let '(neg, s) :=
      match s with
      | String c s' =>
          if Ascii.eqb c "+" then (false, s')
          else if Ascii.eqb c "-" then (true, s')
          else (false, s)
      | EmptyString => (false, s)
      end in
    let '(un, err) := ParseUint s base bitSize in
    match err with
    | Some (NumError _ _ ErrRange) | None =>
        let bitSize := if bitSize =? 0 then IntSize else bitSize in
        let cutoff := 2 ^ (bitSize - 1) in
        if negb neg && (un >=? cutoff)
        then (cutoff - 1, Some (rangeError "ParseInt" s0))
        else if neg && (un >? cutoff)
        then (- cutoff, Some (rangeError "ParseInt" s0))
        else (if neg then - un else un, None)
    | Some (NumError _ _ e) => (0, Some (NumError "ParseInt" s0 e))
    | Some e => (0, Some e)
    end.


End strconv.

(** ** The flag registry's value types (spf13/pflag) *)

Module pflag.

(** One constructor per registration primitive the binder calls. *)
Inductive ValueType : Set :=
| durationValue | boolValue
| intValue | int8Value | int16Value | int32Value | int64Value
| float32Value | float64Value
| uintValue | uint8Value | uint16Value | uint32Value | uint64Value
| stringValue
| stringSliceValue | intSliceValue | int32SliceValue | int64SliceValue
| float64SliceValue | boolSliceValue | uintSliceValue
| stringToStringValue | stringToIntValue.

End pflag.

(** ** What the model takes from outside

    Floating-point and duration parsing and the text parsers of pflag's
    slice and map values are not modelled; the development holds for every
    behaviour of them. A float is kept as the bits of its [float64]. *)

Record Collaborators : Type := {
  ParseFloat : string -> Z -> Z * option error;
  ParseDuration : string -> Z * option error;
  (** [Value.Set] of a slice or map value: the stored value and the value's
      own [changed] mark before, the text, and both after, with the error. *)
  collectionSet :
    pflag.ValueType -> reflect.value -> bool -> string ->
    reflect.value * bool * option error
}.

(** Conversions between integer types of different widths. *)
Definition wrapInt (bits i : Z) : Z :=
  (i + 2 ^ (bits - 1)) mod 2 ^ bits - 2 ^ (bits - 1).
Definition wrapUint (bits u : Z) : Z := u mod 2 ^ bits.

(** [reflect.MakeSlice(typ, n, n)]: [n] zero elements. *)
Definition MakeSlice (elemType : reflect.rtype) (n : nat) : list reflect.value :=
  replicate n (reflect.Zero elemType).

(** [reflect.ValueOf(x).Convert(t)].  [ValueOf] of the nil interface value
    is the zero [Value], on which [Convert] panics.  Between types with the
    same underlying type the value is kept, and a value goes into an
    interface type it implements; the other conversions of Go (between
    numeric kinds and so on) are never asked for by this package
    (see [parseDefaultValue_typed]) and are not modelled. *)
Definition Convert (x : any) (t : reflect.rtype) : outcome reflect.value :=
  match x with
  | None => Panic "reflect: call of reflect.Value.Convert on zero Value"
  | Some (t', v) =>
      if reflect.rtype_eqb (reflect.underlying t') (reflect.underlying t)
      then Ret v
      else if reflect.Implements t' t
      then Ret (reflect.VInterface (Some (t', v)))
      else Panic "reflect.Value.Convert: value cannot be converted"
  end.

(** ** parseDefaultValue and parseSliceDefaultValue *)

Section Parser.

Variable ext : Collaborators.

Import reflect.

(** The loop of [parseSliceDefaultValue] over [elements] from index [i];
    [parseElem] is [parseDefaultValue] at the element type.  It ends with
    the filled slice or with the error of the first failing element. *)
Fixpoint parseSliceDefaultValue_loop
    (parseElem : string -> outcome (any * option error)) (elemType : rtype)
    (i : nat) (elements : list string) (resultSlice : list value)
  : outcome (list value + error) :=
  match elements with
  | [] => Ret (inl resultSlice)
  | elem :: elements' =>
      let elem := strings.TrimSpace elem in
      '(parsedElem, err) ← parseElem elem;
      match err with
      | Some e =>
          Ret (inr (Errorf "解析切片元素 '%s' 时出错: %v" [OpString elem; OpError e]))
      | None =>
          v ← Convert parsedElem elemType;
          parseSliceDefaultValue_loop parseElem elemType (S i) elements'
            (<[i := v]> resultSlice)
      end
  end.

Definition parseSliceDefaultValue_body
    (parseElem : string -> outcome (any * option error))
    (fieldType elemType : rtype) (defaultStr : string)
  : outcome (any * option error) :=
  let elements := strings.Split defaultStr "," in
  if negb (Kind_eqb (KindOf fieldType) Slice)
  then Panic "reflect.MakeSlice of non-slice type"
  else
    let resultSlice := MakeSlice elemType (length elements) in
    r ← parseSliceDefaultValue_loop parseElem elemType 0 elements resultSlice;
    match r with
    | inr e => Ret (None, Some e)
    | inl resultSlice => Ret (Some (fieldType, VSlice (Some resultSlice)), None)
    end.

Fixpoint parseDefaultValue (fieldType : rtype) (defaultStr : string)
    {struct fieldType} : outcome (any * option error) :=
  if String.eqb defaultStr "" then
    Ret (Interface_ fieldType (Zero fieldType), None)
  else if rtype_eqb fieldType time.Duration then
    let '(duration, err) := ParseDuration ext defaultStr in
    match err with
    | Some e =>
        Ret (None, Some (Errorf "解析 time.Duration 类型的默认值失败: %v" [OpError e]))
    | None => Ret (Some (time.Duration, VInt duration), None)
    end
  else
    match KindOf fieldType with
    | Bool =>
        let '(b, err) := strconv.ParseBool defaultStr in
        Ret (Some (Basic t_bool, VBool b), err)
    | Int =>
        let '(i, err) := strconv.ParseInt defaultStr 10 0 in
        Ret (Some (Basic t_int, VInt (wrapInt strconv.IntSize i)), err)
    | Int8 =>
        let '(i, err) := strconv.ParseInt defaultStr 10 8 in
        Ret (Some (Basic t_int8, VInt (wrapInt 8 i)), err)
    | Int16 =>
        let '(i, err) := strconv.ParseInt defaultStr 10 16 in
        Ret (Some (Basic t_int16, VInt (wrapInt 16 i)), err)
    | Int32 =>
        let '(i, err) := strconv.ParseInt defaultStr 10 32 in
        Ret (Some (Basic t_int32, VInt (wrapInt 32 i)), err)
    | Int64 =>
        let '(i, err) := strconv.ParseInt defaultStr 10 64 in
        Ret (Some (Basic t_int64, VInt i), err)
    | Uint =>
        let '(u, err) := strconv.ParseUint defaultStr 10 0 in
        Ret (Some (Basic t_uint, VUint (wrapUint strconv.IntSize u)), err)
    | Uint8 =>
        let '(u, err) := strconv.ParseUint defaultStr 10 8 in
        Ret (Some (Basic t_uint8, VUint (wrapUint 8 u)), err)
    | Uint16 =>
        let '(u, err) := strconv.ParseUint defaultStr 10 16 in
        Ret (Some (Basic t_uint16, VUint (wrapUint 16 u)), err)
    | Uint32 =>
        let '(u, err) := strconv.ParseUint defaultStr 10 32 in
        Ret (Some (Basic t_uint32, VUint (wrapUint 32 u)), err)
    | Uint64 =>
        let '(u, err) := strconv.ParseUint defaultStr 10 64 in
        Ret (Some (Basic t_uint64, VUint u), err)
    | Float32 =>
        let '(f, err) := ParseFloat ext defaultStr 32 in
        Ret (Some (Basic t_float32, VFloat f), err)
    | Float64 =>
        let '(f, err) := ParseFloat ext defaultStr 64 in
        Ret (Some (Basic t_float64, VFloat f), err)
    | String => Ret (Some (Basic t_string, VString defaultStr), None)
    | Slice =>
        match fieldType with
        | SliceOf elemType =>
            parseSliceDefaultValue_body (parseDefaultValue elemType)
              fieldType elemType defaultStr
        | _ => Panic "reflect: Elem of invalid type"
        end
    | k => Ret (None, Some (Errorf "不支持的类型: %v" [OpKind k]))
    end.

Definition parseSliceDefaultValue (fieldType : rtype) (defaultStr : string)
  : outcome (any * option error) :=
  elemType ← Elem fieldType;
  parseSliceDefaultValue_body (parseDefaultValue elemType)
    fieldType elemType defaultStr.

End Parser.

(** ** The flag registry (spf13/pflag, as the binder uses it) and the world

    The binder works on three things: the flags registered on the command,
    the memory of the configuration instance (a field is addressed by the
    path of field indices that leads to it), and what was printed. *)

Record Flag : Type := {
  flagName_ : string;
  Usage : string;
  ValueKind : pflag.ValueType;
  ValuePtr : list nat;
  ValueChanged : bool;
  DefValue : reflect.value;
  Changed : bool;
  Required : bool
}.

Record World : Type := {
  formal : gmap string Flag;
  memory : gmap (list nat) reflect.value;
  output : list diagnostic
}.

Definition store (p : list nat) (v : reflect.value) (w : World) : World :=
  {| formal := formal w; memory := <[p := v]> (memory w); output := output w |}.

Definition print (d : diagnostic) (w : World) : World :=
  {| formal := formal w; memory := memory w; output := (output w ++ [d])%list |}.

Definition setFlag (name : string) (f : Flag) (w : World) : World :=
  {| formal := <[name := f]> (formal w); memory := memory w; output := output w |}.

Module os.
(** The value of the variable, or [""] when it is not set. *)
Definition Getenv (env : gmap string string) (key : string) : string :=
  default "" (env !! key).
End os.

Section Registry.

Variable ext : Collaborators.

Import reflect pflag.

(** [FlagSet.AddFlag]: a name registered twice is a panic. *)
Definition AddFlag (flag : Flag) (w : World) : outcome World :=
  match formal w !! flagName_ flag with
  | Some _ => Panic "flag redefined"
  | None => Ret (setFlag (flagName_ flag) flag w)
  end.

(** [FlagSet.XxxVar(p, name, value, usage)]: the variable takes the
    default, then the flag is added. *)
Definition Var (vt : ValueType) (p : list nat) (name : string)
    (value : reflect.value) (usage : string) (w : World) : outcome World :=
  AddFlag {| flagName_ := name; Usage := usage; ValueKind := vt; ValuePtr := p;
             ValueChanged := false; DefValue := value; Changed := false;
             Required := false |}
          (store p value w).

(** [FlagSet.Changed(name)]. *)
Definition FlagSet_Changed (name : string) (w : World) : bool :=
  match formal w !! name with
  | Some flag => Changed flag
  | None => false
  end.

(** [Value.Set(text)] by value type: what the variable holds afterwards,
    the value's own [changed] mark, and the error.  The scalar values
    assign whatever the parser returned, also next to an error. *)
Definition Value_Set (vt : ValueType) (cur : value) (changed : bool) (text : string)
  : value * bool * option error :=
  let int_ bits := let '(v, err) := strconv.ParseInt text 0 bits in
                   (VInt (wrapInt bits v), changed, err) in
  let uint_ bits := let '(v, err) := strconv.ParseUint text 0 bits in
                    (VUint (wrapUint bits v), changed, err) in
  match vt with
  | durationValue =>
      let '(v, err) := ParseDuration ext text in (VInt v, changed, err)
  | boolValue =>
      let '(v, err) := strconv.ParseBool text in (VBool v, changed, err)
  | intValue | int64Value => int_ 64
  | int8Value => int_ 8
  | int16Value => int_ 16
  | int32Value => int_ 32
  | float32Value =>
      let '(v, err) := ParseFloat ext text 32 in (VFloat v, changed, err)
  | float64Value =>
      let '(v, err) := ParseFloat ext text 64 in (VFloat v, changed, err)
  | uintValue | uint64Value => uint_ 64
  | uint8Value => uint_ 8
  | uint16Value => uint_ 16
  | uint32Value => uint_ 32
  | stringValue => (VString text, changed, None)
  | _ => collectionSet ext vt cur changed text
  end.

(** [FlagSet.Set(name, text)]. *)
Definition FlagSet_Set (name text : string) (w : World) : World * option error :=
  match formal w !! name with
  | None => (w, Some (Errorf "no such flag -%v" [OpString name]))
  | Some flag =>
      let cur := default (DefValue flag) (memory w !! ValuePtr flag) in
      let '(v, changed, err) := Value_Set (ValueKind flag) cur (ValueChanged flag) text in
      let w := store (ValuePtr flag) v w in
      match err with
      | Some e =>
          (setFlag name
             {| flagName_ := flagName_ flag; Usage := Usage flag;
                ValueKind := ValueKind flag; ValuePtr := ValuePtr flag;
                ValueChanged := changed; DefValue := DefValue flag;
                Changed := Changed flag; Required := Required flag |} w,
           Some (Errorf "invalid argument %q for %q flag: %v"
                   [OpString text; OpString ("--" ++ flagName_ flag); OpError e]))
      | None =>
          (setFlag name
             {| flagName_ := flagName_ flag; Usage := Usage flag;
                ValueKind := ValueKind flag; ValuePtr := ValuePtr flag;
                ValueChanged := changed; DefValue := DefValue flag;
                Changed := true; Required := Required flag |} w,
           None)
      end
  end.

(** [Command.MarkFlagRequired(name)]. *)
Definition MarkFlagRequired (name : string) (w : World) : World * option error :=
  match formal w !! name with
  | None => (w, Some (Errorf "no such flag -%v" [OpString name]))
  | Some flag =>
      (setFlag name
         {| flagName_ := flagName_ flag; Usage := Usage flag;
            ValueKind := ValueKind flag; ValuePtr := ValuePtr flag;
            ValueChanged := ValueChanged flag; DefValue := DefValue flag;
            Changed := Changed flag; Required := true |} w,
       None)
  end.

End Registry.

(** ** Writing through reflect *)

Module Value.

Import reflect.

Definition isIntKind (k : Kind) : bool := Kind_leb Int k && Kind_leb k Int64.
Definition isUintKind (k : Kind) : bool := Kind_leb Uint k && Kind_leb k Uintptr.

Definition bitsOf (k : Kind) : Z :=
  match k with
  | Int8 | Uint8 => 8
  | Int16 | Uint16 => 16
  | Int32 | Uint32 => 32
  | _ => 64
  end.

(** [T] is assignable from [V]: the types are identical, or their
    underlying types are and one of the two has no name, or [T] is an
    interface type that [V] implements. *)
Definition AssignableTo (V T : rtype) : bool :=
  rtype_eqb V T
  || ((negb (isNamed V) || negb (isNamed T))
      && rtype_eqb (underlying V) (underlying T))
  || Implements V T.

(** [v.Set(x)] on the field of type [T] at [p]. *)
Definition Set_ (T : rtype) (p : list nat) (x : rtype * value) (w : World)
  : outcome World :=
  if AssignableTo (fst x) T then Ret (store p (snd x) w)
  else Panic "reflect.Set: value is not assignable to the field's type".

Definition SetBool (T : rtype) (p : list nat) (x : bool) (w : World) : outcome World :=
  if Kind_eqb (KindOf T) Bool then Ret (store p (VBool x) w)
  else Panic "reflect: call of reflect.Value.SetBool on a value of another kind".

Definition SetInt (T : rtype) (p : list nat) (x : Z) (w : World) : outcome World :=
  if isIntKind (KindOf T) then Ret (store p (VInt (wrapInt (bitsOf (KindOf T)) x)) w)
  else Panic "reflect: call of reflect.Value.SetInt on a value of another kind".

Definition SetUint (T : rtype) (p : list nat) (x : Z) (w : World) : outcome World :=
  if isUintKind (KindOf T) then Ret (store p (VUint (wrapUint (bitsOf (KindOf T)) x)) w)
  else Panic "reflect: call of reflect.Value.SetUint on a value of another kind".

Definition SetFloat (T : rtype) (p : list nat) (x : Z) (w : World) : outcome World :=
  if Kind_eqb (KindOf T) Float32 || Kind_eqb (KindOf T) Float64
  then Ret (store p (VFloat x) w)
  else Panic "reflect: call of reflect.Value.SetFloat on a value of another kind".

Definition SetString (T : rtype) (p : list nat) (x : string) (w : World) : outcome World :=
  if Kind_eqb (KindOf T) String then Ret (store p (VString x) w)
  else Panic "reflect: call of reflect.Value.SetString on a value of another kind".

(** The type assertion [x.(T)]. *)
Definition assert (x : any) (T : rtype) : outcome value :=
  match x with
  | Some (t, v) =>
      if rtype_eqb t T then Ret v
      else Panic "interface conversion: the value has another dynamic type"
  | None => Panic "interface conversion: interface is nil"
  end.

(** [v.Addr().Interface().( *T )] on a field of type [fieldType]. *)
Definition assertPtr (fieldType T : rtype) : outcome unit :=
  if rtype_eqb fieldType T then Ret tt
  else Panic "interface conversion: the pointer has another dynamic type".

(** [reflect.ValueOf(x).Len()] with [Index(j)] for every [j] below it. *)
Definition elements (x : any) : outcome (list value) :=
  match x with
  | Some (_, VSlice (Some l)) => Ret l
  | Some (_, VSlice None) => Ret []
  | _ => Panic "reflect: call of reflect.Value.Len on a value of another kind"
  end.

(** What a value of the matching kind holds.  Go's values are well typed,
    so the defaults are never observed. *)
Definition boolOf (v : value) : bool := match v with VBool b => b | _ => false end.
Definition intOf (v : value) : Z := match v with VInt i => i | _ => 0 end.
Definition uintOf (v : value) : Z := match v with VUint u => u | _ => 0 end.
Definition floatOf (v : value) : Z := match v with VFloat f => f | _ => 0 end.
Definition stringOf (v : value) : string := match v with VString s => s | _ => "" end.

(** [Value.Int()] and [Value.Uint()] of an element of kind [k]. *)
Definition Int_ (k : Kind) (v : value) : outcome Z :=
  if isIntKind k then Ret (intOf v)
  else Panic "reflect: call of reflect.Value.Int on a value of another kind".

Definition Uint_ (k : Kind) (v : value) : outcome Z :=
  if isUintKind k then Ret (uintOf v)
  else Panic "reflect: call of reflect.Value.Uint on a value of another kind".

End Value.

(** ** bindFieldTag *)

Record tsFieldTag : Type := {
  Bind : string;
  Default : string;
  Group : string;
  Required_ : string;
  Note : string;
  Flag_ : string
}.

(** [fieldVal.CanSet()]: the instance is addressable, so what decides is
    whether the field is exported. *)
Definition CanSet (fieldTyp : reflect.StructField) : bool :=
  match reflect.Name fieldTyp with
  | String c _ => unicode.IsUpper c
  | EmptyString => false
  end.

(** The tags of a field, as the loop reads them. *)
Definition tagOf (fieldTyp : reflect.StructField) : tsFieldTag :=
  {| Bind := reflect.Get (reflect.Tag fieldTyp) "bind";
     Default := reflect.Get (reflect.Tag fieldTyp) "default";
     Group := reflect.Get (reflect.Tag fieldTyp) "group";
     Required_ := reflect.Get (reflect.Tag fieldTyp) "required";
     Note := reflect.Get (reflect.Tag fieldTyp) "note";
     Flag_ := reflect.Get (reflect.Tag fieldTyp) "flag" |}.

(** The flag name of a field: the [flag] tag when there is one, else the
    kebab form of the field's name behind the prefix and a dot. *)
Definition flagNameOf (prefix : string) (fieldTyp : reflect.StructField) : string :=
  let flagName := reflect.Name fieldTyp in
  let flagName :=
    if negb (String.eqb prefix "") then prefix ++ "." ++ flagName else flagName in
  if negb (String.eqb (Flag_ (tagOf fieldTyp)) "") then Flag_ (tagOf fieldTyp)
  else toKebabCase flagName.

Section Binder.

Variable ext : Collaborators.
Variable env : gmap string string.

Import reflect pflag.

(** The [switch] that registers the flag.  [recurse] is [bindFieldTag] on
    the field's own type, for a nested struct. *)
Definition bindFieldTag_switch
    (recurse : list nat -> string -> list string -> World -> outcome World)
    (fieldTyp : StructField) (fieldVal : list nat) (flagName usage : string)
    (defaultValue : any) (groupNames : list string) (w : World) : outcome World :=
  let T := Type_ fieldTyp in
  let fieldKind := KindOf T in
  let scalar (U : rtype) (vt : ValueType) (set : value -> World -> outcome World) :=
    v ← Value.assert defaultValue U;
    w ← set v w;
    _ ← Value.assertPtr T U;
    Var vt fieldVal flagName v usage w in
  let setInt v := Value.SetInt T fieldVal (Value.intOf v) in
  let setUint v := Value.SetUint T fieldVal (Value.uintOf v) in
  let setFloat v := Value.SetFloat T fieldVal (Value.floatOf v) in
  let collection (U : rtype) (vt : ValueType) :=
    scalar U vt (fun v => Value.Set_ T fieldVal (U, v)) in
  if rtype_eqb T time.Duration then
    scalar time.Duration durationValue
      (fun v => Value.Set_ T fieldVal (time.Duration, v))
  else if Kind_eqb fieldKind Bool then
    scalar (Basic t_bool) boolValue (fun v => Value.SetBool T fieldVal (Value.boolOf v))
  else if rtype_eqb T (Basic t_int) then scalar (Basic t_int) intValue setInt
  else if rtype_eqb T (Basic t_int8) then scalar (Basic t_int8) int8Value setInt
  else if rtype_eqb T (Basic t_int16) then scalar (Basic t_int16) int16Value setInt
  else if rtype_eqb T (Basic t_int32) then scalar (Basic t_int32) int32Value setInt
  else if rtype_eqb T (Basic t_int64) then scalar (Basic t_int64) int64Value setInt
  else if rtype_eqb T (Basic t_float32) then scalar (Basic t_float32) float32Value setFloat
  else if rtype_eqb T (Basic t_float64) then scalar (Basic t_float64) float64Value setFloat
  else if rtype_eqb T (Basic t_uint) then scalar (Basic t_uint) uintValue setUint
  else if rtype_eqb T (Basic t_uint8) then scalar (Basic t_uint8) uint8Value setUint
  else if rtype_eqb T (Basic t_uint16) then scalar (Basic t_uint16) uint16Value setUint
  else if rtype_eqb T (Basic t_uint32) then scalar (Basic t_uint32) uint32Value setUint
  else if rtype_eqb T (Basic t_uint64) then scalar (Basic t_uint64) uint64Value setUint
  else if Kind_eqb fieldKind String then
    scalar (Basic t_string) stringValue
      (fun v => Value.SetString T fieldVal (Value.stringOf v))
  else if Kind_eqb fieldKind Slice then
    elemType ← Elem T;
    let elemKind := KindOf elemType in
    if Kind_eqb elemKind String then
      collection (SliceOf (Basic t_string)) stringSliceValue
    else if Kind_leb Int elemKind && Kind_leb elemKind Int64 then
      defaultSlice ← Value.elements defaultValue;
      ints ← mapM (Value.Int_ elemKind) defaultSlice;
      let intSlice := VSlice (Some ((fun i => VInt (wrapInt strconv.IntSize i)) <$> ints)) in
      w ← Value.Set_ T fieldVal (SliceOf (Basic t_int), intSlice) w;
      _ ← Value.assertPtr T (SliceOf (Basic t_int));
      Var intSliceValue fieldVal flagName intSlice usage w
    else if Kind_eqb elemKind Int32 then
      collection (SliceOf (Basic t_int32)) int32SliceValue
    else if Kind_eqb elemKind Int64 then
      collection (SliceOf (Basic t_int64)) int64SliceValue
    else if Kind_eqb elemKind Float64 then
      collection (SliceOf (Basic t_float64)) float64SliceValue
    else if Kind_eqb elemKind Bool then
      collection (SliceOf (Basic t_bool)) boolSliceValue
    else if Kind_leb Uint elemKind && Kind_leb elemKind Uint64 then
      defaultSlice ← Value.elements defaultValue;
      uints ← mapM (Value.Uint_ elemKind) defaultSlice;
      let uintSlice := VSlice (Some ((fun u => VUint (wrapUint strconv.IntSize u)) <$> uints)) in
      w ← Value.Set_ T fieldVal (SliceOf (Basic t_uint), uintSlice) w;
      _ ← Value.assertPtr T (SliceOf (Basic t_uint));
      Var uintSliceValue fieldVal flagName uintSlice usage w
    else
      Ret (print (Println [OpString "不支持的切片元素类型"; OpKind elemKind]) w)
  else if Kind_eqb fieldKind Map then
    elemType ← Elem T;
    let elemKind := KindOf elemType in
    if Kind_eqb elemKind String then
      collection (MapOf (Basic t_string) (Basic t_string)) stringToStringValue
    else if Kind_eqb elemKind Int then
      collection (MapOf (Basic t_string) (Basic t_int)) stringToIntValue
    else
      Ret (print (Println [OpString "utils.go"; OpString "不支持的 map 元素类型";
                           OpKind elemKind]) w)
  else if Kind_eqb fieldKind Struct then
    recurse fieldVal flagName groupNames w
  else
    Ret (print (Println [OpString "utils.go"; OpString "不支持的类型"; OpKind fieldKind]) w).

(** The name of the environment variable consulted for [flagName]. *)
Definition envVarOf (flagName : string) : string :=
  let envPrefix := os.Getenv env "PREFIX_ACF" in
  let envPrefix := if String.eqb envPrefix "" then "ACF_" else envPrefix in
  envPrefix ++ strings.ToUpper (strings.ReplaceAll flagName "-" "_").

(** The environment fallback that follows the [switch]. *)
Definition bindFieldTag_env (flagName : string) (w : World) : World :=
  let envVar := envVarOf flagName in
  let envValue := os.Getenv env envVar in
  if negb (String.eqb envValue "") && negb (FlagSet_Changed flagName w) then
    match FlagSet_Set ext flagName envValue w with
    | (w, Some err) =>
        print (Printf "从环境变量 %s 设置标志 %s 时出错: %v\n"
                 [OpString envVar; OpString flagName; OpError err]) w
    | (w, None) => w
    end
  else w.

Definition bindFieldTag_required (tag : tsFieldTag) (flagName : string) (w : World)
  : World :=
  if String.eqb (Required_ tag) "true" then
    match MarkFlagRequired flagName w with
    | (w, Some err) =>
        print (Printf "标记标志 %s 为必选时出错: %v\n" [OpString flagName; OpError err]) w
    | (w, None) => w
    end
  else w.

(** One turn of the loop of [bindFieldTag], on field [i] of the struct at
    [val]. *)
Definition bindFieldTag_field
    (recurse : list nat -> string -> list string -> World -> outcome World)
    (val : list nat) (prefix : string) (groupNames : list string)
    (i : nat) (fieldTyp : StructField) (w : World) : outcome World :=
  let fieldVal := (val ++ [i])%list in
  if negb (CanSet fieldTyp) then Ret w
  else
    let tag := tagOf fieldTyp in
    if String.eqb (Bind tag) "false" then Ret w
    else if negb (String.eqb (Group tag) "") && negb (slices.Contains groupNames (Group tag))
    then Ret w
    else
      let flagName := flagNameOf prefix fieldTyp in
      let usage := Note tag in
      '(defaultValue, err) ← parseDefaultValue ext (Type_ fieldTyp) (Default tag);
      match err with
      | Some err =>
          Ret (print (Printf "解析字段 %s 的默认值时出错: %v\n"
                        [OpString flagName; OpError err]) w)
      | None =>
          w ← bindFieldTag_switch recurse fieldTyp fieldVal flagName usage
                defaultValue groupNames w;
          Ret (bindFieldTag_required tag flagName (bindFieldTag_env flagName w))
      end.

(** The loop over the fields from index [i]. *)
Fixpoint bindFieldTag_loop
    (recurse : StructField -> list nat -> string -> list string -> World -> outcome World)
    (val : list nat) (prefix : string) (groupNames : list string)
    (i : nat) (fields : list StructField) (w : World) : outcome World :=
  match fields with
  | [] => Ret w
  | fieldTyp :: fields' =>
      w ← bindFieldTag_field (recurse fieldTyp) val prefix groupNames i fieldTyp w;
      bindFieldTag_loop recurse val prefix groupNames (S i) fields' w
  end.

(** [bindFieldTag(cmd, val, prefix, groupNames)], [typ] being [val.Type()]. *)
Fixpoint bindFieldTag (typ : rtype) (val : list nat) (prefix : string)
    (groupNames : list string) (w : World) {struct typ} : outcome World :=
  match typ with
  | StructOf fields =>
      (fix loop (i : nat) (fields : list StructField) (w : World) {struct fields}
         : outcome World :=
         match fields with
         | [] => Ret w
         | fieldTyp :: fields' =>
             w ← bindFieldTag_field
                   (match fieldTyp with
                    | mkStructField _ t _ => bindFieldTag t
                    end) val prefix groupNames i fieldTyp w;
             loop (S i) fields' w
         end) 0%nat fields w
  | _ => Panic "reflect: call of reflect.Value.NumField on a value of another kind"
  end.

End Binder.

Definition emptyWorld : World := {| formal := ∅; memory := ∅; output := [] |}.

(** ** mflag.go: the command tree

    A [cobra.Command] is kept with what this package sets or reads: its
    [Use] and [Short] texts, its [Run] function (any type [Handler]), its
    flags, its subcommands and the [HiddenDefaultCmd] completion option. *)

Module cobra.

Inductive Command (Handler : Type) : Type :=
| mkCommand (Use Short : string) (Run : option Handler) (flags : gmap string Flag)
    (commands : list (Command Handler)) (HiddenDefaultCmd : bool).
Arguments mkCommand {Handler} Use Short Run flags commands HiddenDefaultCmd.

Definition Use {Handler} (c : Command Handler) : string :=
  match c with mkCommand u _ _ _ _ _ => u end.
Definition Short {Handler} (c : Command Handler) : string :=
  match c with mkCommand _ s _ _ _ _ => s end.
Definition Run {Handler} (c : Command Handler) : option Handler :=
  match c with mkCommand _ _ r _ _ _ => r end.
Definition Flags {Handler} (c : Command Handler) : gmap string Flag :=
  match c with mkCommand _ _ _ f _ _ => f end.
Definition Commands {Handler} (c : Command Handler) : list (Command Handler) :=
  match c with mkCommand _ _ _ _ cs _ => cs end.

(** [c.AddCommand(x)] for a command [x] other than [c] itself. *)
Definition AddCommand {Handler} (c x : Command Handler) : Command Handler :=
  match c with
  | mkCommand u s r f cs h => mkCommand u s r f (cs ++ [x])%list h
  end.

End cobra.

Section CommandTree.

Variable Handler : Type.
Variable ext : Collaborators.
Variable env : gmap string string.

Record Ts : Type := {
  cc : cobra.Command Handler;
  flags : any
}.

Definition New (flags : any) : Ts :=
  {| cc := cobra.mkCommand "" "" None ∅ [] true; flags := flags |}.

Definition SetName (t : Ts) (name short : string) : Ts :=
  {| cc := match cc t with
           | cobra.mkCommand _ _ r f cs h => cobra.mkCommand name short r f cs h
           end;
     flags := flags t |}.

(** [reflect.ValueOf(x).Elem()] on a value that is not nil: the type and
    the place of what a pointer points at, nothing for a nil pointer, a panic
    for a value that is no pointer. *)
Definition ValueOf_Elem (x : reflect.rtype * reflect.value)
  : outcome (option (reflect.rtype * list nat)) :=
  match x with
  | (reflect.PointerTo e, reflect.VPointer (Some p)) => Ret (Some (e, p))
  | (reflect.PointerTo _, _) => Ret None
  | _ => Panic "reflect: call of reflect.Value.Elem on a value that is no pointer"
  end.

(** [t.AddCmd(runFunc, name, short, group...)].  The configuration lives in
    [mem], and [out] is what was printed so far; the new command starts
    without flags. *)
Definition AddCmd (t : Ts) (runFunc : Handler) (name short : string)
    (group : list string) (mem : gmap (list nat) reflect.value) (out : list diagnostic)
  : outcome (Ts * gmap (list nat) reflect.value * list diagnostic) :=
  let cmd := {| formal := ∅; memory := mem; output := out |} in
  w ← (if 0 <? Z.of_nat (length group) then
         match flags t with
         | Some x =>
             val ← ValueOf_Elem x;
             match val with
             | Some (typ, p) => bindFieldTag ext env typ p "" group cmd
             | None => Panic "reflect: call of reflect.Value.Type on zero Value"
             end
         | None => Ret cmd
         end
       else Ret cmd);
  Ret ({| cc := cobra.AddCommand (cc t)
                  (cobra.mkCommand name short (Some runFunc) (formal w) [] false);
          flags := flags t |},
       memory w, output w).

End CommandTree.

(** ** isInputFromPipe *)

Module fs.
Definition ModeCharDevice : Z := 2 ^ 21.
End fs.

(** [stat] is what [os.Stdin.Stat()] returned: the mode bits of standard
    input, or an error. *)
Definition isInputFromPipe (stat : Z + error) (out : list diagnostic)
  : bool * list diagnostic :=
  match stat with
  | inr err => (false, (out ++ [Println [OpString "获取标准输入状态失败:"; OpError err]])%list)
  | inl mode => (Z.land mode fs.ModeCharDevice =? 0, out)
  end.

(** ** Notions the statements below use *)

(** A collaborator instance for the closed examples: it rejects every
    float, duration and collection text.  No example below reaches it. *)
Definition rejecting : Collaborators :=
  {| ParseFloat := fun s _ => (0, Some (NumError "ParseFloat" s ErrSyntax));
     ParseDuration := fun s => (0, Some (ErrorString ("time: invalid duration " ++ s)));
     collectionSet := fun _ v c s => (v, c, Some (ErrorString ("invalid argument " ++ s))) |}.




(** The converter as the specification words it: a hyphen goes before an
    upper-case rune that the identifier follows with a lower-case one, unless
    nothing precedes it or a boundary was just written. *)
Fixpoint toKebabCase_spec_loop (rest : string) (result : list ascii) (prevDash : bool)
  : list ascii :=
  match rest with
  | EmptyString => result
  | String r rest' =>
      if isBoundary r then
        if negb prevDash
        then toKebabCase_spec_loop rest' (append result "-") true
        else toKebabCase_spec_loop rest' result prevDash
      else if unicode.IsUpper r then
        let followedByLower :=
          match rest' with
          | String n _ => unicode.IsLower n
          | EmptyString => false
          end in
        let result1 :=
          if (0 <? Z.of_nat (length result)) && negb (lastIsDash result) && followedByLower
          then append result "-" else result in
        toKebabCase_spec_loop rest' (append result1 (unicode.ToLower r)) false
      else
        toKebabCase_spec_loop rest' (append result r) false
  end.

Definition toKebabCase_spec (s : string) : string :=
  strings.Trim (string_of_list_ascii (toKebabCase_spec_loop s [] false)) "-".

(** Kebab form: lower-case letters, digits and single interior hyphens. *)
Definition isKebabRune (r : ascii) : bool :=
  unicode.IsLower r || unicode.IsDigit r || Ascii.eqb r "-".

Fixpoint allRunes (f : ascii -> bool) (s : string) : bool :=
  match s with
  | EmptyString => true
  | String c s' => f c && allRunes f s'
  end.

Fixpoint lastRune (s : string) : option ascii :=
  match s with
  | EmptyString => None
  | String c EmptyString => Some c
  | String _ s' => lastRune s'
  end.

Fixpoint noDoubleDash (s : string) : bool :=
  match s with
  | EmptyString => true
  | String c s' =>
      match s' with
      | String d _ => negb (Ascii.eqb c "-" && Ascii.eqb d "-") && noDoubleDash s'
      | EmptyString => true
      end
  end.

Definition isDash (o : option ascii) : bool :=
  match o with
  | Some c => Ascii.eqb c "-"
  | None => false
  end.

Definition firstRune (s : string) : option ascii :=
  match s with
  | EmptyString => None
  | String c _ => Some c
  end.

Definition isKebab (x : string) : bool :=
  allRunes isKebabRune x && negb (isDash (firstRune x)) && negb (isDash (lastRune x))
  && noDoubleDash x.

(** Induction over types that reaches the field types of a struct. *)
Section rtype_induction.
Import reflect.
Variable P : rtype -> Prop.
Hypothesis HBasic : forall b, P (Basic b).
Hypothesis HNamed : forall n b, P (Named n b).
Hypothesis HSlice : forall e, P e -> P (SliceOf e).
Hypothesis HMap : forall k e, P k -> P e -> P (MapOf k e).
Hypothesis HPointer : forall e, P e -> P (PointerTo e).
Hypothesis HStruct : forall fs, Forall (fun f => P (Type_ f)) fs -> P (StructOf fs).
Hypothesis HArray : forall n e, P e -> P (ArrayOf n e).
Hypothesis HChan : forall e, P e -> P (ChanOf e).
Hypothesis HFunc : forall f, P (FuncOf f).
Hypothesis HInterface : forall ms, P (InterfaceOf ms).

Fixpoint rtype_induction (t : rtype) : P t :=
  match t with
  | Basic b => HBasic b
  | Named n b => HNamed n b
  | SliceOf e => HSlice e (rtype_induction e)
  | MapOf k e => HMap k e (rtype_induction k) (rtype_induction e)
  | PointerTo e => HPointer e (rtype_induction e)
  | StructOf fs =>
      HStruct fs
        ((fix go (fs : list StructField) : Forall (fun f => P (Type_ f)) fs :=
            match fs with
            | [] => List.Forall_nil _
            | f :: fs' =>
                List.Forall_cons _ f fs'
                  (match f return P (Type_ f) with
                   | mkStructField _ u _ => rtype_induction u
                   end)
                  (go fs')
            end) fs)
  | ArrayOf n e => HArray n e (rtype_induction e)
  | ChanOf e => HChan e (rtype_induction e)
  | FuncOf f => HFunc f
  | InterfaceOf ms => HInterface ms
  end.
End rtype_induction.

(** On the text [s] a parser at [elemType] returns, and what it returns
    without an error is a value whose type has the underlying type of
    [elemType]. *)
Definition returnsTypedAt (parseElem : string -> outcome (any * option error))
    (elemType : reflect.rtype) (s : string) : Prop :=
  exists x err,
    parseElem s = Ret (x, err)
    /\ (err = None ->
        exists t' v, x = Some (t', v)
                     /\ reflect.rtype_eqb (reflect.underlying t')
                          (reflect.underlying elemType) = true).

(** A text without a comma, and a text of ASCII white space only. *)
Definition noSep (s : string) : bool := allRunes (fun c => negb (Ascii.eqb c ",")) s.
Definition blank (s : string) : bool := allRunes unicode.IsSpace s.

(** A slice type whose elements are of an interface type. *)
Definition sliceOfInterface (t : reflect.rtype) : bool :=
  match t with
  | reflect.SliceOf e => reflect.Kind_eqb (reflect.KindOf e) reflect.Interface
  | _ => false
  end.

(** The element text [x], trimmed, parses to [v] as an [elemType]. *)
Definition parsesTo (ext : Collaborators) (elemType : reflect.rtype)
    (x : string) (v : reflect.value) : Prop :=
  exists t', parseDefaultValue ext elemType (strings.TrimSpace x)
             = Ret (Some (t', v), None).

(** The element text [x], trimmed, fails to parse as an [elemType], with [e]. *)
Definition failsWith (ext : Collaborators) (elemType : reflect.rtype)
    (x : string) (e : error) : Prop :=
  exists r, parseDefaultValue ext elemType (strings.TrimSpace x) = Ret (r, Some e).

(** The position of the first element that fails to parse. *)
Fixpoint firstFailure (parseElem : string -> outcome (any * option error))
    (i : nat) (elements : list string) : option nat :=
  match elements with
  | [] => None
  | x :: elements' =>
      match parseElem (strings.TrimSpace x) with
      | Ret (_, None) => firstFailure parseElem (S i) elements'
      | _ => Some i
      end
  end.

Definition failingPosition (ext : Collaborators) (elemType : reflect.rtype)
    (defaultStr : string) : option nat :=
  firstFailure (parseDefaultValue ext elemType) 0%nat (strings.Split defaultStr ",").

(** The three guards at the head of the loop body let the field through:
    it is exported, its [bind] tag is not ["false"], and its group, when it
    has one, is among the active ones. *)
Definition isBound (groupNames : list string) (fieldTyp : reflect.StructField) : bool :=
  CanSet fieldTyp
  && negb (String.eqb (Bind (tagOf fieldTyp)) "false")
  && negb (negb (String.eqb (Group (tagOf fieldTyp)) "")
           && negb (slices.Contains groupNames (Group (tagOf fieldTyp)))).

(** The diagnostic of a default text that does not parse. *)
Definition defaultError (flagName : string) (err : error) : diagnostic :=
  Printf "解析字段 %s 的默认值时出错: %v\n" [OpString flagName; OpError err].

Definition unsupportedKind (k : reflect.Kind) : error :=
  Errorf "不支持的类型: %v" [OpKind k].

(** The environment key as the specification words it: the prefix, then the
    flag name with every ['-'] turned into ['_'] and every letter upper-cased,
    rune by rune. *)
Definition dashToUnderscore (c : ascii) : ascii :=
  if Ascii.eqb c "-" then "_"%char else c.

Fixpoint mapRunes (f : ascii -> ascii) (s : string) : string :=
  match s with
  | EmptyString => EmptyString
  | String c s' => String (f c) (mapRunes f s')
  end.

Definition envPrefix_spec (env : gmap string string) : string :=
  match env !! "PREFIX_ACF" with
  | Some p => if String.eqb p "" then "ACF_" else p
  | None => "ACF_"
  end.

Definition envKey_spec (env : gmap string string) (flagName : string) : string :=
  envPrefix_spec env ++ mapRunes (fun c => unicode.ToUpper (dashToUnderscore c)) flagName.

(** What the binder does with the result of the setter. *)
Definition reportSet (envVar flagName : string) (r : World * option error) : World :=
  match r with
  | (w, Some err) =>
      print (Printf "从环境变量 %s 设置标志 %s 时出错: %v\n"
               [OpString envVar; OpString flagName; OpError err]) w
  | (w, None) => w
  end.

(** The integer types and [string]: the types of the fields whose value can
    be written ["10"], ["20"] or ["30"] and is parsed inside the model. *)
Definition integerOrString : list reflect.basic :=
  [reflect.t_int; reflect.t_int8; reflect.t_int16; reflect.t_int32; reflect.t_int64;
   reflect.t_uint; reflect.t_uint8; reflect.t_uint16; reflect.t_uint32;
   reflect.t_uint64; reflect.t_string].

Definition isIntegerOrString (T : reflect.rtype) : bool :=
  existsb (fun b => reflect.rtype_eqb T (reflect.Basic b)) integerOrString.


(** The value type the binder registers for a field of such a type. *)
Definition valueTypeOf (T : reflect.rtype) : pflag.ValueType :=
  match reflect.KindOf T with
  | reflect.Int => pflag.intValue
  | reflect.Int8 => pflag.int8Value
  | reflect.Int16 => pflag.int16Value
  | reflect.Int32 => pflag.int32Value
  | reflect.Int64 => pflag.int64Value
  | reflect.Uint => pflag.uintValue
  | reflect.Uint8 => pflag.uint8Value
  | reflect.Uint16 => pflag.uint16Value
  | reflect.Uint32 => pflag.uint32Value
  | reflect.Uint64 => pflag.uint64Value
  | _ => pflag.stringValue
  end.










(** Configurations for the closed examples. *)
Definition userConfig : reflect.rtype :=
  reflect.StructOf
    [reflect.mkStructField "User" (reflect.Basic reflect.t_string) [("default", "guest")]].

Definition maxRetries : reflect.StructField :=
  reflect.mkStructField "MaxRetries" (reflect.Basic reflect.t_int) [("default", "10")].


Definition user : reflect.StructField :=
  reflect.mkStructField "User" (reflect.Basic reflect.t_string) [("default", "guest")].

Definition secret : reflect.StructField :=
  reflect.mkStructField "Secret" (reflect.PointerTo (reflect.Basic reflect.t_int))
    [("bind", "false"); ("default", "not a pointer"); ("required", "true")].

Definition server : reflect.StructField :=
  reflect.mkStructField "Server"
    (reflect.StructOf
       [reflect.mkStructField "Port" (reflect.Basic reflect.t_int) [("default", "8080")]])
    [("default", "localhost")].

(** ** Notions of the further properties *)

(** An ASCII rune, and a text of ASCII runes. *)
Definition isASCII (r : ascii) : bool := unicode.code r <? 128.

(** A flag name with its letters in lower case and ['_'] for every ['-']:
    two names with the same form differ only in letter case or in ['-']
    against ['_']. *)
Definition foldName (s : string) : string :=
  mapRunes (fun c => unicode.ToLower (dashToUnderscore c)) s.

(** A rune the converter may leave in a name: no boundary, no upper case. *)
Definition isNameRune (r : ascii) : bool :=
  negb (isBoundary r) && negb (unicode.IsUpper r).

Definition notDash (r : ascii) : bool := negb (Ascii.eqb r "-").

(** No two adjacent hyphens, on a rune slice. *)
Fixpoint noDoubleDashL (l : list ascii) : bool :=
  match l with
  | [] => true
  | c :: l' =>
      match l' with
      | d :: _ => negb (Ascii.eqb c "-" && Ascii.eqb d "-") && noDoubleDashL l'
      | [] => true
      end
  end.


(** Identifiers of letters and digits with at most one camel-case hump:
    after the first rune, once an upper-case rune is followed by a lower-case
    one, no upper-case rune comes any more ([MaxRetries], [HTTPServer],
    [userID]). *)
Definition isAlnum (r : ascii) : bool :=
  unicode.IsUpper r || unicode.IsLower r || unicode.IsDigit r.

Definition notUpper (r : ascii) : bool := negb (unicode.IsUpper r).

Definition nextIsLower (s : string) : bool :=
  match s with
  | String n _ => unicode.IsLower n
  | EmptyString => false
  end.

Fixpoint oneHump (s : string) : bool :=
  match s with
  | EmptyString => true
  | String r s' =>
      if unicode.IsUpper r && nextIsLower s' then allRunes notUpper s' else oneHump s'
  end.

Definition simpleCamel (s : string) : bool :=
  allRunes isAlnum s
  && match s with
     | EmptyString => true
     | String _ s' => oneHump s'
     end.

(** The kinds [parseDefaultValue] has a case for. *)
Definition parserSupports (k : reflect.Kind) : bool :=
  match k with
  | reflect.Bool
  | reflect.Int | reflect.Int8 | reflect.Int16 | reflect.Int32 | reflect.Int64
  | reflect.Uint | reflect.Uint8 | reflect.Uint16 | reflect.Uint32 | reflect.Uint64
  | reflect.Float32 | reflect.Float64 | reflect.String | reflect.Slice => true
  | _ => false
  end.

(** The [bitSize] that [parseDefaultValue] passes to strconv for an integer
    type, and the width of the type. *)
Definition bitSizeOf (b : reflect.basic) : Z :=
  match b with
  | reflect.t_int | reflect.t_uint => 0
  | reflect.t_int8 | reflect.t_uint8 => 8
  | reflect.t_int16 | reflect.t_uint16 => 16
  | reflect.t_int32 | reflect.t_uint32 => 32
  | _ => 64
  end.

Definition widthOf (b : reflect.basic) : Z :=
  if bitSizeOf b =? 0 then strconv.IntSize else bitSizeOf b.

Definition isSigned (b : reflect.basic) : bool :=
  match b with
  | reflect.t_int | reflect.t_int8 | reflect.t_int16 | reflect.t_int32
  | reflect.t_int64 => true
  | _ => false
  end.

Definition isUnsigned (b : reflect.basic) : bool :=
  match b with
  | reflect.t_uint | reflect.t_uint8 | reflect.t_uint16 | reflect.t_uint32
  | reflect.t_uint64 => true
  | _ => false
  end.

(** The bit sizes the package asks strconv for, and the width each stands
    for. *)
Definition goodBitSize (bitSize : Z) : bool :=
  (bitSize =? 0) || (bitSize =? 8) || (bitSize =? 16) || (bitSize =? 32) || (bitSize =? 64).

Definition width (bitSize : Z) : Z := if bitSize =? 0 then strconv.IntSize else bitSize.

(** The line the switch prints for a type it has no registration for, if
    it is such a type: a slice or map with another element kind, or a type
    that is none of the listed ones and of no listed kind. *)
Definition unsupportedLine (T : reflect.rtype) : option diagnostic :=
  let unsupported k :=
    Some (Println [OpString "utils.go"; OpString "不支持的类型"; OpKind k]) in
  match T with
  | reflect.SliceOf e =>
      match reflect.KindOf e with
      | reflect.String | reflect.Bool | reflect.Float64
      | reflect.Int | reflect.Int8 | reflect.Int16 | reflect.Int32 | reflect.Int64
      | reflect.Uint | reflect.Uint8 | reflect.Uint16 | reflect.Uint32
      | reflect.Uint64 => None
      | k => Some (Println [OpString "不支持的切片元素类型"; OpKind k])
      end
  | reflect.MapOf _ e =>
      match reflect.KindOf e with
      | reflect.String | reflect.Int => None
      | k => Some (Println [OpString "utils.go"; OpString "不支持的 map 元素类型"; OpKind k])
      end
  | reflect.StructOf _ => None
  | reflect.PointerTo _ => unsupported reflect.Pointer
  | reflect.ArrayOf _ _ => unsupported reflect.Array
  | reflect.ChanOf _ => unsupported reflect.Chan
  | reflect.FuncOf _ => unsupported reflect.Func
  | reflect.InterfaceOf _ => unsupported reflect.Interface
  | reflect.Basic b =>
      match b with
      | reflect.t_uintptr | reflect.t_complex64 | reflect.t_complex128 =>
          unsupported (reflect.basic_Kind b)
      | _ => None
      end
  | reflect.Named n b =>
      if reflect.rtype_eqb T time.Duration then None
      else match b with
           | reflect.t_bool | reflect.t_string => None
           | _ => unsupported (reflect.basic_Kind b)
           end
  end.

(** What the environment fallback and the required marking print for a flag
    name that is not registered. *)
Definition noSuchFlag (name : string) : error := Errorf "no such flag -%v" [OpString name].

Definition softFailures (env : gmap string string) (tag : tsFieldTag) (name : string)
  : list diagnostic :=
  ((if negb (String.eqb (os.Getenv env (envVarOf env name)) "")
    then [Printf "从环境变量 %s 设置标志 %s 时出错: %v\n"
            [OpString (envVarOf env name); OpString name; OpError (noSuchFlag name)]]
    else [])
   ++ (if String.eqb (Required_ tag) "true"
       then [Printf "标记标志 %s 为必选时出错: %v\n" [OpString name; OpError (noSuchFlag name)]]
       else []))%list.

Definition isBoolOrString (b : reflect.basic) : bool :=
  match b with
  | reflect.t_bool | reflect.t_string => true
  | _ => false
  end.

(** A rune that may stand in the name of an environment variable made from
    a flag name: no hyphen and no lower-case letter. *)
Definition isEnvRune (c : ascii) : bool :=
  negb (Ascii.eqb c "-") && negb (unicode.IsLower c).

(** [w'] has every flag name of [w], and its output starts with that of
    [w]. *)
Definition grows (w w' : World) : Prop :=
  (forall name, is_Some (formal w !! name) -> is_Some (formal w' !! name))
  /\ output w `prefix_of` output w'.

(** The world a computation returned, for the closed examples. *)
Definition returned (m : outcome World) : World :=
  match m with
  | Ret w => w
  | Panic _ => emptyWorld
  end.

(** A configuration handed to [New] as it has to be: a pointer, not nil,
    to a struct. *)
Definition isStructPointer (x : any) : bool :=
  match x with
  | Some (reflect.PointerTo (reflect.StructOf _), reflect.VPointer (Some _)) => true
  | _ => false
  end.

(** A program for the closed examples: its run functions are numbered. *)
Definition appConfig : any :=
  Some (reflect.PointerTo (reflect.StructOf [maxRetries]), reflect.VPointer (Some [])).

Definition afterServe : Ts nat * gmap (list nat) reflect.value * list diagnostic :=
  match AddCmd nat rejecting ∅ (New nat appConfig) 0%nat "serve" "run the server"
          ["web"] ∅ [] with
  | Ret r => r
  | Panic _ => (New nat None, ∅, [])
  end.

(** The types for which the switch registers a flag without a panic: the
    predeclared booleans, integers, floats and strings, [time.Duration], the
    slices [[]string], [[]int], [[]float64], [[]bool], [[]uint] and the maps
    [map[string]string], [map[string]int]. *)
Definition registers (T : reflect.rtype) : bool :=
  match T with
  | reflect.Basic b =>
      match b with
      | reflect.t_uintptr | reflect.t_complex64 | reflect.t_complex128 => false
      | _ => true
      end
  | reflect.Named _ _ => reflect.rtype_eqb T time.Duration
  | reflect.SliceOf (reflect.Basic b) =>
      match b with
      | reflect.t_string | reflect.t_int | reflect.t_float64 | reflect.t_bool
      | reflect.t_uint => true
      | _ => false
      end
  | reflect.MapOf (reflect.Basic reflect.t_string) (reflect.Basic b) =>
      match b with
      | reflect.t_string | reflect.t_int => true
      | _ => false
      end
  | _ => false
  end.

(** The types the binder gets through: those it registers, those it reports
    as unsupported, slices of an interface type apart (on which the parser
    can panic), and the structs made of such types. *)
Fixpoint safeType (T : reflect.rtype) : bool :=
  match T with
  | reflect.StructOf fs =>
      (fix all (fs : list reflect.StructField) : bool :=
         match fs with
         | [] => true
         | reflect.mkStructField _ t _ :: fs' => safeType t && all fs'
         end) fs
  | _ =>
      (registers T
       || match unsupportedLine T with Some _ => true | None => false end)
      && negb (sliceOfInterface T)
  end.

(** The flag names the binder may register for a struct: one for each bound
    field of a type it registers, and those of the bound nested structs,
    under their prefix. *)
Fixpoint flagNames (typ : reflect.rtype) (prefix : string) (groupNames : list string)
  : list string :=
  match typ with
  | reflect.StructOf fs =>
      (fix go (fs : list reflect.StructField) : list string :=
         match fs with
         | [] => []
         | f :: fs' =>
             ((if isBound groupNames f
               then match f with
                    | reflect.mkStructField _ t _ =>
                        if registers t then [flagNameOf prefix f]
                        else flagNames t (flagNameOf prefix f) groupNames
                    end
               else []) ++ go fs')%list
         end) fs
  | _ => []
  end.

(** The names of one field, as [flagNames] collects them. *)
Definition fieldNames (prefix : string) (groupNames : list string)
    (f : reflect.StructField) : list string :=
  if isBound groupNames f then
    if registers (reflect.Type_ f) then [flagNameOf prefix f]
    else flagNames (reflect.Type_ f) (flagNameOf prefix f) groupNames
  else [].

(** Every flag of [w'] is a flag of [w] or has one of the [names]. *)
Definition addsOnly (names : list string) (w w' : World) : Prop :=
  forall n, is_Some (formal w' !! n) -> is_Some (formal w !! n) \/ n ∈ names.

(** No flag of [w] has one of the [names]. *)
Definition fresh (names : list string) (w : World) : Prop :=
  forall n, n ∈ names -> formal w !! n = None.

(** A configuration with fields of every sort the binder gets through:
    scalars, collections, a duration, a nested struct and a pointer. *)
Definition serviceConfig : list reflect.StructField :=
  [reflect.mkStructField "Name" (reflect.Basic reflect.t_string) [("default", "svc")];
   reflect.mkStructField "Ports" (reflect.SliceOf (reflect.Basic reflect.t_int))
     [("default", "80,443")];
   reflect.mkStructField "Labels"
     (reflect.MapOf (reflect.Basic reflect.t_string) (reflect.Basic reflect.t_string)) [];
   reflect.mkStructField "Timeout" time.Duration [("required", "true")];
   reflect.mkStructField "DB"
     (reflect.StructOf
        [reflect.mkStructField "Host" (reflect.Basic reflect.t_string)
           [("default", "localhost")];
         reflect.mkStructField "MaxConns" (reflect.Basic reflect.t_uint16)
           [("default", "10")]]) [];
   reflect.mkStructField "Hook" (reflect.PointerTo (reflect.Basic reflect.t_int)) []].

(** The flag names of the fields the binder will register in a struct: the
    bound fields of a type it registers whose default text parses, and those
    of the bound nested structs, under their prefix. *)
Fixpoint boundNames (ext : Collaborators) (typ : reflect.rtype) (prefix : string)
    (groupNames : list string) : list string :=
  match typ with
  | reflect.StructOf fs =>
      (fix go (fs : list reflect.StructField) : list string :=
         match fs with
         | [] => []
         | f :: fs' =>
             ((if isBound groupNames f
               then match f with
                    | reflect.mkStructField _ t _ =>
                        match parseDefaultValue ext t (Default (tagOf f)) with
                        | Ret (_, None) =>
                            if registers t then [flagNameOf prefix f]
                            else boundNames ext t (flagNameOf prefix f) groupNames
                        | _ => []
                        end
                    end
               else []) ++ go fs')%list
         end) fs
  | _ => []
  end.

(** The names of one field, as [boundNames] collects them. *)
Definition boundFieldNames (ext : Collaborators) (prefix : string)
    (groupNames : list string) (f : reflect.StructField) : list string :=
  if isBound groupNames f then
    match parseDefaultValue ext (reflect.Type_ f) (Default (tagOf f)) with
    | Ret (_, None) =>
        if registers (reflect.Type_ f) then [flagNameOf prefix f]
        else boundNames ext (reflect.Type_ f) (flagNameOf prefix f) groupNames
    | _ => []
    end
  else [].

(** * Properties *)

(** ** toKebabCase *)

Section KebabFacts.

Implicit Types (s rest x : string) (result : list ascii) (f : ascii -> bool).

Lemma TrimLeftFunc_id f s :
  match firstRune s with Some c => f c = false | None => True end ->
  strings.TrimLeftFunc f s = s.
Proof. destruct s as [|c s]; simpl; [done | by intros ->]. Qed.

Lemma TrimRightFunc_id f s :
  match lastRune s with Some c => f c = false | None => True end ->
  strings.TrimRightFunc f s = s.
Proof.
  induction s as [|c s IH]; [done |].
  destruct s as [|d s].
  - simpl. by intros ->.
  - intros H. change (lastRune (String c (String d s))) with (lastRune (String d s)) in H.
    specialize (IH H).
    change (strings.TrimRightFunc f (String c (String d s)))
      with (match strings.TrimRightFunc f (String d s) with
            | EmptyString => if f c then EmptyString else String c EmptyString
            | t => String c t
            end).
    by rewrite IH.
Qed.

Lemma Trim_dash_id s :
  isDash (firstRune s) = false -> isDash (lastRune s) = false ->
  strings.Trim s "-" = s.
Proof.
  intros Hf Hl. unfold strings.Trim, strings.TrimFunc.
  rewrite TrimLeftFunc_id.
  - apply TrimRightFunc_id. destruct (lastRune s) as [c|]; [|done].
    change (strings.ContainsRune "-" c) with (Ascii.eqb "-" c || false).
    unfold isDash in Hl. by rewrite Ascii.eqb_sym, Hl.
  - destruct (firstRune s) as [c|]; [|done].
    change (strings.ContainsRune "-" c) with (Ascii.eqb "-" c || false).
    unfold isDash in Hf. by rewrite Ascii.eqb_sym, Hf.
Qed.

(** A rune of a kebab string is neither a boundary nor upper case. *)
Lemma isKebabRune_plain r :
  isKebabRune r = true -> isBoundary r = false /\ unicode.IsUpper r = false.
Proof.
  destruct r as [[] [] [] [] [] [] [] []]; vm_compute; intuition congruence.
Qed.

(** On such runes the loop only copies. *)
Lemma toKebabCase_loop_plain s rest result prevDash :
  allRunes isKebabRune rest = true ->
  toKebabCase_loop s rest result prevDash
  = (result ++ list_ascii_of_string rest)%list.
Proof.
  revert result prevDash.
  induction rest as [|r rest IH]; intros result prevDash H; simpl.
  - by rewrite app_nil_r.
  - simpl in H. apply andb_true_iff in H as [Hr Hrest].
    destruct (isKebabRune_plain r Hr) as [-> ->].
    rewrite IH by done. unfold append. by rewrite <- app_assoc.
Qed.

Lemma toKebabCase_kebab x : isKebab x = true -> toKebabCase x = x.
Proof.
  unfold isKebab. rewrite !andb_true_iff, !negb_true_iff.
  intros [[[Hall Hf] Hl] _].
  unfold toKebabCase. rewrite toKebabCase_loop_plain by done. simpl.
  rewrite string_of_list_ascii_of_string. by apply Trim_dash_id.
Qed.

End KebabFacts.

(** C9. [toKebabCase] is idempotent on strings already in kebab form
    (lower-case letters, digits, single interior hyphens): converting such
    a string twice gives what converting it once gives. *)
Theorem toKebabCase_idempotent (x : string) :
  isKebab x = true -> toKebabCase (toKebabCase x) = toKebabCase x.
Proof. intros H. by rewrite !(toKebabCase_kebab x H). Qed.

Lemma toKebabCase_idempotent_witness :
  isKebab "max-retries" = true
  /\ toKebabCase (toKebabCase "max-retries") = toKebabCase "max-retries".
Proof. split; [reflexivity | apply (toKebabCase_idempotent "max-retries"); reflexivity]. Defined.

(** C2. [toKebabCase "MaxRetries"] is ["max-retries"], but the camel-case
    rule is not the one the comment in the code and the specification give:
    the look-ahead reads the identifier at [len(result) + 1], so once a
    hyphen has been written it looks one rune too far.  On ["GetUserId"] the
    code writes no hyphen before [I], although [d] follows it. *)
Theorem toKebabCase_camel_lookahead :
  toKebabCase "MaxRetries" = "max-retries"
  /\ toKebabCase "GetUserId" = "get-userid"
  /\ toKebabCase_spec "GetUserId" = "get-user-id"
  /\ toKebabCase "aBcDEfg" = "a-bc-defg"
  /\ toKebabCase_spec "aBcDEfg" = "a-bcd-efg".
Proof. repeat split; reflexivity. Qed.

(** ** parseDefaultValue *)

Lemma bind_Ret {A B} (f : A -> outcome B) (a : A) : (Ret a ≫= f) = f a.
Proof. reflexivity. Qed.

Lemma basic_eqb_refl b : reflect.basic_eqb b b = true.
Proof. by destruct b. Qed.

Lemma rtype_eqb_refl t : reflect.rtype_eqb t t = true.
Proof.
  induction t using rtype_induction; simpl;
    rewrite ?basic_eqb_refl, ?String.eqb_refl; auto.
  - by rewrite IHt1, IHt2.
  - induction H as [|[n u tg] fs Hu Hfs IH]; [done|].
    simpl in Hu. rewrite String.eqb_refl, Hu, bool_decide_eq_true_2 by done.
    simpl. exact IH.
  - by rewrite Nat.eqb_refl, IHt.
  - by apply bool_decide_eq_true_2.
Qed.

(** ** Pieces of a text between commas, and trimming *)

Section PieceFacts.

Implicit Types (s cur x : string) (f g : ascii -> bool).

Lemma TrimRightFunc_cons f d s :
  strings.TrimRightFunc f (String d s)
  = match strings.TrimRightFunc f s with
    | EmptyString => if f d then EmptyString else String d EmptyString
    | t => String d t
    end.
Proof. reflexivity. Qed.

Lemma allRunes_TrimLeftFunc f g s :
  allRunes f s = true -> allRunes f (strings.TrimLeftFunc g s) = true.
Proof.
  induction s as [|d s IH]; simpl; [done|].
  intros [Hd Hs]%andb_true_iff. destruct (g d); [by apply IH|].
  simpl. by rewrite Hd, Hs.
Qed.

Lemma allRunes_TrimRightFunc f g s :
  allRunes f s = true -> allRunes f (strings.TrimRightFunc g s) = true.
Proof.
  induction s as [|d s IH]; [done|]. simpl allRunes at 1.
  intros [Hd Hs]%andb_true_iff. rewrite TrimRightFunc_cons.
  specialize (IH Hs).
  destruct (strings.TrimRightFunc g s) as [|e t].
  - destruct (g d); simpl; [done | by rewrite Hd].
  - change (allRunes f (String d (String e t)))
      with (f d && allRunes f (String e t)). by rewrite Hd, IH.
Qed.

(** What trimming leaves is made of [f]-runes only when the text is. *)
Lemma TrimLeftFunc_all f s :
  allRunes f (strings.TrimLeftFunc f s) = true -> allRunes f s = true.
Proof.
  induction s as [|d s IH]; simpl; [done|].
  destruct (f d) eqn:Hd; [exact IH|]. simpl. by rewrite Hd.
Qed.

Lemma TrimRightFunc_all f s :
  allRunes f (strings.TrimRightFunc f s) = true -> allRunes f s = true.
Proof.
  induction s as [|d s IH]; [done|]. rewrite TrimRightFunc_cons.
  destruct (strings.TrimRightFunc f s) as [|e t].
  - destruct (f d) eqn:Hd; simpl; [|by rewrite Hd].
    intros _. by rewrite Hd, IH.
  - change (allRunes f (String d (String e t)))
      with (f d && allRunes f (String e t)).
    intros [Hd Ht]%andb_true_iff. simpl. by rewrite Hd, IH.
Qed.

Lemma TrimLeftFunc_of_all f s :
  allRunes f s = true -> strings.TrimLeftFunc f s = "".
Proof.
  induction s as [|d s IH]; simpl; [done|].
  intros [Hd Hs]%andb_true_iff. rewrite Hd. by apply IH.
Qed.

(** A text of white space is trimmed to nothing, and only such a text. *)
Lemma TrimSpace_blank x : blank x = true -> strings.TrimSpace x = "".
Proof.
  intros H. unfold strings.TrimSpace, strings.TrimFunc.
  by rewrite TrimLeftFunc_of_all.
Qed.

Lemma blank_TrimSpace x : blank (strings.TrimSpace x) = true -> blank x = true.
Proof.
  unfold blank, strings.TrimSpace, strings.TrimFunc.
  intros H. by apply TrimLeftFunc_all, TrimRightFunc_all.
Qed.

Lemma noSep_TrimSpace x : noSep x = true -> noSep (strings.TrimSpace x) = true.
Proof.
  intros H. unfold noSep, strings.TrimSpace, strings.TrimFunc.
  by apply allRunes_TrimRightFunc, allRunes_TrimLeftFunc.
Qed.

Lemma string_app_nil_r s : s ++ "" = s.
Proof.
  induction s as [|c s IH]; [done|].
  change (String c s ++ "") with (String c (s ++ "")). by rewrite IH.
Qed.

Lemma string_app_snoc cur c s : (cur ++ String c "") ++ s = cur ++ String c s.
Proof.
  induction cur as [|d cur IH]; [done|].
  change (String d cur ++ String c "") with (String d (cur ++ String c "")).
  change (String d (cur ++ String c "") ++ s)
    with (String d ((cur ++ String c "") ++ s)).
  by rewrite IH.
Qed.

Lemma allRunes_snoc f cur c :
  allRunes f (cur ++ String c "") = allRunes f cur && f c.
Proof.
  induction cur as [|d cur IH]; [simpl; by rewrite andb_true_r|].
  change (String d cur ++ String c "") with (String d (cur ++ String c "")).
  simpl. by rewrite IH, andb_assoc.
Qed.

Lemma splitFrom_comma cur c s :
  strings.splitFrom "," 0 cur (String c s)
  = if Ascii.eqb "," c then cur :: strings.splitFrom "," 0 "" s
    else strings.splitFrom "," 0 (cur ++ String c "") s.
Proof.
  change (strings.splitFrom "," 0 cur (String c s))
    with (if Ascii.eqb "," c && true then cur :: strings.splitFrom "," 0 "" s
          else strings.splitFrom "," 0 (cur ++ String c "") s).
  by rewrite andb_true_r.
Qed.

(** A text without a comma is its own single piece. *)
Lemma splitFrom_noSep s : forall cur,
  noSep s = true -> strings.splitFrom "," 0 cur s = [cur ++ s].
Proof.
  induction s as [|c s IH]; intros cur H.
  - by rewrite string_app_nil_r.
  - simpl in H. apply andb_true_iff in H as [Hc Hs].
    rewrite splitFrom_comma, Ascii.eqb_sym.
    apply negb_true_iff in Hc. rewrite Hc, IH by done.
    by rewrite string_app_snoc.
Qed.

Lemma Split_noSep s : noSep s = true -> strings.Split s "," = [s].
Proof. intros H. by apply (splitFrom_noSep s ""). Qed.

(** No piece has a comma. *)
Lemma splitFrom_pieces s : forall cur,
  noSep cur = true ->
  Forall (fun x => noSep x = true) (strings.splitFrom "," 0 cur s).
Proof.
  induction s as [|c s IH]; intros cur H.
  - by constructor.
  - rewrite splitFrom_comma. destruct (Ascii.eqb "," c) eqn:Hc.
    + constructor; [done | by apply IH].
    + apply IH. unfold noSep. rewrite allRunes_snoc.
      fold (noSep cur). by rewrite H, Ascii.eqb_sym, Hc.
Qed.

Lemma Split_pieces s : Forall (fun x => noSep x = true) (strings.Split s ",").
Proof. by apply (splitFrom_pieces s ""). Qed.

End PieceFacts.

Section ParserFacts.

Variable ext : Collaborators.

Import reflect.

(** In the slice case [parseDefaultValue] is the call of
    [parseSliceDefaultValue] that the source makes. *)
Lemma parseDefaultValue_Slice fieldType defaultStr :
  String.eqb defaultStr "" = false ->
  KindOf fieldType = Slice ->
  parseDefaultValue ext fieldType defaultStr
  = parseSliceDefaultValue ext fieldType defaultStr.
Proof.
  intros Hs Hk. destruct fieldType as [b|n b| | | | | | | |]; try discriminate Hk.
  - destruct b; discriminate Hk.
  - destruct b; discriminate Hk.
  - simpl. by rewrite Hs.
Qed.

Lemma parseDefaultValue_SliceOf e s :
  parseDefaultValue ext (SliceOf e) s
  = if String.eqb s "" then Ret (Some (SliceOf e, VSlice None), None)
    else parseSliceDefaultValue_body (parseDefaultValue ext e) (SliceOf e) e s.
Proof. reflexivity. Qed.

(** On the empty text the parser returns [reflect.Zero(t).Interface()]. *)
Lemma parseDefaultValue_zero t :
  parseDefaultValue ext t "" = Ret (Interface_ t (Zero t), None).
Proof. by destruct t. Qed.

Lemma Interface_Zero t :
  Interface_ t (Zero t)
  = if Kind_eqb (KindOf t) Interface then None else Some (t, Zero t).
Proof. destruct t as [b|n b| | | | | | | |]; try done; by destruct b. Qed.

Local Ltac split_pairs :=
  repeat match goal with
         | |- context [let '(_, _) := ?p in _] => destruct p
         | H : context [let '(_, _) := ?p in _] |- _ => destruct p
         end.

(** A value the parser returns without an error is of the field's type up
    to the name of the type. *)
Lemma parseDefaultValue_typed t s t' v :
  parseDefaultValue ext t s = Ret (Some (t', v), None) ->
  rtype_eqb (underlying t') (underlying t) = true.
Proof.
  intros H. destruct (String.eqb s "") eqn:Hs.
  { apply String.eqb_eq in Hs as ->. rewrite parseDefaultValue_zero in H.
    destruct t as [b|n b| | | | | | | |]; simpl in H; simplify_eq;
      try apply rtype_eqb_refl; simpl; apply basic_eqb_refl. }
  destruct t as [b|n b|e|k e|e|fs|n e|e|f|ms].
  - destruct b; simpl in H; rewrite Hs in H; split_pairs; simplify_eq; reflexivity.
  - unfold parseDefaultValue in H. rewrite Hs in H.
    destruct (rtype_eqb (Named n b) time.Duration) eqn:Hd.
    + destruct (ParseDuration ext s) as [d [err|]]; simplify_eq.
      simpl in Hd. apply andb_true_iff in Hd as [_ Hb]. simpl. by destruct b.
    + destruct b; simpl in H; split_pairs; simplify_eq; reflexivity.
  - rewrite parseDefaultValue_SliceOf, Hs in H.
    unfold parseSliceDefaultValue_body in H.
    change (negb (Kind_eqb (KindOf (SliceOf e)) Slice)) with false in H.
    cbv iota in H.
    destruct (parseSliceDefaultValue_loop _ _ _ _ _) as [[rs|err]|msg];
      cbn in H; simplify_eq.
    apply (rtype_eqb_refl (SliceOf e)).
  - simpl in H. rewrite Hs in H. discriminate H.
  - simpl in H. rewrite Hs in H. discriminate H.
  - simpl in H. rewrite Hs in H. discriminate H.
  - simpl in H. rewrite Hs in H. discriminate H.
  - simpl in H. rewrite Hs in H. discriminate H.
  - simpl in H. rewrite Hs in H. discriminate H.
  - simpl in H. rewrite Hs in H. discriminate H.
Qed.

Lemma parsesTo_convertible elemType x v t' :
  parseDefaultValue ext elemType (strings.TrimSpace x) = Ret (Some (t', v), None) ->
  rtype_eqb (underlying t') (underlying elemType) = true.
Proof. apply parseDefaultValue_typed. Qed.

(** The loop returns when the parser returns on every element, with a
    value wherever it returns no error. *)
Lemma loop_returns parseElem elemType elements :
  Forall (fun x => returnsTypedAt parseElem elemType (strings.TrimSpace x)) elements ->
  forall i resultSlice,
    exists r,
      parseSliceDefaultValue_loop parseElem elemType i elements resultSlice = Ret r.
Proof.
  induction 1 as [|x elements Hx _ IH]; intros i rs; simpl.
  - by eexists.
  - destruct Hx as (a & err & -> & Ht). simpl.
    destruct err as [e|]; [by eexists|].
    destruct (Ht eq_refl) as (t' & v & -> & Hc). simpl. rewrite Hc. simpl.
    apply IH.
Qed.

Local Ltac returned :=
  eexists _, _; (split; [done|]); intros ?; simplify_eq; try by eexists _, _.

(** At a type that is no slice, on a text that is not empty, the parser
    returns: an error, or a value of the type up to its name. *)
Lemma nonslice_returns t s :
  String.eqb s "" = false ->
  match t with SliceOf _ => false | _ => true end = true ->
  returnsTypedAt (parseDefaultValue ext t) t s.
Proof.
  intros Hs Ht. unfold returnsTypedAt.
  destruct t as [b|n b|e|k e|e|fs|n e|e|f|ms]; try discriminate Ht.
  - destruct b; simpl; rewrite Hs; split_pairs; returned.
  - unfold parseDefaultValue. rewrite Hs.
    destruct (rtype_eqb (Named n b) time.Duration) eqn:Hd.
    + destruct (ParseDuration ext s) as [d [err|]]; returned.
      eexists _, _; split; [done|].
      simpl in Hd. apply andb_true_iff in Hd as [_ Hb].
      simpl. by destruct b.
    + destruct b; simpl; split_pairs; returned.
  - simpl; rewrite Hs; returned.
  - simpl; rewrite Hs; returned.
  - simpl; rewrite Hs; returned.
  - simpl; rewrite Hs; returned.
  - simpl; rewrite Hs; returned.
  - simpl; rewrite Hs; returned.
  - simpl; rewrite Hs; returned.
Qed.

(** On a text that is not blank and has no comma the parser returns, for
    every type: at an interface type with an error, and in a slice with
    that text as the single element. *)
Lemma piece_returns t : forall p,
  noSep p = true -> blank p = false ->
  returnsTypedAt (parseDefaultValue ext t) t p.
Proof.
  induction t as [b|n b|e IH|k e _ _|e _|fs _|n e _|e _|f|ms] using rtype_induction;
    intros s Hsep Hblank;
    (assert (String.eqb s "" = false) as Hs
       by (destruct s; [discriminate Hblank | done]));
    try (by apply nonslice_returns).
  unfold returnsTypedAt. rewrite parseDefaultValue_SliceOf, Hs.
  unfold parseSliceDefaultValue_body.
  change (negb (Kind_eqb (KindOf (SliceOf e)) Slice)) with false. cbv iota.
  rewrite Split_noSep by done.
  destruct (loop_returns (parseDefaultValue ext e) e [s]) with
    (i := 0%nat) (resultSlice := MakeSlice e (length [s])) as [r ->].
  { constructor; [|constructor]. apply IH; [by apply noSep_TrimSpace|].
    destruct (blank (strings.TrimSpace s)) eqn:Hb; [|done].
    apply blank_TrimSpace in Hb. congruence. }
  simpl. destruct r as [rs|err]; returned.
  eexists _, _; (split; [done|]). apply (rtype_eqb_refl (SliceOf e)).
Qed.

(** On a piece of a text between commas, once trimmed, the parser at a
    type that is no interface type returns, with a value unless it returns
    an error. *)
Lemma element_returns elemType x :
  Kind_eqb (KindOf elemType) Interface = false ->
  noSep x = true ->
  returnsTypedAt (parseDefaultValue ext elemType) elemType (strings.TrimSpace x).
Proof.
  intros Hk Hsep. destruct (blank (strings.TrimSpace x)) eqn:Hb.
  - apply blank_TrimSpace, TrimSpace_blank in Hb. rewrite Hb.
    unfold returnsTypedAt.
    rewrite parseDefaultValue_zero, Interface_Zero, Hk. returned.
    eexists _, _; (split; [done|]). apply rtype_eqb_refl.
  - apply piece_returns; [by apply noSep_TrimSpace | done].
Qed.

(** [parseDefaultValue] does not panic unless the field is a slice of an
    interface type: it returns an error, the nil interface value (at an
    interface type), or a value of the field's type up to the name of the
    type. *)
Lemma parseDefaultValue_returns t s :
  sliceOfInterface t = false ->
  exists x err,
    parseDefaultValue ext t s = Ret (x, err)
    /\ (err = None ->
        match x with
        | Some (t', v) => rtype_eqb (underlying t') (underlying t) = true
        | None => Kind_eqb (KindOf t) Interface = true
        end).
Proof.
  intros Ht. destruct (String.eqb s "") eqn:Hs.
  { apply String.eqb_eq in Hs as ->. rewrite parseDefaultValue_zero, Interface_Zero.
    eexists _, _; split; [done|]. intros _.
    destruct (Kind_eqb (KindOf t) Interface) eqn:Hk; [done | apply rtype_eqb_refl]. }
  assert (Hstrict : returnsTypedAt (parseDefaultValue ext t) t s).
  { destruct (match t with SliceOf _ => false | _ => true end) eqn:Hsl;
      [by apply nonslice_returns|].
    destruct t as [b|n b|e|k e|e|fs|n e|e|f|ms]; try discriminate Hsl.
    unfold returnsTypedAt. rewrite parseDefaultValue_SliceOf, Hs.
    unfold parseSliceDefaultValue_body.
    change (negb (Kind_eqb (KindOf (SliceOf e)) Slice)) with false. cbv iota.
    destruct (loop_returns (parseDefaultValue ext e) e (strings.Split s ",")) with
      (i := 0%nat) (resultSlice := MakeSlice e (length (strings.Split s ",")))
      as [r ->].
    { eapply Forall_impl; [apply Split_pieces|].
      intros x Hx. by apply element_returns. }
    simpl. destruct r as [rs|err]; returned.
    eexists _, _; (split; [done|]). apply (rtype_eqb_refl (SliceOf e)). }
  destruct Hstrict as (x & err & Hp & Hx). exists x, err. split; [done|].
  intros He. by destruct (Hx He) as (t' & v & -> & Hc).
Qed.

(** A slice of an interface type makes the parser panic on a text whose
    first piece is empty: the piece parses to the nil interface value, which
    [Convert] does not take. *)
Lemma parseDefaultValue_interface_elements ms rest :
  parseDefaultValue ext (SliceOf (InterfaceOf ms)) (String.String "," rest)
  = Panic "reflect: call of reflect.Value.Convert on zero Value".
Proof.
  rewrite parseDefaultValue_SliceOf.
  change (String.eqb (String.String "," rest) "") with false. cbv iota.
  unfold parseSliceDefaultValue_body.
  change (negb (Kind_eqb (KindOf (SliceOf (InterfaceOf ms))) Slice)) with false.
  cbv iota. unfold strings.Split. rewrite splitFrom_comma.
  change (Ascii.eqb "," ",") with true. cbv iota. reflexivity.
Qed.

(** A piece of the text parses or fails, at an element type that is no
    interface type. *)
Lemma parses_or_fails elemType x :
  Kind_eqb (KindOf elemType) Interface = false ->
  noSep x = true ->
  (exists v, parsesTo ext elemType x v) \/ (exists e, failsWith ext elemType x e).
Proof.
  intros Hk Hsep.
  destruct (element_returns elemType x Hk Hsep) as (a & [e|] & Heq & Ht).
  - right. exists e, a. done.
  - left. destruct (Ht eq_refl) as (t' & v & -> & _). exists v, t'. done.
Qed.

(** When every element parses, the loop fills the slice from [i] on with
    the parsed values, in order. *)
Lemma loop_ok elemType elements vs :
  Forall2 (parsesTo ext elemType) elements vs ->
  forall i rs, length rs = (i + length elements)%nat ->
    parseSliceDefaultValue_loop (parseDefaultValue ext elemType) elemType i elements rs
    = Ret (inl (take i rs ++ vs)%list).
Proof.
  induction 1 as [|x v elements vs [t' Hp] _ IH]; intros i rs Hlen; simpl.
  - rewrite app_nil_r, take_ge; [done | simpl in Hlen; lia].
  - rewrite Hp. simpl. rewrite (parsesTo_convertible _ _ _ _ Hp). simpl.
    rewrite IH by (rewrite length_insert; simpl in Hlen; lia).
    rewrite (take_S_r _ _ v) by (apply list_lookup_insert_eq; simpl in Hlen; lia).
    rewrite take_insert_ge by lia. by rewrite <- app_assoc.
Qed.

(** The loop stops at the first element that fails. *)
Lemma loop_err elemType pre x post e :
  Forall (fun y => exists v, parsesTo ext elemType y v) pre ->
  failsWith ext elemType x e ->
  forall i rs,
    parseSliceDefaultValue_loop (parseDefaultValue ext elemType) elemType i
      (pre ++ x :: post) rs
    = Ret (inr (Errorf "解析切片元素 '%s' 时出错: %v"
                  [OpString (strings.TrimSpace x); OpError e])).
Proof.
  intros Hpre [r Hx]. induction Hpre as [|y pre [v [t' Hy]] _ IH]; intros i rs; simpl.
  - by rewrite Hx.
  - rewrite Hy. simpl. rewrite (parsesTo_convertible _ _ _ _ Hy). simpl. apply IH.
Qed.

Lemma first_failure {A} (P Q : A -> Prop) (l : list A) :
  Forall (fun x => Q x \/ P x) l -> Exists P l ->
  exists pre x post, l = (pre ++ x :: post)%list /\ Forall Q pre /\ P x.
Proof.
  induction 1 as [|y l Hy _ IH]; intros HE; [by inversion HE|].
  destruct Hy as [Hq|Hp].
  - apply Exists_cons in HE as [Hp|HE].
    + exists [], y, l. by repeat split.
    + destruct (IH HE) as (pre & x & post & -> & Hpre & Hx).
      exists (y :: pre), x, post. repeat split; [by constructor | done].
  - exists [], y, l. by repeat split.
Qed.

Lemma parseSliceDefaultValue_unfold elemType defaultStr :
  parseSliceDefaultValue ext (SliceOf elemType) defaultStr
  = (r ← parseSliceDefaultValue_loop (parseDefaultValue ext elemType) elemType 0%nat
          (strings.Split defaultStr ",")
          (MakeSlice elemType (length (strings.Split defaultStr ",")));
     match r with
     | inr e => Ret (None, Some e)
     | inl resultSlice =>
         Ret (Some (SliceOf elemType, VSlice (Some resultSlice)), None)
     end).
Proof. reflexivity. Qed.

End ParserFacts.

(** C6. Whatever the type of the field (scalar, slice, map, struct or a kind
    the parser does not support), [parseDefaultValue] on the empty text
    returns the zero value of that type, and no error.  The zero value of an
    interface type is the nil interface value; that of any other type comes
    with the type. *)
Theorem parseDefaultValue_empty (ext : Collaborators) (fieldType : reflect.rtype) :
  parseDefaultValue ext fieldType ""
  = Ret (if reflect.Kind_eqb (reflect.KindOf fieldType) reflect.Interface
         then None
         else Some (fieldType, reflect.Zero fieldType),
         None).
Proof. by rewrite parseDefaultValue_zero, Interface_Zero. Qed.

(** C5. When every element of the default text, split on [","] and trimmed
    of surrounding white space, parses as the element type, the slice parser
    returns exactly those values, in order, and no error. *)
Theorem parseSliceDefaultValue_parses (ext : Collaborators)
    (elemType : reflect.rtype) (defaultStr : string) (vs : list reflect.value) :
  Forall2 (parsesTo ext elemType) (strings.Split defaultStr ",") vs ->
  parseSliceDefaultValue ext (reflect.SliceOf elemType) defaultStr
  = Ret (Some (reflect.SliceOf elemType, reflect.VSlice (Some vs)), None).
Proof.
  intros H. rewrite parseSliceDefaultValue_unfold.
  rewrite (loop_ok ext elemType _ vs H).
  - done.
  - unfold MakeSlice. by rewrite length_replicate.
Qed.

Lemma parseSliceDefaultValue_parses_witness :
  parseSliceDefaultValue rejecting (reflect.SliceOf (reflect.Basic reflect.t_int)) "1, 2,3"
  = Ret (Some (reflect.SliceOf (reflect.Basic reflect.t_int),
               reflect.VSlice (Some [reflect.VInt 1; reflect.VInt 2; reflect.VInt 3])),
         None).
Proof.
  apply (parseSliceDefaultValue_parses rejecting (reflect.Basic reflect.t_int) "1, 2,3"
           [reflect.VInt 1; reflect.VInt 2; reflect.VInt 3]).
  repeat constructor; eexists; reflexivity.
Defined.

(** C4, as the code has it. For a slice whose element type is no interface
    type: when some element of the default text fails to parse as the element
    type, the slice parser returns no slice at all and an error made of the
    trimmed text of the first failing element and of the cause of its
    failure.  The error does not carry the element's position.  (With an
    interface element type an empty element before the failing one is a
    panic.) *)
Theorem parseSliceDefaultValue_fails (ext : Collaborators)
    (elemType : reflect.rtype) (defaultStr : string) :
  reflect.Kind_eqb (reflect.KindOf elemType) reflect.Interface = false ->
  Exists (fun x => exists e, failsWith ext elemType x e) (strings.Split defaultStr ",") ->
  exists pre x post e,
    strings.Split defaultStr "," = (pre ++ x :: post)%list
    /\ Forall (fun y => exists v, parsesTo ext elemType y v) pre
    /\ failsWith ext elemType x e
    /\ parseSliceDefaultValue ext (reflect.SliceOf elemType) defaultStr
       = Ret (None, Some (Errorf "解析切片元素 '%s' 时出错: %v"
                            [OpString (strings.TrimSpace x); OpError e])).
Proof.
  intros Hk HE.
  assert (Forall (fun x => (exists v, parsesTo ext elemType x v)
                           \/ (exists e, failsWith ext elemType x e))
            (strings.Split defaultStr ",")) as Hd.
  { eapply Forall_impl; [apply Split_pieces|].
    intros x Hx. by apply parses_or_fails. }
  destruct (first_failure _ (fun y => exists v, parsesTo ext elemType y v) _ Hd HE)
    as (pre & x & post & Hs & Hpre & [e He]).
  exists pre, x, post, e. repeat split; try done.
  rewrite parseSliceDefaultValue_unfold, Hs.
  by rewrite (loop_err ext elemType pre x post e Hpre He).
Qed.

Lemma parseSliceDefaultValue_fails_witness :
  exists pre x post e,
    strings.Split "1,x,3" "," = (pre ++ x :: post)%list
    /\ Forall (fun y => exists v, parsesTo rejecting (reflect.Basic reflect.t_int) y v) pre
    /\ failsWith rejecting (reflect.Basic reflect.t_int) x e
    /\ parseSliceDefaultValue rejecting (reflect.SliceOf (reflect.Basic reflect.t_int)) "1,x,3"
       = Ret (None, Some (Errorf "解析切片元素 '%s' 时出错: %v"
                            [OpString (strings.TrimSpace x); OpError e])).
Proof.
  apply (parseSliceDefaultValue_fails rejecting (reflect.Basic reflect.t_int) "1,x,3").
  - reflexivity.
  - apply Exists_cons_tl, Exists_cons_hd. eexists. eexists. reflexivity.
Defined.

(** C4, as stated, fails: the error does not identify the position of the
    failing element.  In ["x,1"] the element at position 0 fails, in ["1,x"]
    the one at position 1, and the two errors are the same.  And on a slice
    of an interface type no error is returned for [",x"]: the empty element
    before the failing one parses to the nil interface value, on which the
    conversion to the element type panics. *)
Lemma parseSliceDefaultValue_position_lost :
  failingPosition rejecting (reflect.Basic reflect.t_int) "x,1" = Some 0%nat
  /\ failingPosition rejecting (reflect.Basic reflect.t_int) "1,x" = Some 1%nat
  /\ parseSliceDefaultValue rejecting (reflect.SliceOf (reflect.Basic reflect.t_int)) "x,1"
     = parseSliceDefaultValue rejecting (reflect.SliceOf (reflect.Basic reflect.t_int)) "1,x"
  /\ parseSliceDefaultValue rejecting (reflect.SliceOf (reflect.Basic reflect.t_int)) "1,x"
     = Ret (None, Some (Errorf "解析切片元素 '%s' 时出错: %v"
                          [OpString "x"; OpError (NumError "ParseInt" "x" ErrSyntax)]))
  /\ failingPosition rejecting (reflect.InterfaceOf []) ",x" = Some 1%nat
  /\ panics (parseSliceDefaultValue rejecting
               (reflect.SliceOf (reflect.InterfaceOf [])) ",x") = true.
Proof. repeat split; reflexivity. Qed.

(** ** bindFieldTag *)

Section EnvKeyFacts.

Variable env : gmap string string.

Lemma ReplaceAll_dash s : strings.ReplaceAll s "-" "_" = mapRunes dashToUnderscore s.
Proof.
  unfold strings.ReplaceAll.
  induction s as [|c s IH]; [done|].
  change (strings.replaceFrom "-" "_" 0%nat (String c s))
    with (if Ascii.eqb "-" c && true
          then "_" ++ strings.replaceFrom "-" "_" 0%nat s
          else String c (strings.replaceFrom "-" "_" 0%nat s)).
  rewrite IH, andb_true_r, Ascii.eqb_sym.
  change (mapRunes dashToUnderscore (String c s))
    with (String (dashToUnderscore c) (mapRunes dashToUnderscore s)).
  unfold dashToUnderscore at 3. by destruct (Ascii.eqb c "-").
Qed.

Lemma ToUpper_mapRunes f s :
  strings.ToUpper (mapRunes f s) = mapRunes (fun c => unicode.ToUpper (f c)) s.
Proof. induction s as [|c s IH]; simpl; [done | by rewrite IH]. Qed.

Lemma envVarOf_spec flagName : envVarOf env flagName = envKey_spec env flagName.
Proof.
  unfold envVarOf, envKey_spec, envPrefix_spec, os.Getenv.
  rewrite ReplaceAll_dash, ToUpper_mapRunes.
  by destruct (env !! "PREFIX_ACF") as [p|].
Qed.

End EnvKeyFacts.

Section BinderFacts.

Variable ext : Collaborators.
Variable env : gmap string string.

Import reflect.

(** [bindFieldTag] on a struct is the loop over its fields, which recurses
    through [bindFieldTag] on the type of a field. *)
Lemma bindFieldTag_StructOf fields val prefix groupNames w :
  bindFieldTag ext env (StructOf fields) val prefix groupNames w
  = bindFieldTag_loop ext env (fun f => bindFieldTag ext env (Type_ f))
      val prefix groupNames 0%nat fields w.
Proof.
  change (bindFieldTag ext env (StructOf fields) val prefix groupNames w)
    with ((fix loop (i : nat) (fields : list StructField) (w : World) {struct fields}
             : outcome World :=
             match fields with
             | [] => Ret w
             | fieldTyp :: fields' =>
                 w ← bindFieldTag_field ext env
                       (match fieldTyp with
                        | mkStructField _ t _ => bindFieldTag ext env t
                        end) val prefix groupNames i fieldTyp w;
                 loop (S i) fields' w
             end) 0%nat fields w).
  generalize 0%nat. revert w.
  induction fields as [|[n t tg] fields IH]; intros w i; [done|].
  simpl.
  destruct (bindFieldTag_field ext env (bindFieldTag ext env t) val prefix groupNames i
              (mkStructField n t tg) w) as [w1|msg]; simpl; [apply IH | done].
Qed.

Lemma bindFieldTag_loop_app recurse val prefix groupNames fields1 fields2 :
  forall i w,
    bindFieldTag_loop ext env recurse val prefix groupNames i (fields1 ++ fields2) w
    = (w1 ← bindFieldTag_loop ext env recurse val prefix groupNames i fields1 w;
       bindFieldTag_loop ext env recurse val prefix groupNames
         (i + length fields1)%nat fields2 w1).
Proof.
  induction fields1 as [|f fields1 IH]; intros i w; simpl.
  - by rewrite Nat.add_0_r.
  - destruct (bindFieldTag_field ext env (recurse f) val prefix groupNames i f w)
      as [w1|msg]; simpl; [|done].
    rewrite IH.
    by replace (S i + length fields1)%nat with (i + S (length fields1))%nat by lia.
Qed.

Lemma bindFieldTag_field_bind_false recurse val prefix groupNames i fieldTyp w :
  Get (Tag fieldTyp) "bind" = "false" ->
  bindFieldTag_field ext env recurse val prefix groupNames i fieldTyp w = Ret w.
Proof.
  intros Hb. unfold bindFieldTag_field.
  destruct (CanSet fieldTyp); [|done]. simpl. by rewrite Hb.
Qed.

Lemma bindFieldTag_field_unbound recurse val prefix groupNames i fieldTyp w :
  isBound groupNames fieldTyp = false ->
  bindFieldTag_field ext env recurse val prefix groupNames i fieldTyp w = Ret w.
Proof.
  unfold isBound, bindFieldTag_field. intros H.
  destruct (CanSet fieldTyp); [|done].
  destruct (String.eqb (Bind (tagOf fieldTyp)) "false"); [done|].
  simpl in *. apply negb_false_iff in H. by rewrite H.
Qed.

(** Behind the guards: parse the default, register, fall back on the
    environment, mark as required. *)
Lemma bindFieldTag_field_bound recurse val prefix groupNames i fieldTyp w :
  isBound groupNames fieldTyp = true ->
  bindFieldTag_field ext env recurse val prefix groupNames i fieldTyp w
  = ('(defaultValue, err) ← parseDefaultValue ext (Type_ fieldTyp) (Default (tagOf fieldTyp));
     match err with
     | Some err => Ret (print (defaultError (flagNameOf prefix fieldTyp) err) w)
     | None =>
         w ← bindFieldTag_switch recurse fieldTyp (val ++ [i])%list
               (flagNameOf prefix fieldTyp) (Note (tagOf fieldTyp)) defaultValue
               groupNames w;
         Ret (bindFieldTag_required (tagOf fieldTyp) (flagNameOf prefix fieldTyp)
                (bindFieldTag_env ext env (flagNameOf prefix fieldTyp) w))
     end).
Proof.
  unfold isBound, bindFieldTag_field. rewrite !andb_true_iff, !negb_true_iff.
  intros [[-> ->] ->]. reflexivity.
Qed.

Lemma parseDefaultValue_Struct fieldType defaultStr :
  KindOf fieldType = Struct -> String.eqb defaultStr "" = false ->
  parseDefaultValue ext fieldType defaultStr = Ret (None, Some (unsupportedKind Struct)).
Proof.
  intros Hk Hs.
  destruct fieldType as [b|n b| | | | | | | |]; try discriminate Hk.
  - destruct b; discriminate Hk.
  - destruct b; discriminate Hk.
  - simpl. by rewrite Hs.
Qed.

(** *** Fields of an integer type or of type string *)

Lemma isIntegerOrString_inv T :
  isIntegerOrString T = true -> exists b, T = Basic b /\ In b integerOrString.
Proof.
  destruct T as [b|n b|e|k e|e|fs|len e|e|sg|ms]; try discriminate.
  intros H. exists b. split; [done|]. destruct b; try discriminate H; simpl; tauto.
Qed.






Lemma bindFieldTag_required_memory tag name w :
  memory (bindFieldTag_required tag name w) = memory w.
Proof.
  unfold bindFieldTag_required, MarkFlagRequired.
  destruct (String.eqb (Required_ tag) "true"); [|done].
  by destruct (formal w !! name).
Qed.






(** The turn of the binder on a bound field, with the key of the
    environment variable and the condition of the fallback written out. *)
Lemma bindFieldTag_field_env recurse val prefix groupNames i fieldTyp w x err :
  isBound groupNames fieldTyp = true ->
  parseDefaultValue ext (Type_ fieldTyp) (Default (tagOf fieldTyp)) = Ret (x, err) ->
  bindFieldTag_field ext env recurse val prefix groupNames i fieldTyp w
  = match err with
    | Some e => Ret (print (defaultError (flagNameOf prefix fieldTyp) e) w)
    | None =>
        w1 ← bindFieldTag_switch recurse fieldTyp (val ++ [i])%list
               (flagNameOf prefix fieldTyp) (Note (tagOf fieldTyp)) x groupNames w;
        Ret (bindFieldTag_required (tagOf fieldTyp) (flagNameOf prefix fieldTyp)
               (match env !! envKey_spec env (flagNameOf prefix fieldTyp) with
                | Some envValue =>
                    if negb (String.eqb envValue "")
                       && negb (FlagSet_Changed (flagNameOf prefix fieldTyp) w1)
                    then reportSet (envKey_spec env (flagNameOf prefix fieldTyp))
                           (flagNameOf prefix fieldTyp)
                           (FlagSet_Set ext (flagNameOf prefix fieldTyp) envValue w1)
                    else w1
                | None => w1
                end))
    end.
Proof.
  intros Hb Hp. rewrite bindFieldTag_field_bound by done.
  rewrite Hp, bind_Ret. destruct err as [e|]; [done|].
  destruct (bindFieldTag_switch _ _ _ _ _ _ _ _) as [w1|msg]; [|done].
  rewrite !bind_Ret. do 2 f_equal.
  unfold bindFieldTag_env, os.Getenv. rewrite envVarOf_spec.
  destruct (env !! envKey_spec env (flagNameOf prefix fieldTyp)) as [v|]; simpl; [|done].
  destruct (negb (String.eqb v "") && negb (FlagSet_Changed _ w1)); [|done].
  unfold reportSet. by destruct (FlagSet_Set ext _ v w1) as [w2 [e|]].
Qed.

(** The binder runs the turn on every field of the struct, in order. *)
Lemma bindFieldTag_turns fields1 fieldTyp fields2 val prefix groupNames w :
  bindFieldTag ext env (StructOf (fields1 ++ fieldTyp :: fields2)) val prefix groupNames w
  = (w1 ← bindFieldTag_loop ext env (fun f => bindFieldTag ext env (Type_ f))
            val prefix groupNames 0%nat fields1 w;
     w2 ← bindFieldTag_field ext env (bindFieldTag ext env (Type_ fieldTyp))
            val prefix groupNames (length fields1) fieldTyp w1;
     bindFieldTag_loop ext env (fun f => bindFieldTag ext env (Type_ f))
       val prefix groupNames (S (length fields1)) fields2 w2).
Proof.
  rewrite bindFieldTag_StructOf, bindFieldTag_loop_app.
  destruct (bindFieldTag_loop _ _ _ _ _ _ _ fields1 w) as [w1|msg]; simpl; [|done].
  destruct (bindFieldTag_field _ _ _ _ _ _ _ _ _) as [w2|msg]; simpl; [|done].
  by replace (length fields1 + 1)%nat with (S (length fields1)) by lia.
Qed.

End BinderFacts.

(** C1. The binder does abort on slice fields of the narrow integer types.
    For an element kind from [Int] to [Int64] the switch builds an [[]int]
    and stores it in the field with [Value.Set], which panics unless the field
    is an [[]int] itself; the cases for [[]int32] and [[]int64] that follow are
    never reached.  The same happens with [[]uint8] and [[]time.Duration].
    Here the struct has the single field [Levels], without tags. *)
Theorem slice_of_narrow_ints_panics (ext : Collaborators) (env : gmap string string)
    (val : list nat) (prefix : string) (groupNames : list string) (w : World) :
  Forall
    (fun elemType =>
       bindFieldTag ext env
         (reflect.StructOf [reflect.mkStructField "Levels" (reflect.SliceOf elemType) []])
         val prefix groupNames w
       = Panic "reflect.Set: value is not assignable to the field's type")
    [reflect.Basic reflect.t_int8; reflect.Basic reflect.t_int16;
     reflect.Basic reflect.t_int32; reflect.Basic reflect.t_int64;
     reflect.Basic reflect.t_uint8; time.Duration].
Proof. repeat constructor. Qed.

(** C7. A field whose [bind] tag is ["false"] leaves the world as it was:
    no flag is registered, its variable is not written, nothing is printed and
    [bindFieldTag] is not entered for its type, whatever its type and its
    default text are; the loop goes on with the next field. *)
Theorem bind_false_skips (ext : Collaborators) (env : gmap string string)
    (fields1 fields2 : list reflect.StructField) (fieldTyp : reflect.StructField)
    (val : list nat) (prefix : string) (groupNames : list string) (w : World) :
  reflect.Get (reflect.Tag fieldTyp) "bind" = "false" ->
  (forall recurse i w',
      bindFieldTag_field ext env recurse val prefix groupNames i fieldTyp w' = Ret w')
  /\ bindFieldTag ext env (reflect.StructOf (fields1 ++ fieldTyp :: fields2))
       val prefix groupNames w
     = (w1 ← bindFieldTag_loop ext env (fun f => bindFieldTag ext env (reflect.Type_ f))
               val prefix groupNames 0%nat fields1 w;
        bindFieldTag_loop ext env (fun f => bindFieldTag ext env (reflect.Type_ f))
          val prefix groupNames (S (length fields1)) fields2 w1).
Proof.
  intros Hb. split.
  - intros. by apply bindFieldTag_field_bind_false.
  - rewrite bindFieldTag_StructOf, bindFieldTag_loop_app.
    destruct (bindFieldTag_loop _ _ _ _ _ _ _ fields1 w) as [w1|msg]; simpl; [|done].
    rewrite bindFieldTag_field_bind_false by done. simpl.
    by replace (length fields1 + 1)%nat with (S (length fields1)) by lia.
Qed.

Lemma bind_false_skips_witness :
  (forall recurse i w',
      bindFieldTag_field rejecting ∅ recurse [] "" [] i secret w' = Ret w')
  /\ bindFieldTag rejecting ∅ (reflect.StructOf ([maxRetries] ++ secret :: [])) [] "" []
       emptyWorld
     = (w1 ← bindFieldTag_loop rejecting ∅
               (fun f => bindFieldTag rejecting ∅ (reflect.Type_ f))
               [] "" [] 0%nat [maxRetries] emptyWorld;
        bindFieldTag_loop rejecting ∅
          (fun f => bindFieldTag rejecting ∅ (reflect.Type_ f))
          [] "" [] (S (length [maxRetries])) [] w1).
Proof.
  apply (bind_false_skips rejecting ∅ [maxRetries] [] secret [] "" [] emptyWorld).
  reflexivity.
Defined.

(** C10. A field of struct kind with a non-empty [default] tag is not
    entered: parsing its default fails with the unsupported-kind error, and
    the turn of the loop ends with that diagnostic printed (when the field got
    past the guards) and nothing else changed, whatever [bindFieldTag] would
    do on the struct's own fields. *)
Theorem struct_with_default_is_skipped (ext : Collaborators) (env : gmap string string)
    (recurse : list nat -> string -> list string -> World -> outcome World)
    (val : list nat) (prefix : string) (groupNames : list string) (i : nat)
    (fieldTyp : reflect.StructField) (w : World) :
  reflect.KindOf (reflect.Type_ fieldTyp) = reflect.Struct ->
  String.eqb (Default (tagOf fieldTyp)) "" = false ->
  parseDefaultValue ext (reflect.Type_ fieldTyp) (Default (tagOf fieldTyp))
  = Ret (None, Some (unsupportedKind reflect.Struct))
  /\ bindFieldTag_field ext env recurse val prefix groupNames i fieldTyp w
     = Ret (if isBound groupNames fieldTyp
            then print (defaultError (flagNameOf prefix fieldTyp)
                          (unsupportedKind reflect.Struct)) w
            else w).
Proof.
  intros Hk Hd. split; [by apply parseDefaultValue_Struct|].
  destruct (isBound groupNames fieldTyp) eqn:Hb.
  - rewrite bindFieldTag_field_bound by done.
    by rewrite parseDefaultValue_Struct.
  - by apply bindFieldTag_field_unbound.
Qed.

Lemma struct_with_default_is_skipped_witness :
  parseDefaultValue rejecting (reflect.Type_ server) (Default (tagOf server))
  = Ret (None, Some (unsupportedKind reflect.Struct))
  /\ bindFieldTag_field rejecting ∅ (fun _ _ _ _ => Panic "entered") [] "" [] 0%nat
       server emptyWorld
     = Ret (if isBound [] server
            then print (defaultError (flagNameOf "" server)
                          (unsupportedKind reflect.Struct)) emptyWorld
            else emptyWorld).
Proof.
  apply (struct_with_default_is_skipped rejecting ∅ (fun _ _ _ _ => Panic "entered")
           [] "" [] 0%nat server emptyWorld); reflexivity.
Defined.

(** C8, as the code has it. For a bound field whose default text parses,
    the environment variable consulted is the prefix ([PREFIX_ACF], or
    ["ACF_"] when that is unset or empty) followed by the flag name of the
    field with every ['-'] replaced by ['_'] and every letter upper-cased; its
    value is handed to the setter of the flag set, after the field has been
    registered, exactly when it is not empty and the flag set reports the flag
    as not changed, and a failure of the setter is printed.  A bound field
    whose default text does not parse is left with the diagnostic of the
    parser: the environment is not consulted for it.  The binder does this on
    every field of the struct, in order. *)
Theorem env_fallback (ext : Collaborators) (env : gmap string string)
    (fields1 fields2 : list reflect.StructField) (fieldTyp : reflect.StructField)
    (val : list nat) (prefix : string) (groupNames : list string)
    (w0 w : World) (x : any) (err : option error) :
  isBound groupNames fieldTyp = true ->
  parseDefaultValue ext (reflect.Type_ fieldTyp) (Default (tagOf fieldTyp)) = Ret (x, err) ->
  envVarOf env (flagNameOf prefix fieldTyp) = envKey_spec env (flagNameOf prefix fieldTyp)
  /\ bindFieldTag ext env (reflect.StructOf (fields1 ++ fieldTyp :: fields2))
       val prefix groupNames w0
     = (w1 ← bindFieldTag_loop ext env (fun f => bindFieldTag ext env (reflect.Type_ f))
               val prefix groupNames 0%nat fields1 w0;
        w2 ← bindFieldTag_field ext env (bindFieldTag ext env (reflect.Type_ fieldTyp))
               val prefix groupNames (length fields1) fieldTyp w1;
        bindFieldTag_loop ext env (fun f => bindFieldTag ext env (reflect.Type_ f))
          val prefix groupNames (S (length fields1)) fields2 w2)
  /\ bindFieldTag_field ext env (bindFieldTag ext env (reflect.Type_ fieldTyp))
       val prefix groupNames (length fields1) fieldTyp w
     = match err with
       | Some e => Ret (print (defaultError (flagNameOf prefix fieldTyp) e) w)
       | None =>
           w1 ← bindFieldTag_switch (bindFieldTag ext env (reflect.Type_ fieldTyp))
                  fieldTyp (val ++ [length fields1])%list
                  (flagNameOf prefix fieldTyp) (Note (tagOf fieldTyp)) x groupNames w;
           Ret (bindFieldTag_required (tagOf fieldTyp) (flagNameOf prefix fieldTyp)
                  (match env !! envKey_spec env (flagNameOf prefix fieldTyp) with
                   | Some envValue =>
                       if negb (String.eqb envValue "")
                          && negb (FlagSet_Changed (flagNameOf prefix fieldTyp) w1)
                       then reportSet (envKey_spec env (flagNameOf prefix fieldTyp))
                              (flagNameOf prefix fieldTyp)
                              (FlagSet_Set ext (flagNameOf prefix fieldTyp) envValue w1)
                       else w1
                   | None => w1
                   end))
       end.
Proof.
  intros Hb Hp. split; [apply envVarOf_spec|]. split.
  - apply bindFieldTag_turns.
  - by apply bindFieldTag_field_env.
Qed.

Lemma env_fallback_witness :
  envVarOf {["ACF_USER" := "root"]} (flagNameOf "" user)
  = envKey_spec {["ACF_USER" := "root"]} (flagNameOf "" user)
  /\ bindFieldTag rejecting {["ACF_USER" := "root"]}
       (reflect.StructOf ([maxRetries] ++ user :: [])) [] "" [] emptyWorld
     = (w1 ← bindFieldTag_loop rejecting {["ACF_USER" := "root"]}
               (fun f => bindFieldTag rejecting {["ACF_USER" := "root"]} (reflect.Type_ f))
               [] "" [] 0%nat [maxRetries] emptyWorld;
        w2 ← bindFieldTag_field rejecting {["ACF_USER" := "root"]}
               (bindFieldTag rejecting {["ACF_USER" := "root"]} (reflect.Type_ user))
               [] "" [] (length [maxRetries]) user w1;
        bindFieldTag_loop rejecting {["ACF_USER" := "root"]}
          (fun f => bindFieldTag rejecting {["ACF_USER" := "root"]} (reflect.Type_ f))
          [] "" [] (S (length [maxRetries])) [] w2)
  /\ bindFieldTag_field rejecting {["ACF_USER" := "root"]}
       (bindFieldTag rejecting {["ACF_USER" := "root"]} (reflect.Type_ user))
       [] "" [] (length [maxRetries]) user emptyWorld
     = (w1 ← bindFieldTag_switch
                (bindFieldTag rejecting {["ACF_USER" := "root"]} (reflect.Type_ user))
                user ([] ++ [length [maxRetries]])%list
                (flagNameOf "" user) (Note (tagOf user))
                (Some (reflect.Basic reflect.t_string, reflect.VString "guest")) []
                emptyWorld;
        Ret (bindFieldTag_required (tagOf user) (flagNameOf "" user)
               (match ({["ACF_USER" := "root"]} : gmap string string)
                        !! envKey_spec {["ACF_USER" := "root"]} (flagNameOf "" user) with
                | Some envValue =>
                    if negb (String.eqb envValue "")
                       && negb (FlagSet_Changed (flagNameOf "" user) w1)
                    then reportSet (envKey_spec {["ACF_USER" := "root"]}
                                      (flagNameOf "" user))
                           (flagNameOf "" user)
                           (FlagSet_Set rejecting (flagNameOf "" user) envValue w1)
                    else w1
                | None => w1
                end))).
Proof.
  apply (env_fallback rejecting {["ACF_USER" := "root"]} [maxRetries] [] user [] "" []
           emptyWorld emptyWorld
           (Some (reflect.Basic reflect.t_string, reflect.VString "guest")) None);
    reflexivity.
Defined.

(** C8, as stated, fails: a variable that is set, but to the empty string,
    is not applied.  With [ACF_USER] set to [""] and the flag [user] not
    changed, the field keeps its default ["guest"]; the setter would have
    stored [""] and marked the flag as changed. *)
Lemma env_set_to_empty_is_ignored :
  exists w,
    bindFieldTag rejecting {["ACF_USER" := ""]} userConfig [] "" [] emptyWorld = Ret w
    /\ ({["ACF_USER" := ""]} : gmap string string) !! envVarOf {["ACF_USER" := ""]} "user"
       = Some ""
    /\ FlagSet_Changed "user" w = false
    /\ memory w !! [0%nat] = Some (reflect.VString "guest")
    /\ memory (FlagSet_Set rejecting "user" "" w).1 !! [0%nat] = Some (reflect.VString "")
    /\ FlagSet_Changed "user" (FlagSet_Set rejecting "user" "" w).1 = true.
Proof.
  eexists. split; [vm_compute; reflexivity|]. repeat split; vm_compute; reflexivity.
Qed.




(** The three tiers on [MaxRetries int `default:"10"`], run through. *)
Example precedence_run :
  (exists w, bindFieldTag rejecting ∅ (reflect.StructOf [maxRetries]) [] "" [] emptyWorld
             = Ret w
             /\ memory w !! [0%nat] = Some (reflect.VInt 10))
  /\ (exists w, bindFieldTag rejecting {["ACF_MAX_RETRIES" := "20"]}
                  (reflect.StructOf [maxRetries]) [] "" [] emptyWorld = Ret w
                /\ memory w !! [0%nat] = Some (reflect.VInt 20)
                /\ memory (FlagSet_Set rejecting "max-retries" "30" w).1 !! [0%nat]
                   = Some (reflect.VInt 30)).
Proof.
  split; eexists; (split; [vm_compute; reflexivity|]); repeat split; vm_compute; reflexivity.
Qed.

(** A nested struct is entered with its flag name as prefix, and a grouped
    field is bound only when its group is active. *)
Example nested_and_grouped_run :
  exists w,
    bindFieldTag rejecting {["ACF_SERVER_PORT" := "9000"]}
      (reflect.StructOf
         [reflect.mkStructField "Server"
            (reflect.StructOf
               [reflect.mkStructField "Port" (reflect.Basic reflect.t_int)
                  [("default", "8080")];
                reflect.mkStructField "Token" (reflect.Basic reflect.t_string)
                  [("group", "admin")]])
            []])
      [] "" ["serve"] emptyWorld = Ret w
    /\ memory w !! [0%nat; 0%nat] = Some (reflect.VInt 9000)
    /\ FlagSet_Changed "server-port" w = true
    /\ formal w !! "server-token" = None
    /\ output w = [].
Proof.
  eexists. split; [vm_compute; reflexivity|]. repeat split; vm_compute; reflexivity.
Qed.

(** * Further properties *)

(** ** Shape of the names [toKebabCase] returns *)

Section KebabShape.

Implicit Types (s rest : string) (result : list ascii) (f g : ascii -> bool).

Lemma TrimLeftFunc_first f s c :
  firstRune (strings.TrimLeftFunc f s) = Some c -> f c = false.
Proof.
  induction s as [|d s IH]; simpl; [done|].
  destruct (f d) eqn:Hd; [done|]. simpl. by intros [= <-].
Qed.

Lemma TrimRightFunc_last f s c :
  lastRune (strings.TrimRightFunc f s) = Some c -> f c = false.
Proof.
  induction s as [|d s IH]; [done|].
  rewrite TrimRightFunc_cons.
  destruct (strings.TrimRightFunc f s) as [|e t] eqn:Ht.
  - destruct (f d) eqn:Hd; simpl; [done | by intros [= <-]].
  - change (lastRune (String d (String e t))) with (lastRune (String e t)). exact IH.
Qed.

Lemma TrimRightFunc_first f s c :
  firstRune (strings.TrimRightFunc f s) = Some c -> firstRune s = Some c.
Proof.
  destruct s as [|d s]; [done|]. rewrite TrimRightFunc_cons.
  destruct (strings.TrimRightFunc f s); [destruct (f d)|]; simpl; congruence.
Qed.

Lemma allRunes_of_list f l :
  allRunes f (string_of_list_ascii l) = forallb f l.
Proof. induction l as [|c l IH]; simpl; [done | by rewrite IH]. Qed.

Lemma forallb_append f result c :
  forallb f (append result c) = forallb f result && f c.
Proof. unfold append. rewrite forallb_app. simpl. by rewrite andb_true_r. Qed.

Lemma ToLower_isNameRune r : unicode.IsUpper r = true -> isNameRune (unicode.ToLower r) = true.
Proof. destruct r as [[] [] [] [] [] [] [] []]; vm_compute; congruence. Qed.

Lemma toKebabCase_loop_runes s rest : forall result prevDash,
  forallb isNameRune result = true ->
  forallb isNameRune (toKebabCase_loop s rest result prevDash) = true.
Proof.
  induction rest as [|r rest IH]; intros result prevDash H; simpl; [done|].
  destruct (isBoundary r) eqn:Hb.
  - destruct prevDash; simpl; apply IH; [done|].
    rewrite forallb_append, H. reflexivity.
  - destruct (unicode.IsUpper r) eqn:Hu.
    + apply IH. rewrite forallb_append, ToLower_isNameRune, andb_true_r by done.
      repeat match goal with
             | |- context [if ?b then _ else _] => destruct b
             end; rewrite ?forallb_append, ?H; done.
    + apply IH. rewrite forallb_append, H. unfold isNameRune. by rewrite Hb, Hu.
Qed.

Lemma ToLower_isASCII r : isASCII r = true -> isASCII (unicode.ToLower r) = true.
Proof. destruct r as [[] [] [] [] [] [] [] []]; vm_compute; congruence. Qed.

(** On an ASCII text the loop writes ASCII runes only. *)
Lemma toKebabCase_loop_ascii s rest : forall result prevDash,
  allRunes isASCII rest = true ->
  forallb isASCII result = true ->
  forallb isASCII (toKebabCase_loop s rest result prevDash) = true.
Proof.
  induction rest as [|r rest IH]; intros result prevDash Hrest H; simpl; [done|].
  simpl in Hrest. apply andb_true_iff in Hrest as [Hr Hrest].
  destruct (isBoundary r) eqn:Hb.
  - destruct prevDash; simpl; apply IH; try done.
    rewrite forallb_append, H. reflexivity.
  - destruct (unicode.IsUpper r) eqn:Hu.
    + apply IH; [done|]. rewrite forallb_append, ToLower_isASCII, andb_true_r by done.
      repeat match goal with
             | |- context [if ?b then _ else _] => destruct b
             end; rewrite ?forallb_append, ?H; done.
    + apply IH; [done|]. by rewrite forallb_append, H, Hr.
Qed.

End KebabShape.

(** X1. Whatever the input, the name [toKebabCase] returns neither begins
    nor ends with a hyphen. *)
Theorem toKebabCase_trimmed (s : string) :
  isDash (firstRune (toKebabCase s)) = false
  /\ isDash (lastRune (toKebabCase s)) = false.
Proof.
  unfold toKebabCase, strings.Trim, strings.TrimFunc.
  set (t := string_of_list_ascii _). split.
  - destruct (firstRune _) as [c|] eqn:Hc; [|done].
    apply TrimRightFunc_first, TrimLeftFunc_first in Hc.
    simpl in Hc. apply orb_false_iff in Hc as [Hc _].
    unfold isDash. by rewrite Ascii.eqb_sym.
  - destruct (lastRune _) as [c|] eqn:Hc; [|done].
    apply TrimRightFunc_last in Hc.
    simpl in Hc. apply orb_false_iff in Hc as [Hc _].
    unfold isDash. by rewrite Ascii.eqb_sym.
Qed.

(** X2. On an ASCII input, the name [toKebabCase] returns is ASCII as well
    and none of its runes is a dot, a space, an underscore or an upper-case
    letter. *)
Theorem toKebabCase_runes (s : string) :
  allRunes isASCII s = true ->
  allRunes isASCII (toKebabCase s) = true
  /\ allRunes isNameRune (toKebabCase s) = true.
Proof.
  intros Ha. unfold toKebabCase, strings.Trim, strings.TrimFunc. split.
  - apply allRunes_TrimRightFunc, allRunes_TrimLeftFunc.
    rewrite allRunes_of_list. by apply toKebabCase_loop_ascii.
  - apply allRunes_TrimRightFunc, allRunes_TrimLeftFunc.
    rewrite allRunes_of_list. by apply toKebabCase_loop_runes.
Qed.

Lemma toKebabCase_runes_witness :
  allRunes isASCII (toKebabCase "Max_Retries.perHost") = true
  /\ allRunes isNameRune (toKebabCase "Max_Retries.perHost") = true.
Proof. apply (toKebabCase_runes "Max_Retries.perHost"). reflexivity. Defined.

Section KebabDashes.

Implicit Types (s rest : string) (result l : list ascii) (f g : ascii -> bool).

Lemma lastIsDash_append result c : lastIsDash (append result c) = Ascii.eqb c "-".
Proof. unfold lastIsDash, append. by rewrite last_snoc. Qed.

Lemma noDoubleDashL_append result c :
  noDoubleDashL (append result c)
  = noDoubleDashL result && negb (lastIsDash result && Ascii.eqb c "-").
Proof.
  unfold append. induction result as [|d result IH]; [done|].
  destruct result as [|e result].
  - simpl. unfold lastIsDash. simpl. by rewrite andb_true_r.
  - change (noDoubleDashL ((d :: e :: result) ++ [c]))
      with (negb (Ascii.eqb d "-" && Ascii.eqb e "-")
            && noDoubleDashL ((e :: result) ++ [c])).
    rewrite IH.
    change (noDoubleDashL (d :: e :: result))
      with (negb (Ascii.eqb d "-" && Ascii.eqb e "-") && noDoubleDashL (e :: result)).
    change (lastIsDash (d :: e :: result)) with (lastIsDash (e :: result)).
    by rewrite andb_assoc.
Qed.

Lemma ToLower_notDash r : unicode.IsUpper r = true -> Ascii.eqb (unicode.ToLower r) "-" = false.
Proof. destruct r as [[] [] [] [] [] [] [] []]; vm_compute; congruence. Qed.

(** The loop keeps hyphens apart: [prevDash] is set whenever the last rune
    written is a hyphen. *)
Lemma toKebabCase_loop_dashes s rest : forall result prevDash,
  allRunes notDash rest = true ->
  noDoubleDashL result = true ->
  (lastIsDash result = true -> prevDash = true) ->
  noDoubleDashL (toKebabCase_loop s rest result prevDash) = true.
Proof.
  induction rest as [|r rest IH]; intros result prevDash Hrest Hdd Hlast; [done|].
  simpl in Hrest. apply andb_true_iff in Hrest as [Hr Hrest].
  unfold notDash in Hr. apply negb_true_iff in Hr.
  simpl. destruct (isBoundary r) eqn:Hb.
  - destruct prevDash; simpl.
    + by apply IH.
    + apply IH; [done | | done].
      rewrite noDoubleDashL_append, Hdd.
      destruct (lastIsDash result); [by discriminate Hlast|done].
  - destruct (unicode.IsUpper r) eqn:Hu.
    + apply IH; [done | |].
      * rewrite noDoubleDashL_append, (ToLower_notDash r Hu), andb_false_r, andb_true_r.
        destruct (lastIsDash result) eqn:Hl; cbn [negb];
          rewrite ?andb_false_r, ?andb_true_r; [done|].
        repeat match goal with
               | |- context [if ?b then _ else _] => destruct b
               end; rewrite ?noDoubleDashL_append, ?Hl, ?Hdd; done.
      * rewrite lastIsDash_append, (ToLower_notDash r Hu). done.
    + apply IH; [done | |].
      * by rewrite noDoubleDashL_append, Hdd, Hr, andb_false_r.
      * rewrite lastIsDash_append, Hr. done.
Qed.

Lemma noDoubleDash_of_list l :
  noDoubleDash (string_of_list_ascii l) = noDoubleDashL l.
Proof.
  induction l as [|c l IH]; [done|]. destruct l as [|d l]; [done|].
  change (noDoubleDash (string_of_list_ascii (c :: d :: l)))
    with (negb (Ascii.eqb c "-" && Ascii.eqb d "-")
          && noDoubleDash (string_of_list_ascii (d :: l))).
  by rewrite IH.
Qed.

Lemma noDoubleDash_tail c s : noDoubleDash (String c s) = true -> noDoubleDash s = true.
Proof. destruct s as [|d s]; [done|]. simpl. by intros [_ H]%andb_true_iff. Qed.

Lemma noDoubleDash_TrimLeftFunc g s :
  noDoubleDash s = true -> noDoubleDash (strings.TrimLeftFunc g s) = true.
Proof.
  induction s as [|d s IH]; [done|]. intros H. simpl.
  destruct (g d); [|done]. apply IH. by apply noDoubleDash_tail in H.
Qed.

Lemma noDoubleDash_TrimRightFunc g s :
  noDoubleDash s = true -> noDoubleDash (strings.TrimRightFunc g s) = true.
Proof.
  induction s as [|d s IH]; [done|]. intros H. rewrite TrimRightFunc_cons.
  pose proof (IH (noDoubleDash_tail _ _ H)) as IH'.
  destruct (strings.TrimRightFunc g s) as [|e t] eqn:Ht.
  - by destruct (g d).
  - assert (firstRune s = Some e) as He
        by (apply (TrimRightFunc_first g); by rewrite Ht).
    destruct s as [|e' s]; [done|]. simpl in He. injection He as ->.
    change (noDoubleDash (String d (String e t)))
      with (negb (Ascii.eqb d "-" && Ascii.eqb e "-") && noDoubleDash (String e t)).
    rewrite IH', andb_true_r.
    change (noDoubleDash (String d (String e s)))
      with (negb (Ascii.eqb d "-" && Ascii.eqb e "-") && noDoubleDash (String e s)) in H.
    by apply andb_true_iff in H as [H _].
Qed.

End KebabDashes.

(** X3. On an input without a hyphen, the name [toKebabCase] returns has no
    two hyphens in a row, however many dots, spaces and underscores follow
    each other in the input. *)
Theorem toKebabCase_no_double_dash (s : string) :
  allRunes notDash s = true -> noDoubleDash (toKebabCase s) = true.
Proof.
  intros H. unfold toKebabCase, strings.Trim, strings.TrimFunc.
  apply noDoubleDash_TrimRightFunc, noDoubleDash_TrimLeftFunc.
  rewrite noDoubleDash_of_list. by apply toKebabCase_loop_dashes.
Qed.

Lemma toKebabCase_no_double_dash_witness :
  noDoubleDash (toKebabCase "Max__Retries. _Count") = true.
Proof. apply (toKebabCase_no_double_dash "Max__Retries. _Count"). reflexivity. Defined.

Section KebabAgreement.

Implicit Types (s pre rest : string) (result : list ascii).

Lemma isAlnum_not_boundary r : isAlnum r = true -> isBoundary r = false.
Proof. destruct r as [[] [] [] [] [] [] [] []]; vm_compute; congruence. Qed.

(** Without upper-case runes left, the look-ahead is never consulted. *)
Lemma toKebabCase_loop_no_upper s rest : forall result prevDash,
  allRunes notUpper rest = true ->
  toKebabCase_loop s rest result prevDash = toKebabCase_spec_loop rest result prevDash.
Proof.
  induction rest as [|r rest IH]; intros result prevDash H; [done|].
  simpl in H. apply andb_true_iff in H as [Hr H].
  unfold notUpper in Hr. apply negb_true_iff in Hr.
  simpl. rewrite Hr. destruct (isBoundary r); [destruct prevDash|]; simpl; by apply IH.
Qed.

Lemma append_cons c s rest : String c s ++ rest = String c (s ++ rest).
Proof. reflexivity. Qed.

Lemma length_append_string pre rest :
  String.length (pre ++ rest) = (String.length pre + String.length rest)%nat.
Proof.
  induction pre as [|c pre IH]; [done|]. rewrite append_cons. simpl. by rewrite IH.
Qed.

Lemma get_append_string pre rest n :
  String.get (String.length pre + n) (pre ++ rest) = String.get n rest.
Proof. induction pre as [|c pre IH]; [done|]. rewrite append_cons. exact IH. Qed.

(** While the result is as long as what was read, the look-ahead of the code
    is the rune that follows in the identifier. *)
Lemma lookahead_aligned pre r rest result :
  length result = String.length pre ->
  ((Z.of_nat (length result) <? strings.len (pre ++ String r rest) - 1)
   && unicode.IsLower (strings.byteAt (pre ++ String r rest) (Z.of_nat (length result) + 1)))
  = nextIsLower rest.
Proof.
  intros ->. unfold strings.len, strings.byteAt.
  rewrite length_append_string.
  replace (Z.to_nat (Z.of_nat (String.length pre) + 1)) with (String.length pre + 1)%nat by lia.
  rewrite get_append_string.
  destruct rest as [|n rest]; simpl.
  - replace (Z.of_nat (String.length pre) <? Z.of_nat (String.length pre + 1) - 1)
      with false; [done|]. symmetry. apply Z.ltb_ge. lia.
  - replace (Z.of_nat (String.length pre) <? Z.of_nat (String.length pre + S (S (String.length rest))) - 1)
      with true; [done|]. symmetry. apply Z.ltb_lt. lia.
Qed.

Lemma append_string_assoc pre r rest :
  (pre ++ String r EmptyString) ++ rest = pre ++ String r rest.
Proof. induction pre as [|c pre IH]; [done|]. by rewrite !append_cons, IH. Qed.

Lemma length_snoc_string pre r :
  String.length (pre ++ String r EmptyString) = S (String.length pre).
Proof. rewrite length_append_string. simpl. lia. Qed.

Lemma toKebabCase_loop_aligned rest : forall pre result prevDash,
  length result = String.length pre ->
  allRunes isAlnum rest = true ->
  match result, rest with
  | [], String _ rest' => oneHump rest'
  | [], EmptyString => true
  | _ :: _, _ => oneHump rest
  end = true ->
  toKebabCase_loop (pre ++ rest) rest result prevDash
  = toKebabCase_spec_loop rest result prevDash.
Proof.
  induction rest as [|r rest IH]; intros pre result prevDash Hlen Hal Hh; [done|].
  simpl in Hal. apply andb_true_iff in Hal as [Hr Hal].
  simpl. rewrite (isAlnum_not_boundary r Hr).
  change (match rest with
          | String n _ => unicode.IsLower n
          | EmptyString => false
          end) with (nextIsLower rest).
  assert (forall c, length (append result c) = String.length (pre ++ String r EmptyString))
    as Hlen' by (intros c; unfold append; rewrite length_app, length_snoc_string, Hlen;
                 simpl; lia).
  destruct (unicode.IsUpper r) eqn:Hu.
  - destruct result as [|c0 result0] eqn:Hres.
    + simpl. rewrite <- (append_string_assoc pre r rest).
      apply IH; [apply Hlen' | done |]. exact Hh.
    + rewrite <- Hres in *.
      assert ((0 <? Z.of_nat (length result)) = true) as ->
          by (apply Z.ltb_lt; rewrite Hres; simpl; lia).
      simpl in Hh. rewrite Hu in Hh. simpl in Hh.
      pose proof (lookahead_aligned pre r rest result Hlen) as Hla.
      destruct (lastIsDash result) eqn:Hl; simpl.
      * rewrite <- (append_string_assoc pre r rest).
        destruct (nextIsLower rest) eqn:Hn.
        -- rewrite append_string_assoc. by apply toKebabCase_loop_no_upper.
        -- apply IH; [apply Hlen' | done |].
           unfold append. destruct result; simpl; exact Hh.
      * destruct (nextIsLower rest) eqn:Hn.
        -- apply andb_true_iff in Hla as [-> ->]. by apply toKebabCase_loop_no_upper.
        -- replace (if Z.of_nat (length result) <? strings.len (pre ++ String r rest) - 1
                    then if unicode.IsLower
                              (strings.byteAt (pre ++ String r rest)
                                 (Z.of_nat (length result) + 1))
                         then append result "-" else result
                    else result) with result
             by (destruct (_ <? _); [|done]; simpl in Hla; by rewrite Hla).
           rewrite <- (append_string_assoc pre r rest).
           apply IH; [apply Hlen' | done |].
           unfold append. destruct result; simpl; exact Hh.
  - rewrite <- (append_string_assoc pre r rest).
    apply IH; [apply Hlen' | done |].
    unfold append. destruct result as [|c0 result0]; simpl; [exact Hh|].
    simpl in Hh. by rewrite Hu in Hh.
Qed.

End KebabAgreement.

(** X4. On an identifier of letters and digits in which no upper-case
    letter comes after the first hump (an upper-case letter, not the first
    rune, that a lower-case one follows), the look-ahead of [toKebabCase]
    reads the rune behind the current one, as the comment in the code
    intends: a hyphen goes before an upper-case letter exactly when a
    lower-case one follows it and something precedes it. *)
Theorem toKebabCase_simple_camel (s : string) :
  simpleCamel s = true -> toKebabCase s = toKebabCase_spec s.
Proof.
  unfold simpleCamel. intros [Hal Hh]%andb_true_iff.
  unfold toKebabCase, toKebabCase_spec. f_equal. f_equal.
  apply (toKebabCase_loop_aligned s EmptyString [] false); [done | done |].
  by destruct s.
Qed.

Lemma toKebabCase_simple_camel_witness :
  toKebabCase "HTTPServer" = toKebabCase_spec "HTTPServer".
Proof. apply (toKebabCase_simple_camel "HTTPServer"). reflexivity. Defined.

(** ** More on the default-value parser *)

Section ParserMore.

Variable ext : Collaborators.

Import reflect.

Lemma parseDefaultValue_unsupported fieldType defaultStr :
  parserSupports (KindOf fieldType) = false ->
  String.eqb defaultStr "" = false ->
  parseDefaultValue ext fieldType defaultStr
  = Ret (None, Some (unsupportedKind (KindOf fieldType))).
Proof.
  intros Hk Hs.
  destruct fieldType as [b|n b| | | | | | | |]; try discriminate Hk.
  - destruct b; try discriminate Hk; simpl; by rewrite Hs.
  - unfold parseDefaultValue. rewrite Hs.
    assert (rtype_eqb (Named n b) time.Duration = false) as ->.
    { simpl. destruct b; try discriminate Hk; by rewrite andb_false_r. }
    destruct b; try discriminate Hk; reflexivity.
  - simpl. by rewrite Hs.
  - simpl. by rewrite Hs.
  - simpl. by rewrite Hs.
  - simpl. by rewrite Hs.
  - simpl. by rewrite Hs.
  - simpl. by rewrite Hs.
  - simpl. by rewrite Hs.
Qed.

(** A loop that ends with a slice parsed every element. *)
Lemma loop_inl elemType elements : forall i rs rs',
  parseSliceDefaultValue_loop (parseDefaultValue ext elemType) elemType i elements rs
  = Ret (inl rs') ->
  length rs = (i + length elements)%nat ->
  exists vs, Forall2 (parsesTo ext elemType) elements vs
             /\ rs' = (take i rs ++ vs)%list.
Proof.
  induction elements as [|x elements IH]; intros i rs rs' Hloop Hlen; simpl in Hloop.
  - injection Hloop as <-. exists []. split; [constructor|].
    rewrite app_nil_r, take_ge; [done | simpl in Hlen; lia].
  - destruct (parseDefaultValue ext elemType (strings.TrimSpace x))
      as [[a [e|]]|msg] eqn:Heq; simpl in Hloop; try discriminate Hloop.
    destruct a as [[t' v]|]; [|discriminate Hloop].
    pose proof (parsesTo_convertible ext _ _ _ _ Heq) as Hc.
    simpl in Hloop. rewrite Hc in Hloop. simpl in Hloop.
    apply IH in Hloop as (vs & Hvs & ->); [|rewrite length_insert; simpl in Hlen; lia].
    exists (v :: vs). split.
    + constructor; [by exists t' | done].
    + rewrite (take_S_r _ _ v) by (apply list_lookup_insert_eq; simpl in Hlen; lia).
      rewrite take_insert_ge by lia. by rewrite <- app_assoc.
Qed.

Lemma splitFrom_length sep s : forall skip cur,
  (1 <= length (strings.splitFrom sep skip cur s))%nat.
Proof.
  induction s as [|c s IH]; intros skip cur; simpl; [lia|].
  destruct skip; [|apply IH].
  destruct (strings.HasPrefix _ _); [simpl; lia | apply IH].
Qed.

Lemma Split_comma_length s : (1 <= length (strings.Split s ","))%nat.
Proof. apply splitFrom_length. Qed.

Lemma blank_parsesTo elemType x :
  Kind_eqb (KindOf elemType) Interface = false ->
  blank x = true -> parsesTo ext elemType x (Zero elemType).
Proof.
  intros Hk Hx. exists elemType.
  by rewrite (TrimSpace_blank _ Hx), parseDefaultValue_zero, Interface_Zero, Hk.
Qed.

End ParserMore.

(** X5. [parseDefaultValue] panics on slices of an interface type only.
    For every other type and every default text it returns: an error, or a
    value whose dynamic type is the field's type up to the name of the type
    (at an interface type, the nil interface value).  On a slice of an
    interface type a text that begins with a comma is a panic: the empty
    first piece parses to the nil interface value, which the conversion to
    the element type does not take. *)
Theorem parseDefaultValue_panics_on_interface_elements_only (ext : Collaborators)
    (fieldType : reflect.rtype) (defaultStr : string)
    (methods : list string) (rest : string) :
  sliceOfInterface fieldType = false ->
  (exists x err,
     parseDefaultValue ext fieldType defaultStr = Ret (x, err)
     /\ (err = None ->
         match x with
         | Some (t, v) =>
             reflect.rtype_eqb (reflect.underlying t) (reflect.underlying fieldType)
             = true
         | None => reflect.Kind_eqb (reflect.KindOf fieldType) reflect.Interface = true
         end))
  /\ panics (parseDefaultValue ext (reflect.SliceOf (reflect.InterfaceOf methods))
               (String "," rest)) = true.
Proof.
  intros Ht. split; [by apply parseDefaultValue_returns|].
  by rewrite parseDefaultValue_interface_elements.
Qed.

Lemma parseDefaultValue_panics_on_interface_elements_only_witness :
  (exists x err,
     parseDefaultValue rejecting (reflect.SliceOf (reflect.Basic reflect.t_int)) ",7"
     = Ret (x, err)
     /\ (err = None ->
         match x with
         | Some (t, v) =>
             reflect.rtype_eqb (reflect.underlying t)
               (reflect.underlying (reflect.SliceOf (reflect.Basic reflect.t_int)))
             = true
         | None =>
             reflect.Kind_eqb
               (reflect.KindOf (reflect.SliceOf (reflect.Basic reflect.t_int)))
               reflect.Interface = true
         end))
  /\ panics (parseDefaultValue rejecting (reflect.SliceOf (reflect.InterfaceOf []))
               (String "," "7")) = true.
Proof.
  apply (parseDefaultValue_panics_on_interface_elements_only rejecting
           (reflect.SliceOf (reflect.Basic reflect.t_int)) ",7" [] "7").
  reflexivity.
Defined.

(** X6. A non-empty default text on a field of a kind without a parser (map,
    pointer, struct, uintptr, complex, array, channel, function, interface)
    is an error naming the kind, and the
    binder's turn on such a field only prints the diagnostic: the field is
    not registered and not written. *)
Theorem default_on_unsupported_kind (ext : Collaborators) (env : gmap string string)
    (recurse : list nat -> string -> list string -> World -> outcome World)
    (val : list nat) (prefix : string) (groupNames : list string) (i : nat)
    (fieldTyp : reflect.StructField) (w : World) :
  parserSupports (reflect.KindOf (reflect.Type_ fieldTyp)) = false ->
  String.eqb (Default (tagOf fieldTyp)) "" = false ->
  isBound groupNames fieldTyp = true ->
  parseDefaultValue ext (reflect.Type_ fieldTyp) (Default (tagOf fieldTyp))
  = Ret (None, Some (unsupportedKind (reflect.KindOf (reflect.Type_ fieldTyp))))
  /\ bindFieldTag_field ext env recurse val prefix groupNames i fieldTyp w
     = Ret (print (defaultError (flagNameOf prefix fieldTyp)
                     (unsupportedKind (reflect.KindOf (reflect.Type_ fieldTyp)))) w).
Proof.
  intros Hk Hd Hb. split; [by apply parseDefaultValue_unsupported|].
  rewrite bindFieldTag_field_bound by done.
  by rewrite parseDefaultValue_unsupported.
Qed.

Lemma default_on_unsupported_kind_witness :
  parseDefaultValue rejecting
    (reflect.MapOf (reflect.Basic reflect.t_string) (reflect.Basic reflect.t_string)) "a=b"
  = Ret (None, Some (unsupportedKind reflect.Map))
  /\ bindFieldTag_field rejecting ∅ (fun _ _ _ w => Ret w) [] "" [] 0%nat
       (reflect.mkStructField "Labels"
          (reflect.MapOf (reflect.Basic reflect.t_string) (reflect.Basic reflect.t_string))
          [("default", "a=b")]) emptyWorld
     = Ret (print (defaultError "labels" (unsupportedKind reflect.Map)) emptyWorld).
Proof.
  apply (default_on_unsupported_kind rejecting ∅ (fun _ _ _ w => Ret w) [] "" [] 0%nat
           (reflect.mkStructField "Labels"
              (reflect.MapOf (reflect.Basic reflect.t_string) (reflect.Basic reflect.t_string))
              [("default", "a=b")]) emptyWorld); reflexivity.
Defined.

(** X7. When the slice parser returns a value, it is a slice that is not nil,
    with one element for each piece of the text between commas (so at least
    one), each the parse of its piece, in order. *)
Theorem parseSliceDefaultValue_sound (ext : Collaborators) (elemType : reflect.rtype)
    (defaultStr : string) (t : reflect.rtype) (v : reflect.value) :
  parseSliceDefaultValue ext (reflect.SliceOf elemType) defaultStr = Ret (Some (t, v), None) ->
  exists vs,
    t = reflect.SliceOf elemType /\ v = reflect.VSlice (Some vs)
    /\ Forall2 (parsesTo ext elemType) (strings.Split defaultStr ",") vs
    /\ length vs = length (strings.Split defaultStr ",")
    /\ (1 <= length vs)%nat.
Proof.
  rewrite parseSliceDefaultValue_unfold. intros H.
  destruct (parseSliceDefaultValue_loop _ _ _ _ _) as [[rs|e]|msg] eqn:Hloop;
    simpl in H; try discriminate H.
  injection H as <- <-.
  apply loop_inl in Hloop as (vs & Hvs & ->);
    [|unfold MakeSlice; by rewrite length_replicate].
  exists vs. simpl. repeat split; try done.
  - symmetry. by eapply Forall2_length.
  - rewrite <- (Forall2_length _ _ _ Hvs). apply Split_comma_length.
Qed.

Lemma parseSliceDefaultValue_sound_witness :
  exists vs,
    reflect.SliceOf (reflect.Basic reflect.t_int) = reflect.SliceOf (reflect.Basic reflect.t_int)
    /\ reflect.VSlice (Some [reflect.VInt 7; reflect.VInt 0]) = reflect.VSlice (Some vs)
    /\ Forall2 (parsesTo rejecting (reflect.Basic reflect.t_int)) (strings.Split "7," ",") vs
    /\ length vs = length (strings.Split "7," ",")
    /\ (1 <= length vs)%nat.
Proof.
  apply (parseSliceDefaultValue_sound rejecting (reflect.Basic reflect.t_int) "7,").
  reflexivity.
Defined.

(** X8. Pieces that are empty or made of ASCII white space do not fail: a
    text all of whose pieces are such parses to that many zero values of the
    element type, for every element type that is no interface type. *)
Theorem blank_elements_are_zero (ext : Collaborators) (elemType : reflect.rtype)
    (defaultStr : string) :
  reflect.Kind_eqb (reflect.KindOf elemType) reflect.Interface = false ->
  forallb blank (strings.Split defaultStr ",") = true ->
  parseSliceDefaultValue ext (reflect.SliceOf elemType) defaultStr
  = Ret (Some (reflect.SliceOf elemType,
               reflect.VSlice
                 (Some (replicate (length (strings.Split defaultStr ","))
                          (reflect.Zero elemType)))), None).
Proof.
  intros Hk H. rewrite parseSliceDefaultValue_unfold.
  rewrite (loop_ok ext elemType _
             (replicate (length (strings.Split defaultStr ",")) (reflect.Zero elemType))).
  - done.
  - induction (strings.Split defaultStr ",") as [|x l IH]; simpl; [constructor|].
    simpl in H. apply andb_true_iff in H as [Hx Hl].
    constructor; [|by apply IH].
    by apply blank_parsesTo.
  - unfold MakeSlice. by rewrite length_replicate.
Qed.

Lemma blank_elements_are_zero_witness :
  parseSliceDefaultValue rejecting (reflect.SliceOf time.Duration) " , "
  = Ret (Some (reflect.SliceOf time.Duration,
               reflect.VSlice
                 (Some (replicate (length (strings.Split " , " ","))
                          (reflect.Zero time.Duration)))), None).
Proof.
  apply (blank_elements_are_zero rejecting time.Duration " , "); reflexivity.
Defined.

(** ** Integer defaults are not truncated *)

Section IntegerRange.

Lemma ParseUint_loop_le fn s0 base base0 cutoff maxVal s : forall n u,
  0 <= n <= maxVal -> 0 <= maxVal ->
  match strconv.ParseUint_loop fn s0 base base0 cutoff maxVal s n u with
  | inl (n', _) => 0 <= n' <= maxVal
  | inr (v, _) => 0 <= v <= maxVal
  end.
Proof.
  induction s as [|ch s IH]; intros n u Hn Hm; simpl; [done|].
  destruct (_ && base0); [by apply IH|].
  destruct (if strconv.isDigitByte _ then _ else _) as [d|]; [|lia].
  destruct (d >=? base); [lia|].
  destruct (n >=? cutoff); [lia|].
  destruct (_ || _) eqn:Hc; [lia|].
  apply IH; [|done]. apply orb_false_iff in Hc as [_ Hc].
  rewrite Z.gtb_ltb in Hc. apply Z.ltb_ge in Hc.
  split; [|done]. apply Z.mod_pos_bound. lia.
Qed.

Lemma ParseUint_fn_range fn s base bitSize :
  goodBitSize bitSize = true ->
  0 <= (strconv.ParseUint_fn fn s base bitSize).1 <= 2 ^ width bitSize - 1.
Proof.
  intros Hb. unfold strconv.ParseUint_fn.
  assert (0 <= 2 ^ width bitSize - 1) as Hpos.
  { unfold goodBitSize, width, strconv.IntSize in *.
    repeat (apply orb_true_iff in Hb as [Hb|Hb]); apply Z.eqb_eq in Hb; subst; simpl; lia. }
  destruct (String.eqb s ""); [simpl; lia|].
  destruct (negb _); [simpl; lia|].
  destruct (if base =? 0 then strconv.pickBase s else (base, s)) as [base' s'].
  destruct (_ || _); [simpl; lia|].
  fold (width bitSize).
  pose proof (ParseUint_loop_le fn s base' (base =? 0) (strconv.maxUint64 / base' + 1)
                (2 ^ width bitSize - 1) s' 0 false) as H.
  destruct (strconv.ParseUint_loop _ _ _ _ _ _ _ _ _) as [[n u]|[v e]].
  - destruct (_ && _); simpl; [lia | apply H; lia].
  - simpl. apply H; lia.
Qed.

Lemma ParseInt_range s base bitSize :
  goodBitSize bitSize = true ->
  - 2 ^ (width bitSize - 1) <= (strconv.ParseInt s base bitSize).1
  <= 2 ^ (width bitSize - 1) - 1.
Proof.
  intros Hb. unfold strconv.ParseInt.
  assert (0 < 2 ^ (width bitSize - 1)) as Hpos.
  { unfold goodBitSize, width, strconv.IntSize in *.
    repeat (apply orb_true_iff in Hb as [Hb|Hb]); apply Z.eqb_eq in Hb; subst; simpl; lia. }
  destruct (String.eqb s ""); [simpl; lia|].
  destruct (match s with EmptyString => _ | _ => _ end) as [neg s'].
  unfold strconv.ParseUint.
  pose proof (ParseUint_fn_range "ParseUint" s' base bitSize Hb) as Hu.
  destruct (strconv.ParseUint_fn "ParseUint" s' base bitSize) as [un err]. simpl in Hu.
  fold (width bitSize).
  assert (- 2 ^ (width bitSize - 1)
          <= (if negb neg && (un >=? 2 ^ (width bitSize - 1))
              then (2 ^ (width bitSize - 1) - 1, Some (strconv.rangeError "ParseInt" s))
              else if neg && (un >? 2 ^ (width bitSize - 1))
                   then (- 2 ^ (width bitSize - 1), Some (strconv.rangeError "ParseInt" s))
                   else (if neg then - un else un, None)).1
          <= 2 ^ (width bitSize - 1) - 1) as Hmain.
  { destruct neg; simpl.
    - destruct (un >? _) eqn:Hc; simpl; [lia|].
      rewrite Z.gtb_ltb in Hc. apply Z.ltb_ge in Hc. lia.
    - destruct (un >=? _) eqn:Hc; simpl; [lia|].
      rewrite Z.geb_leb in Hc. apply Z.leb_gt in Hc. lia. }
  destruct err as [[f n [| | |]| |]|]; simpl; try lia; exact Hmain.
Qed.

Lemma wrapInt_id bits i :
  0 < bits -> - 2 ^ (bits - 1) <= i <= 2 ^ (bits - 1) - 1 -> wrapInt bits i = i.
Proof.
  intros Hb Hi. unfold wrapInt.
  assert (2 ^ bits = 2 * 2 ^ (bits - 1)) as Hp.
  { rewrite <- Z.pow_succ_r by lia. f_equal. lia. }
  rewrite Z.mod_small; lia.
Qed.

Lemma wrapUint_id bits u : 0 <= u <= 2 ^ bits - 1 -> wrapUint bits u = u.
Proof. intros Hu. unfold wrapUint. rewrite Z.mod_small; lia. Qed.

End IntegerRange.

(** X9. The default of an integer field is the number strconv returned, as
    it is: the bit size the parser asks for is the width of the field's type,
    so the conversion to that type never wraps around, and the value lies in
    the range of the type. *)
Theorem integer_default_not_truncated (ext : Collaborators) (b : reflect.basic)
    (defaultStr : string) :
  String.eqb defaultStr "" = false ->
  (isSigned b = true ->
   parseDefaultValue ext (reflect.Basic b) defaultStr
   = Ret (Some (reflect.Basic b,
                reflect.VInt (strconv.ParseInt defaultStr 10 (bitSizeOf b)).1),
          (strconv.ParseInt defaultStr 10 (bitSizeOf b)).2)
   /\ - 2 ^ (widthOf b - 1) <= (strconv.ParseInt defaultStr 10 (bitSizeOf b)).1
      <= 2 ^ (widthOf b - 1) - 1)
  /\ (isUnsigned b = true ->
      parseDefaultValue ext (reflect.Basic b) defaultStr
      = Ret (Some (reflect.Basic b,
                   reflect.VUint (strconv.ParseUint defaultStr 10 (bitSizeOf b)).1),
             (strconv.ParseUint defaultStr 10 (bitSizeOf b)).2)
      /\ 0 <= (strconv.ParseUint defaultStr 10 (bitSizeOf b)).1 <= 2 ^ widthOf b - 1).
Proof.
  intros Hs. split; intros Hb.
  - assert (goodBitSize (bitSizeOf b) = true) as Hg by (by destruct b).
    pose proof (ParseInt_range defaultStr 10 (bitSizeOf b) Hg) as Hr.
    change (width (bitSizeOf b)) with (widthOf b) in Hr.
    split; [|exact Hr].
    destruct b; try discriminate Hb; simpl; rewrite Hs;
      destruct (strconv.ParseInt defaultStr 10 _) as [i err]; simpl in *;
      rewrite ?wrapInt_id; done.
  - assert (goodBitSize (bitSizeOf b) = true) as Hg by (by destruct b).
    pose proof (ParseUint_fn_range "ParseUint" defaultStr 10 (bitSizeOf b) Hg) as Hr.
    change (width (bitSizeOf b)) with (widthOf b) in Hr.
    fold (strconv.ParseUint defaultStr 10 (bitSizeOf b)) in Hr.
    split; [|exact Hr].
    destruct b; try discriminate Hb; simpl; rewrite Hs;
      destruct (strconv.ParseUint defaultStr 10 _) as [u err]; simpl in *;
      rewrite ?wrapUint_id; done.
Qed.

Lemma integer_default_not_truncated_witness :
  (isSigned reflect.t_int8 = true ->
   parseDefaultValue rejecting (reflect.Basic reflect.t_int8) "-128"
   = Ret (Some (reflect.Basic reflect.t_int8,
                reflect.VInt (strconv.ParseInt "-128" 10 (bitSizeOf reflect.t_int8)).1),
          (strconv.ParseInt "-128" 10 (bitSizeOf reflect.t_int8)).2)
   /\ - 2 ^ (widthOf reflect.t_int8 - 1)
      <= (strconv.ParseInt "-128" 10 (bitSizeOf reflect.t_int8)).1
      <= 2 ^ (widthOf reflect.t_int8 - 1) - 1)
  /\ (isUnsigned reflect.t_int8 = true ->
      parseDefaultValue rejecting (reflect.Basic reflect.t_int8) "-128"
      = Ret (Some (reflect.Basic reflect.t_int8,
                   reflect.VUint (strconv.ParseUint "-128" 10 (bitSizeOf reflect.t_int8)).1),
             (strconv.ParseUint "-128" 10 (bitSizeOf reflect.t_int8)).2)
      /\ 0 <= (strconv.ParseUint "-128" 10 (bitSizeOf reflect.t_int8)).1
         <= 2 ^ widthOf reflect.t_int8 - 1).
Proof.
  apply (integer_default_not_truncated rejecting reflect.t_int8 "-128"). reflexivity.
Defined.

(** ** More on the binder's turn on a field *)

Section BinderMore.

Variable ext : Collaborators.
Variable env : gmap string string.

Import reflect.

(** For a type without registration the switch prints its line and leaves
    the rest of the world alone, whatever the default value is. *)
Lemma bindFieldTag_switch_unsupported recurse fieldTyp p name usage dv groupNames w line :
  unsupportedLine (Type_ fieldTyp) = Some line ->
  bindFieldTag_switch recurse fieldTyp p name usage dv groupNames w = Ret (print line w).
Proof.
  unfold bindFieldTag_switch. destruct (Type_ fieldTyp) as [b|n b|e|k e|e|fs|len e|e|sg|ms]; intros H.
  - destruct b; try discriminate H; injection H as <-; reflexivity.
  - simpl in H. destruct (String.eqb n "time.Duration" && basic_eqb b t_int64) eqn:Hd;
      [discriminate H|].
    change (rtype_eqb (Named n b) time.Duration)
      with (String.eqb n "time.Duration" && basic_eqb b t_int64).
    rewrite Hd. destruct b; try discriminate H; injection H as <-; reflexivity.
  - simpl in H. destruct (KindOf e) eqn:Hk; try discriminate H; injection H as <-;
      cbn; rewrite Hk; reflexivity.
  - simpl in H. destruct (KindOf e) eqn:Hk; try discriminate H; injection H as <-;
      cbn; rewrite Hk; reflexivity.
  - injection H as <-. reflexivity.
  - discriminate H.
  - injection H as <-. reflexivity.
  - injection H as <-. reflexivity.
  - injection H as <-. reflexivity.
  - injection H as <-. reflexivity.
Qed.

(** On a flag name that is not registered, the environment fallback and the
    required marking only print. *)
Lemma phases_unregistered tag name w :
  formal w !! name = None ->
  bindFieldTag_required tag name (bindFieldTag_env ext env name w)
  = {| formal := formal w; memory := memory w;
       output := (output w ++ softFailures env tag name)%list |}.
Proof.
  intros Hn. unfold bindFieldTag_env, bindFieldTag_required, softFailures,
    FlagSet_Changed, FlagSet_Set, MarkFlagRequired, noSuchFlag.
  rewrite Hn. rewrite andb_true_r.
  destruct (negb _); destruct (String.eqb (Required_ tag) "true"); cbn;
    rewrite ?Hn; cbn; unfold print; cbn; rewrite ?app_nil_r, <- ?app_assoc; try done.
  by destruct w.
Qed.

End BinderMore.

(** X10. A field that is not exported, or whose [group] tag names a group
    that is not among the active ones, leaves the world as it was, whatever
    its type, default and other tags. *)
Theorem unexported_or_inactive_is_skipped (ext : Collaborators) (env : gmap string string)
    (recurse : list nat -> string -> list string -> World -> outcome World)
    (val : list nat) (prefix : string) (groupNames : list string) (i : nat)
    (fieldTyp : reflect.StructField) (w : World) :
  negb (CanSet fieldTyp)
  || (negb (String.eqb (Group (tagOf fieldTyp)) "")
      && negb (slices.Contains groupNames (Group (tagOf fieldTyp)))) = true ->
  bindFieldTag_field ext env recurse val prefix groupNames i fieldTyp w = Ret w.
Proof.
  intros H. apply bindFieldTag_field_unbound. unfold isBound.
  destruct (CanSet fieldTyp); [|done]. simpl in *. rewrite H.
  by rewrite andb_false_r.
Qed.

Lemma unexported_or_inactive_is_skipped_witness :
  bindFieldTag_field rejecting ∅ (fun _ _ _ _ => Panic "entered") [] "" ["serve"] 0%nat
    (reflect.mkStructField "Token" (reflect.Basic reflect.t_string)
       [("group", "admin"); ("default", "x"); ("required", "true")]) emptyWorld
  = Ret emptyWorld.
Proof.
  apply (unexported_or_inactive_is_skipped rejecting ∅ (fun _ _ _ _ => Panic "entered")
           [] "" ["serve"] 0%nat
           (reflect.mkStructField "Token" (reflect.Basic reflect.t_string)
              [("group", "admin"); ("default", "x"); ("required", "true")]) emptyWorld).
  reflexivity.
Defined.

(** X11. A bound field of a type the switch has no registration for (a
    pointer, a slice of float32, of slices or of structs, a map to another
    element kind, a defined integer or float type such as [type Level int])
    is reported and not registered: when its default parses and no flag has
    its name, the turn returns, the flags and the memory are as before, and
    the output gains the line of the switch followed by the failures of the
    environment fallback (when the variable is not empty) and of the required
    marking (when asked for), both for want of the flag. *)
Theorem unsupported_type_registers_nothing (ext : Collaborators)
    (env : gmap string string)
    (recurse : list nat -> string -> list string -> World -> outcome World)
    (val : list nat) (prefix : string) (groupNames : list string) (i : nat)
    (fieldTyp : reflect.StructField) (w : World) (line : diagnostic) (x : any) :
  unsupportedLine (reflect.Type_ fieldTyp) = Some line ->
  isBound groupNames fieldTyp = true ->
  parseDefaultValue ext (reflect.Type_ fieldTyp) (Default (tagOf fieldTyp)) = Ret (x, None) ->
  formal w !! flagNameOf prefix fieldTyp = None ->
  bindFieldTag_field ext env recurse val prefix groupNames i fieldTyp w
  = Ret {| formal := formal w; memory := memory w;
           output := (output w
                      ++ line :: softFailures env (tagOf fieldTyp)
                                    (flagNameOf prefix fieldTyp))%list |}.
Proof.
  intros Hl Hb Hp Hn.
  rewrite (bindFieldTag_field_bound ext env) by done.
  rewrite Hp, bind_Ret. cbv beta iota.
  rewrite (bindFieldTag_switch_unsupported _ _ _ _ _ _ _ _ line Hl), bind_Ret.
  rewrite phases_unregistered by done. cbn. by rewrite <- app_assoc.
Qed.

Lemma unsupported_type_registers_nothing_witness :
  bindFieldTag_field rejecting {["ACF_LEVEL" := "3"]} (fun _ _ _ w => Ret w)
    [] "" [] 0%nat
    (reflect.mkStructField "Level" (reflect.Named "main.Level" reflect.t_int)
       [("default", "2"); ("required", "true")]) emptyWorld
  = Ret {| formal := formal emptyWorld; memory := memory emptyWorld;
           output :=
             (output emptyWorld
              ++ Println [OpString "utils.go"; OpString "不支持的类型"; OpKind reflect.Int]
                 :: softFailures {["ACF_LEVEL" := "3"]}
                      (tagOf (reflect.mkStructField "Level"
                                (reflect.Named "main.Level" reflect.t_int)
                                [("default", "2"); ("required", "true")]))
                      (flagNameOf ""
                         (reflect.mkStructField "Level"
                            (reflect.Named "main.Level" reflect.t_int)
                            [("default", "2"); ("required", "true")])))%list |}.
Proof.
  apply (unsupported_type_registers_nothing rejecting {["ACF_LEVEL" := "3"]}
           (fun _ _ _ w => Ret w) [] "" [] 0%nat
           (reflect.mkStructField "Level" (reflect.Named "main.Level" reflect.t_int)
              [("default", "2"); ("required", "true")]) emptyWorld
           (Println [OpString "utils.go"; OpString "不支持的类型"; OpKind reflect.Int])
           (Some (reflect.Basic reflect.t_int, reflect.VInt 2))); reflexivity.
Defined.

(** X12. A bound field of struct kind without default text is entered with
    its flag name as prefix, and afterwards the environment fallback and the
    required marking are run on the struct's own flag name; when no flag has
    that name they fail and print, so a nested struct tagged
    [required:"true"] always leaves a diagnostic. *)
Theorem struct_field_uses_its_own_name (ext : Collaborators) (env : gmap string string)
    (recurse : list nat -> string -> list string -> World -> outcome World)
    (val : list nat) (prefix : string) (groupNames : list string) (i : nat)
    (fieldTyp : reflect.StructField) (w w1 : World) :
  reflect.KindOf (reflect.Type_ fieldTyp) = reflect.Struct ->
  Default (tagOf fieldTyp) = "" ->
  isBound groupNames fieldTyp = true ->
  recurse (val ++ [i])%list (flagNameOf prefix fieldTyp) groupNames w = Ret w1 ->
  formal w1 !! flagNameOf prefix fieldTyp = None ->
  bindFieldTag_field ext env recurse val prefix groupNames i fieldTyp w
  = Ret {| formal := formal w1; memory := memory w1;
           output := (output w1
                      ++ softFailures env (tagOf fieldTyp)
                           (flagNameOf prefix fieldTyp))%list |}.
Proof.
  intros Hk Hd Hb Hr Hn.
  rewrite (bindFieldTag_field_bound ext env) by done.
  rewrite Hd.
  assert (Hp : parseDefaultValue ext (reflect.Type_ fieldTyp) ""
               = Ret (Some (reflect.Type_ fieldTyp, reflect.Zero (reflect.Type_ fieldTyp)),
                      None))
    by (by destruct (reflect.Type_ fieldTyp)).
  rewrite Hp, bind_Ret. cbv beta iota.
  assert (bindFieldTag_switch recurse fieldTyp (val ++ [i])%list
            (flagNameOf prefix fieldTyp) (Note (tagOf fieldTyp))
            (Some (reflect.Type_ fieldTyp, reflect.Zero (reflect.Type_ fieldTyp)))
            groupNames w = Ret w1) as ->.
  { unfold bindFieldTag_switch.
    destruct (reflect.Type_ fieldTyp) as [b|n b| | | | | | | |]; try discriminate Hk.
    - destruct b; discriminate Hk.
    - destruct b; discriminate Hk.
    - exact Hr. }
  rewrite bind_Ret. by rewrite phases_unregistered.
Qed.

Lemma struct_field_uses_its_own_name_witness :
  bindFieldTag_field rejecting ∅ (fun _ _ _ w => Ret w) [] "" [] 0%nat
    (reflect.mkStructField "Server" (reflect.StructOf []) [("required", "true")])
    emptyWorld
  = Ret {| formal := formal emptyWorld; memory := memory emptyWorld;
           output :=
             (output emptyWorld
              ++ softFailures ∅
                   (tagOf (reflect.mkStructField "Server" (reflect.StructOf [])
                             [("required", "true")]))
                   (flagNameOf ""
                      (reflect.mkStructField "Server" (reflect.StructOf [])
                         [("required", "true")])))%list |}.
Proof.
  apply (struct_field_uses_its_own_name rejecting ∅ (fun _ _ _ w => Ret w) [] "" [] 0%nat
           (reflect.mkStructField "Server" (reflect.StructOf []) [("required", "true")])
           emptyWorld emptyWorld); reflexivity.
Defined.

(** X13. A bound field whose type is a defined type over [bool] or [string]
    (such as [type Mode string]) makes the binder panic as soon as its default
    parses: the switch picks its case by kind and then asserts the predeclared
    type, on the default value or on the pointer to the field. *)
Theorem defined_bool_or_string_panics (ext : Collaborators) (env : gmap string string)
    (recurse : list nat -> string -> list string -> World -> outcome World)
    (val : list nat) (prefix : string) (groupNames : list string) (i : nat)
    (fieldTyp : reflect.StructField) (n : string) (b : reflect.basic) (w : World)
    (x : any) :
  reflect.Type_ fieldTyp = reflect.Named n b ->
  isBoolOrString b = true ->
  isBound groupNames fieldTyp = true ->
  parseDefaultValue ext (reflect.Type_ fieldTyp) (Default (tagOf fieldTyp)) = Ret (x, None) ->
  panics (bindFieldTag_field ext env recurse val prefix groupNames i fieldTyp w) = true.
Proof.
  intros HT Hbs Hb Hp.
  rewrite (bindFieldTag_field_bound ext env) by done.
  rewrite Hp, bind_Ret. cbv beta iota.
  unfold bindFieldTag_switch. rewrite HT in *.
  generalize dependent (Default (tagOf fieldTyp)). intros d Hp.
  destruct (String.eqb d "") eqn:Hd.
  - destruct b; try discriminate Hbs; simpl in Hp; rewrite Hd in Hp;
      injection Hp as <-; cbn; by rewrite ?andb_false_r.
  - destruct b; try discriminate Hbs; unfold parseDefaultValue in Hp; rewrite Hd in Hp;
      cbn in Hp; rewrite ?andb_false_r in Hp; cbn in Hp.
    + destruct (strconv.ParseBool _) as [v e]. injection Hp as <- ->.
      cbn. by rewrite ?andb_false_r.
    + injection Hp as <-. cbn. by rewrite ?andb_false_r.
Qed.

Lemma defined_bool_or_string_panics_witness :
  panics (bindFieldTag_field rejecting ∅ (fun _ _ _ w => Ret w) [] "" [] 0%nat
            (reflect.mkStructField "Mode" (reflect.Named "main.Mode" reflect.t_string)
               [("default", "fast")]) emptyWorld) = true.
Proof.
  apply (defined_bool_or_string_panics rejecting ∅ (fun _ _ _ w => Ret w) [] "" [] 0%nat
           (reflect.mkStructField "Mode" (reflect.Named "main.Mode" reflect.t_string)
              [("default", "fast")]) "main.Mode" reflect.t_string emptyWorld
           (Some (reflect.Basic reflect.t_string, reflect.VString "fast"))); reflexivity.
Defined.

(** ** What is registered *)

Section RegisteredFlag.

Variable ext : Collaborators.
Variable env : gmap string string.

Import reflect.

Lemma bindFieldTag_switch_scalar_flag recurse fieldTyp p name usage v groupNames w :
  isIntegerOrString (Type_ fieldTyp) = true ->
  formal w !! name = None ->
  exists w1,
    bindFieldTag_switch recurse fieldTyp p name usage (Some (Type_ fieldTyp, v))
      groupNames w = Ret w1
    /\ formal w1 !! name
       = Some {| flagName_ := name; Usage := usage;
                 ValueKind := valueTypeOf (Type_ fieldTyp); ValuePtr := p;
                 ValueChanged := false; DefValue := v; Changed := false;
                 Required := false |}
    /\ (forall other, other <> name -> formal w1 !! other = formal w !! other)
    /\ (forall q, q <> p -> memory w1 !! q = memory w !! q).
Proof.
  intros (b & HT & Hb)%isIntegerOrString_inv Hfresh.
  unfold bindFieldTag_switch. rewrite HT.
  simpl in Hb. decompose [or] Hb; subst; try done.
  all: cbn; unfold Var, AddFlag; cbn; rewrite Hfresh;
    (eexists; split; [reflexivity|]); cbn;
    rewrite !lookup_insert_eq; (split; [done|]); split;
    [intros other Ho; by rewrite lookup_insert_ne
    |intros q Hq; by rewrite !lookup_insert_ne].
Qed.

(** The setter keeps what the registration recorded about the flag. *)
Lemma FlagSet_Set_keeps name text w F :
  formal w !! name = Some F ->
  exists F', formal (FlagSet_Set ext name text w).1 !! name = Some F'
             /\ flagName_ F' = flagName_ F /\ Usage F' = Usage F
             /\ ValueKind F' = ValueKind F /\ ValuePtr F' = ValuePtr F
             /\ DefValue F' = DefValue F /\ Required F' = Required F
             /\ (forall other, other <> name ->
                  formal (FlagSet_Set ext name text w).1 !! other = formal w !! other)
             /\ (forall q, q <> ValuePtr F ->
                  memory (FlagSet_Set ext name text w).1 !! q = memory w !! q).
Proof.
  intros HF. unfold FlagSet_Set. rewrite HF.
  destruct (Value_Set _ _ _ _) as [[v c] [e|]]; eexists; cbn;
    rewrite lookup_insert_eq; (repeat split; try done);
    intros other Ho; by rewrite lookup_insert_ne.
Qed.

Lemma bindFieldTag_env_keeps name w F :
  formal w !! name = Some F ->
  exists F', formal (bindFieldTag_env ext env name w) !! name = Some F'
             /\ flagName_ F' = flagName_ F /\ Usage F' = Usage F
             /\ ValueKind F' = ValueKind F /\ ValuePtr F' = ValuePtr F
             /\ DefValue F' = DefValue F /\ Required F' = Required F
             /\ (forall other, other <> name ->
                  formal (bindFieldTag_env ext env name w) !! other = formal w !! other)
             /\ (forall q, q <> ValuePtr F ->
                  memory (bindFieldTag_env ext env name w) !! q = memory w !! q).
Proof.
  intros HF. unfold bindFieldTag_env.
  destruct (negb _ && negb _); [|by exists F].
  pose proof (FlagSet_Set_keeps name (os.Getenv env (envVarOf env name)) w F HF) as H.
  by destruct (FlagSet_Set _ _ _ _) as [w1 [e|]].
Qed.

Lemma bindFieldTag_required_keeps tag name w F :
  formal w !! name = Some F ->
  exists F', formal (bindFieldTag_required tag name w) !! name = Some F'
             /\ flagName_ F' = flagName_ F /\ Usage F' = Usage F
             /\ ValueKind F' = ValueKind F /\ ValuePtr F' = ValuePtr F
             /\ DefValue F' = DefValue F
             /\ Required F' = (String.eqb (Required_ tag) "true" || Required F)
             /\ forall other, other <> name ->
                  formal (bindFieldTag_required tag name w) !! other = formal w !! other.
Proof.
  intros HF. unfold bindFieldTag_required, MarkFlagRequired.
  destruct (String.eqb (Required_ tag) "true"); [|by exists F].
  rewrite HF. eexists. cbn. rewrite lookup_insert_eq. repeat split; try done.
  intros other Ho. by rewrite lookup_insert_ne.
Qed.

End RegisteredFlag.

(** X14. A bound field of an integer type or of type string whose default
    parses and whose flag name is free gets exactly one flag: under the flag
    name, with the [note] tag as usage, the parsed default as default value,
    the field as its variable, and marked required exactly when the
    [required] tag is ["true"]; the flags of other names and the memory of
    other fields are untouched. *)
Theorem registered_flag_records_the_tags (ext : Collaborators) (env : gmap string string)
    (recurse : list nat -> string -> list string -> World -> outcome World)
    (val : list nat) (prefix : string) (groupNames : list string) (i : nat)
    (fieldTyp : reflect.StructField) (w : World) (v : reflect.value) :
  isIntegerOrString (reflect.Type_ fieldTyp) = true ->
  isBound groupNames fieldTyp = true ->
  parseDefaultValue ext (reflect.Type_ fieldTyp) (Default (tagOf fieldTyp))
  = Ret (Some (reflect.Type_ fieldTyp, v), None) ->
  formal w !! flagNameOf prefix fieldTyp = None ->
  exists w1 F,
    bindFieldTag_field ext env recurse val prefix groupNames i fieldTyp w = Ret w1
    /\ formal w1 !! flagNameOf prefix fieldTyp = Some F
    /\ flagName_ F = flagNameOf prefix fieldTyp
    /\ Usage F = Note (tagOf fieldTyp)
    /\ ValueKind F = valueTypeOf (reflect.Type_ fieldTyp)
    /\ ValuePtr F = (val ++ [i])%list
    /\ DefValue F = v
    /\ Required F = String.eqb (Required_ (tagOf fieldTyp)) "true"
    /\ (forall other, other <> flagNameOf prefix fieldTyp ->
         formal w1 !! other = formal w !! other)
    /\ (forall q, q <> (val ++ [i])%list -> memory w1 !! q = memory w !! q).
Proof.
  intros HT Hb Hp Hfresh.
  rewrite (bindFieldTag_field_bound ext env) by done.
  rewrite Hp, bind_Ret. cbv beta iota.
  destruct (bindFieldTag_switch_scalar_flag recurse fieldTyp (val ++ [i])%list
              (flagNameOf prefix fieldTyp) (Note (tagOf fieldTyp)) v groupNames w HT Hfresh)
    as (w1 & -> & HF & Ho1 & Hm1).
  rewrite bind_Ret.
  destruct (bindFieldTag_env_keeps ext env _ _ _ HF)
    as (F2 & HF2 & Hn2 & Hu2 & Hk2 & Hp2 & Hd2 & Hr2 & Ho2 & Hm2).
  destruct (bindFieldTag_required_keeps (tagOf fieldTyp) _ _ _ HF2)
    as (F3 & HF3 & Hn3 & Hu3 & Hk3 & Hp3 & Hd3 & Hr3 & Ho3).
  eexists. exists F3. split; [reflexivity|]. split; [exact HF3|].
  rewrite Hn3, Hu3, Hk3, Hp3, Hd3, Hr3, Hn2, Hu2, Hk2, Hp2, Hd2, Hr2. cbn.
  rewrite orb_false_r. repeat split; try done.
  - intros other Ho. by rewrite Ho3, Ho2, Ho1.
  - intros q Hq. by rewrite bindFieldTag_required_memory, Hm2, Hm1.
Qed.

Lemma registered_flag_records_the_tags_witness :
  exists w1 F,
    bindFieldTag_field rejecting ∅ (fun _ _ _ w => Ret w) [] "db" [] 2%nat
      (reflect.mkStructField "MaxConns" (reflect.Basic reflect.t_uint16)
         [("default", "64"); ("note", "pool size"); ("required", "true")]) emptyWorld
    = Ret w1
    /\ formal w1 !! flagNameOf "db"
         (reflect.mkStructField "MaxConns" (reflect.Basic reflect.t_uint16)
            [("default", "64"); ("note", "pool size"); ("required", "true")]) = Some F
    /\ flagName_ F
       = flagNameOf "db"
           (reflect.mkStructField "MaxConns" (reflect.Basic reflect.t_uint16)
              [("default", "64"); ("note", "pool size"); ("required", "true")])
    /\ Usage F
       = Note (tagOf (reflect.mkStructField "MaxConns" (reflect.Basic reflect.t_uint16)
                        [("default", "64"); ("note", "pool size"); ("required", "true")]))
    /\ ValueKind F
       = valueTypeOf
           (reflect.Type_
              (reflect.mkStructField "MaxConns" (reflect.Basic reflect.t_uint16)
                 [("default", "64"); ("note", "pool size"); ("required", "true")]))
    /\ ValuePtr F = ([] ++ [2%nat])%list
    /\ DefValue F = reflect.VUint 64
    /\ Required F
       = String.eqb
           (Required_
              (tagOf (reflect.mkStructField "MaxConns" (reflect.Basic reflect.t_uint16)
                        [("default", "64"); ("note", "pool size"); ("required", "true")])))
           "true"
    /\ (forall other,
         other <> flagNameOf "db"
                    (reflect.mkStructField "MaxConns" (reflect.Basic reflect.t_uint16)
                       [("default", "64"); ("note", "pool size"); ("required", "true")]) ->
         formal w1 !! other = formal emptyWorld !! other)
    /\ (forall q, q <> ([] ++ [2%nat])%list -> memory w1 !! q = memory emptyWorld !! q).
Proof.
  apply (registered_flag_records_the_tags rejecting ∅ (fun _ _ _ w => Ret w) [] "db" []
           2%nat
           (reflect.mkStructField "MaxConns" (reflect.Basic reflect.t_uint16)
              [("default", "64"); ("note", "pool size"); ("required", "true")])
           emptyWorld (reflect.VUint 64)); reflexivity.
Defined.

Lemma ToUpper_ToLower c : unicode.ToUpper (unicode.ToLower c) = unicode.ToUpper c.
Proof. destruct c as [[] [] [] [] [] [] [] []]; vm_compute; reflexivity. Qed.

Lemma dashToUnderscore_ToLower c :
  dashToUnderscore (unicode.ToLower c) = unicode.ToLower (dashToUnderscore c).
Proof. destruct c as [[] [] [] [] [] [] [] []]; vm_compute; reflexivity. Qed.

Lemma foldName_key a b :
  foldName a = foldName b ->
  mapRunes (fun c => unicode.ToUpper (dashToUnderscore c)) a
  = mapRunes (fun c => unicode.ToUpper (dashToUnderscore c)) b.
Proof.
  unfold foldName. revert b.
  induction a as [|c a IH]; intros [|d b] H; simpl in *; try done.
  injection H as Hc Hab.
  rewrite <- (ToUpper_ToLower (dashToUnderscore c)), Hc, ToUpper_ToLower.
  by rewrite (IH b).
Qed.

Lemma ToUpper_isASCII c : isASCII c = true -> isASCII (unicode.ToUpper c) = true.
Proof. destruct c as [[] [] [] [] [] [] [] []]; vm_compute; congruence. Qed.

Lemma dashToUnderscore_isASCII c :
  isASCII c = true -> isASCII (dashToUnderscore c) = true.
Proof. destruct c as [[] [] [] [] [] [] [] []]; vm_compute; congruence. Qed.

(** X15. For an ASCII flag name, the name of the environment variable is the
    prefix followed by as many runes as the flag name has, all ASCII and none
    of them a hyphen or a lower-case letter; so two ASCII flag names that
    differ only in letter case, or in ['-'] against ['_'], read the same
    variable. *)
Theorem envVarOf_shape (env : gmap string string) (flagName other : string) :
  allRunes isASCII flagName = true ->
  allRunes isASCII other = true ->
  foldName other = foldName flagName ->
  (exists suffix,
     envVarOf env flagName = envPrefix_spec env ++ suffix
     /\ String.length suffix = String.length flagName
     /\ allRunes isASCII suffix = true
     /\ allRunes isEnvRune suffix = true)
  /\ envVarOf env other = envVarOf env flagName.
Proof.
  intros Ha _ Hf. split.
  - exists (mapRunes (fun c => unicode.ToUpper (dashToUnderscore c)) flagName).
    rewrite envVarOf_spec. split; [done|]. clear Hf. split; [|split].
    + clear Ha. induction flagName as [|c s IH]; simpl; [done | by rewrite IH].
    + induction flagName as [|c s IH]; simpl; [done|].
      simpl in Ha. apply andb_true_iff in Ha as [Hc Hs].
      by rewrite ToUpper_isASCII, IH by (by try apply dashToUnderscore_isASCII).
    + clear Ha. induction flagName as [|c s IH]; simpl; [done|].
      rewrite IH, andb_true_r.
      destruct c as [[] [] [] [] [] [] [] []]; vm_compute; reflexivity.
  - rewrite !envVarOf_spec. unfold envKey_spec. by rewrite (foldName_key _ _ Hf).
Qed.

Lemma envVarOf_shape_witness :
  (exists suffix,
     envVarOf {["PREFIX_ACF" := "APP_"]} "max-retries"
     = envPrefix_spec {["PREFIX_ACF" := "APP_"]} ++ suffix
     /\ String.length suffix = String.length "max-retries"
     /\ allRunes isASCII suffix = true
     /\ allRunes isEnvRune suffix = true)
  /\ envVarOf {["PREFIX_ACF" := "APP_"]} "Max_Retries"
     = envVarOf {["PREFIX_ACF" := "APP_"]} "max-retries".
Proof.
  apply (envVarOf_shape {["PREFIX_ACF" := "APP_"]} "max-retries" "Max_Retries");
    reflexivity.
Defined.

(** ** Flags stay, output is only appended *)

Section Grows.

Variable ext : Collaborators.
Variable env : gmap string string.

Import reflect.

Lemma grows_refl w : grows w w.
Proof. by split. Qed.

Lemma grows_trans w1 w2 w3 : grows w1 w2 -> grows w2 w3 -> grows w1 w3.
Proof. intros [H1 P1] [H2 P2]. split; [auto | by etrans]. Qed.

Lemma grows_store p v w : grows w (store p v w).
Proof. by split. Qed.

Lemma grows_print d w : grows w (print d w).
Proof. split; [done|]. by apply prefix_app_r. Qed.

Lemma grows_setFlag name F w : grows w (setFlag name F w).
Proof.
  split; [|done]. intros n Hn. cbn.
  destruct (decide (name = n)) as [->|Hne];
    [rewrite lookup_insert_eq; by eexists | by rewrite lookup_insert_ne].
Qed.

Lemma grows_Var vt p name v usage w w' :
  Var vt p name v usage w = Ret w' -> grows w w'.
Proof.
  unfold Var, AddFlag. cbn. destruct (formal w !! name); [discriminate|].
  intros [= <-]. eapply grows_trans; [apply (grows_store p v)|apply grows_setFlag].
Qed.

Lemma grows_Set_ T p x w w' : Value.Set_ T p x w = Ret w' -> grows w w'.
Proof. unfold Value.Set_. destruct (Value.AssignableTo _ _); intros [= <-]. apply grows_store. Qed.

Lemma grows_SetBool T p x w w' : Value.SetBool T p x w = Ret w' -> grows w w'.
Proof. unfold Value.SetBool. destruct (Kind_eqb _ _); intros [= <-]. apply grows_store. Qed.

Lemma grows_SetInt T p x w w' : Value.SetInt T p x w = Ret w' -> grows w w'.
Proof. unfold Value.SetInt. destruct (Value.isIntKind _); intros [= <-]. apply grows_store. Qed.

Lemma grows_SetUint T p x w w' : Value.SetUint T p x w = Ret w' -> grows w w'.
Proof. unfold Value.SetUint. destruct (Value.isUintKind _); intros [= <-]. apply grows_store. Qed.

Lemma grows_SetFloat T p x w w' : Value.SetFloat T p x w = Ret w' -> grows w w'.
Proof. unfold Value.SetFloat. destruct (_ || _); intros [= <-]. apply grows_store. Qed.

Lemma grows_SetString T p x w w' : Value.SetString T p x w = Ret w' -> grows w w'.
Proof. unfold Value.SetString. destruct (Kind_eqb _ _); intros [= <-]. apply grows_store. Qed.

Lemma grows_FlagSet_Set name text w : grows w (FlagSet_Set ext name text w).1.
Proof.
  unfold FlagSet_Set. destruct (formal w !! name) as [F|]; [|apply grows_refl].
  destruct (Value_Set _ _ _ _) as [[v c] [e|]]; cbn;
    (eapply grows_trans; [apply (grows_store (ValuePtr F) v)|apply grows_setFlag]).
Qed.

Lemma grows_env name w : grows w (bindFieldTag_env ext env name w).
Proof.
  unfold bindFieldTag_env. destruct (negb _ && negb _); [|apply grows_refl].
  pose proof (grows_FlagSet_Set name (os.Getenv env (envVarOf env name)) w) as H.
  destruct (FlagSet_Set _ _ _ _) as [w1 [e|]]; [|done].
  eapply grows_trans; [exact H | apply grows_print].
Qed.

Lemma grows_required tag name w : grows w (bindFieldTag_required tag name w).
Proof.
  unfold bindFieldTag_required, MarkFlagRequired.
  destruct (String.eqb _ _); [|apply grows_refl].
  destruct (formal w !! name); [apply grows_setFlag | apply grows_print].
Qed.

(** Splits an equation [m ≫= f = Ret w'] on the outcome of [m]. *)
Local Ltac bind_inv H :=
  match type of H with
  | (?m ≫= _) = Ret _ =>
      let a := fresh "a" in
      let E := fresh "E" in
      destruct m as [a|] eqn:E; [rewrite bind_Ret in H; cbv beta in H | discriminate H]
  end.

Local Ltac grows_step :=
  match goal with
  | H : Ret _ = Ret _ |- _ => injection H as <-
  | H : Panic _ = Ret _ |- _ => discriminate H
  | H : (_ ≫= _) = Ret _ |- _ => bind_inv H
  | |- grows ?w ?w => apply grows_refl
  | |- grows ?w (print _ ?w) => apply grows_print
  | H : Var _ _ _ _ _ ?w = Ret ?w' |- grows ?w0 ?w' =>
      apply (grows_trans w0 w w'); [|exact (grows_Var _ _ _ _ _ _ _ H)]
  | H : Value.Set_ _ _ _ ?w = Ret ?w' |- grows ?w ?w' => exact (grows_Set_ _ _ _ _ _ H)
  | H : Value.SetBool _ _ _ ?w = Ret ?w' |- grows ?w ?w' => exact (grows_SetBool _ _ _ _ _ H)
  | H : Value.SetInt _ _ _ ?w = Ret ?w' |- grows ?w ?w' => exact (grows_SetInt _ _ _ _ _ H)
  | H : Value.SetUint _ _ _ ?w = Ret ?w' |- grows ?w ?w' => exact (grows_SetUint _ _ _ _ _ H)
  | H : Value.SetFloat _ _ _ ?w = Ret ?w' |- grows ?w ?w' => exact (grows_SetFloat _ _ _ _ _ H)
  | H : Value.SetString _ _ _ ?w = Ret ?w' |- grows ?w ?w' => exact (grows_SetString _ _ _ _ _ H)
  | H : context [if ?b then _ else _] |- _ => destruct b
  end.

Lemma grows_switch recurse fieldTyp p name usage dv groupNames w w' :
  (forall p n g w w', recurse p n g w = Ret w' -> grows w w') ->
  bindFieldTag_switch recurse fieldTyp p name usage dv groupNames w = Ret w' ->
  grows w w'.
Proof.
  intros Hrec H. unfold bindFieldTag_switch in H.
  repeat grows_step; eauto.
Qed.

Lemma grows_field recurse val prefix groupNames i fieldTyp w w' :
  (forall p n g w w', recurse p n g w = Ret w' -> grows w w') ->
  bindFieldTag_field ext env recurse val prefix groupNames i fieldTyp w = Ret w' ->
  grows w w'.
Proof.
  intros Hrec H. unfold bindFieldTag_field in H.
  destruct (negb (CanSet fieldTyp)); [injection H as <-; apply grows_refl|].
  destruct (String.eqb _ "false"); [injection H as <-; apply grows_refl|].
  destruct (negb _ && negb _); [injection H as <-; apply grows_refl|].
  bind_inv H. destruct a as [dv [err|]].
  - injection H as <-. apply grows_print.
  - bind_inv H. injection H as <-.
    eapply grows_trans; [eapply grows_switch; eassumption|].
    eapply grows_trans; [apply grows_env | apply grows_required].
Qed.

Lemma grows_loop recurse val prefix groupNames fields : forall i w w',
  Forall (fun f => forall p n g w w', recurse f p n g w = Ret w' -> grows w w') fields ->
  bindFieldTag_loop ext env recurse val prefix groupNames i fields w = Ret w' ->
  grows w w'.
Proof.
  induction fields as [|f fields IH]; intros i w w' Hrec H; simpl in H.
  - injection H as <-. apply grows_refl.
  - inversion Hrec as [|? ? Hf Hfs]; subst. bind_inv H.
    eapply grows_trans; [eapply grows_field; eassumption | eapply IH; eassumption].
Qed.

Lemma grows_bindFieldTag typ : forall val prefix groupNames w w',
  bindFieldTag ext env typ val prefix groupNames w = Ret w' -> grows w w'.
Proof.
  induction typ as [b|n b|e _|k e _ _|e _|fs IH|len e _|e _|sg|ms] using rtype_induction;
    intros val prefix groupNames w w' H; try discriminate H.
  rewrite bindFieldTag_StructOf in H.
  eapply grows_loop; [|exact H].
  eapply Forall_impl; [exact IH|]. intros f Hf p n g w0 w0' H0. by eapply Hf.
Qed.

End Grows.

(** X16. When [bindFieldTag] returns, every flag that was registered before
    is still registered and the output has only been appended to, whatever the
    configuration type, the environment and the groups. *)
Theorem bindFieldTag_grows (ext : Collaborators) (env : gmap string string)
    (typ : reflect.rtype) (val : list nat) (prefix : string) (groupNames : list string)
    (w w' : World) :
  bindFieldTag ext env typ val prefix groupNames w = Ret w' -> grows w w'.
Proof. apply grows_bindFieldTag. Qed.

Lemma bindFieldTag_grows_witness :
  grows (returned (bindFieldTag rejecting ∅ (reflect.StructOf [maxRetries]) [] "" []
                     emptyWorld))
    (returned (bindFieldTag rejecting {["ACF_USER" := "root"]} userConfig [] "" []
                 (returned (bindFieldTag rejecting ∅ (reflect.StructOf [maxRetries]) [] "" []
                              emptyWorld)))).
Proof.
  apply (bindFieldTag_grows rejecting {["ACF_USER" := "root"]} userConfig [] "" []).
  vm_compute. reflexivity.
Defined.

(** ** The command tree *)

Section CommandTreeFacts.

Variable Handler : Type.
Variable ext : Collaborators.
Variable env : gmap string string.

Lemma AddCmd_Ret_inv t runFunc name short group mem out t' mem' out' :
  AddCmd Handler ext env t runFunc name short group mem out = Ret (t', mem', out') ->
  exists w,
    t' = {| cc := cobra.AddCommand (cc Handler t)
                    (cobra.mkCommand name short (Some runFunc) (formal w) [] false);
            flags := flags Handler t |}
    /\ mem' = memory w /\ out' = output w
    /\ grows {| formal := ∅; memory := mem; output := out |} w.
Proof.
  unfold AddCmd. intros H.
  destruct (if 0 <? Z.of_nat (length group) then _ else _) as [w|msg] eqn:Hw;
    [|discriminate H].
  rewrite bind_Ret in H. injection H as <- <- <-. exists w. repeat split; try done.
  - destruct (0 <? _); [|injection Hw as <-; done].
    destruct (flags Handler t) as [x|]; [|injection Hw as <-; done].
    destruct (ValueOf_Elem x) as [[[typ p]|]|]; try discriminate Hw.
    rewrite bind_Ret in Hw. by apply (grows_bindFieldTag ext env) in Hw as [? ?].
  - destruct (0 <? _); [|injection Hw as <-; done].
    destruct (flags Handler t) as [x|]; [|injection Hw as <-; done].
    destruct (ValueOf_Elem x) as [[[typ p]|]|]; try discriminate Hw.
    rewrite bind_Ret in Hw. by apply (grows_bindFieldTag ext env) in Hw as [? ?].
Qed.

End CommandTreeFacts.

(** X17. [AddCmd] called without a group, or on a [Ts] made without a
    configuration, binds nothing: the new subcommand has no flags, also none
    for the fields without a [group] tag, and the configuration and the output
    are as before. *)
Theorem AddCmd_without_group (Handler : Type) (ext : Collaborators)
    (env : gmap string string) (t : Ts Handler) (runFunc : Handler) (name short : string)
    (group : list string) (mem : gmap (list nat) reflect.value) (out : list diagnostic) :
  (match group with [] => true | _ => false end
   || match flags Handler t with None => true | Some _ => false end) = true ->
  AddCmd Handler ext env t runFunc name short group mem out
  = Ret ({| cc := cobra.AddCommand (cc Handler t)
                    (cobra.mkCommand name short (Some runFunc) ∅ [] false);
            flags := flags Handler t |}, mem, out).
Proof.
  unfold AddCmd. intros H. destruct group as [|g group]; [done|].
  simpl in H. destruct (flags Handler t); [discriminate H|].
  by destruct (0 <? _).
Qed.

Lemma AddCmd_without_group_witness :
  AddCmd nat rejecting ∅ (New nat appConfig) 0%nat "serve" "run the server" [] ∅ []
  = Ret ({| cc := cobra.AddCommand (cc nat (New nat appConfig))
                    (cobra.mkCommand "serve" "run the server" (Some 0%nat) ∅ [] false);
            flags := flags nat (New nat appConfig) |}, ∅, []).
Proof.
  apply (AddCmd_without_group nat rejecting ∅ (New nat appConfig)
           0%nat "serve" "run the server" [] ∅ []).
  reflexivity.
Defined.

(** X18. [AddCmd] with a group panics unless the configuration given to [New]
    is a pointer, not nil, to a struct: a struct passed by value, a nil
    pointer, or a pointer to something else all abort it. *)
Theorem AddCmd_needs_struct_pointer (Handler : Type) (ext : Collaborators)
    (env : gmap string string) (t : Ts Handler) (runFunc : Handler) (name short : string)
    (g : string) (group : list string) (mem : gmap (list nat) reflect.value)
    (out : list diagnostic) (x : reflect.rtype * reflect.value) :
  flags Handler t = Some x ->
  isStructPointer (Some x) = false ->
  panics (AddCmd Handler ext env t runFunc name short (g :: group) mem out) = true.
Proof.
  unfold AddCmd. intros -> Hx.
  assert ((0 <? Z.of_nat (length (g :: group))) = true) as ->
      by (apply Z.ltb_lt; simpl; lia).
  destruct x as [[b|n b|e|k e|[b|n b|e|k e|e|fs|len e|e|sg|ms]|fs|len e|e|sg|ms]
                 [| | | | | | | |[p|]| | | | |]];
    try discriminate Hx; reflexivity.
Qed.

Lemma AddCmd_needs_struct_pointer_witness :
  panics (AddCmd nat rejecting ∅
            (New nat (Some (reflect.StructOf [maxRetries], reflect.VStruct [reflect.VInt 0])))
            0%nat "serve" "run the server" ("web" :: []) ∅ []) = true.
Proof.
  apply (AddCmd_needs_struct_pointer nat rejecting ∅
           (New nat (Some (reflect.StructOf [maxRetries], reflect.VStruct [reflect.VInt 0])))
           0%nat "serve" "run the server" "web" [] ∅ []
           (reflect.StructOf [maxRetries], reflect.VStruct [reflect.VInt 0]));
    reflexivity.
Defined.

(** X19. When [AddCmd] returns, the root command has gained exactly one
    subcommand, the last one, with the given name and short text, the given
    run function and no subcommands of its own; the earlier subcommands, the
    root's own texts and flags and the configuration handle are as before, and
    the output has only been appended to. *)
Theorem AddCmd_adds_one_command (Handler : Type) (ext : Collaborators)
    (env : gmap string string) (t t' : Ts Handler) (runFunc : Handler) (name short : string)
    (group : list string) (mem mem' : gmap (list nat) reflect.value)
    (out out' : list diagnostic) :
  AddCmd Handler ext env t runFunc name short group mem out = Ret (t', mem', out') ->
  exists c,
    cobra.Commands (cc Handler t') = (cobra.Commands (cc Handler t) ++ [c])%list
    /\ cobra.Use c = name /\ cobra.Short c = short /\ cobra.Run c = Some runFunc
    /\ cobra.Commands c = []
    /\ cobra.Use (cc Handler t') = cobra.Use (cc Handler t)
    /\ cobra.Short (cc Handler t') = cobra.Short (cc Handler t)
    /\ cobra.Flags (cc Handler t') = cobra.Flags (cc Handler t)
    /\ flags Handler t' = flags Handler t
    /\ out `prefix_of` out'.
Proof.
  intros (w & -> & -> & -> & Hg)%AddCmd_Ret_inv.
  eexists. cbn. destruct (cc Handler t). cbn. repeat split. apply Hg.
Qed.

Lemma AddCmd_adds_one_command_witness :
  exists c,
    cobra.Commands (cc nat afterServe.1.1)
    = (cobra.Commands (cc nat (New nat appConfig)) ++ [c])%list
    /\ cobra.Use c = "serve" /\ cobra.Short c = "run the server"
    /\ cobra.Run c = Some 0%nat
    /\ cobra.Commands c = []
    /\ cobra.Use (cc nat afterServe.1.1) = cobra.Use (cc nat (New nat appConfig))
    /\ cobra.Short (cc nat afterServe.1.1) = cobra.Short (cc nat (New nat appConfig))
    /\ cobra.Flags (cc nat afterServe.1.1) = cobra.Flags (cc nat (New nat appConfig))
    /\ flags nat afterServe.1.1 = flags nat (New nat appConfig)
    /\ [] `prefix_of` afterServe.2.
Proof.
  apply (AddCmd_adds_one_command nat rejecting ∅ (New nat appConfig) afterServe.1.1
           0%nat "serve" "run the server" ["web"] ∅ afterServe.1.2 [] afterServe.2).
  vm_compute. reflexivity.
Defined.

(** ** isInputFromPipe *)

Lemma land_ModeCharDevice mode :
  (Z.land mode fs.ModeCharDevice =? 0) = negb (Z.testbit mode 21).
Proof.
  unfold fs.ModeCharDevice.
  destruct (Z.testbit mode 21) eqn:Hb; simpl.
  - apply Z.eqb_neq. intros H.
    assert (Z.testbit (Z.land mode (2 ^ 21)) 21 = true) as Ht
        by (rewrite Z.land_spec, Hb, Z.pow2_bits_true; [done | lia]).
    rewrite H in Ht. by rewrite Z.bits_0 in Ht.
  - apply Z.eqb_eq. apply Z.bits_inj'. intros n Hn.
    rewrite Z.land_spec, Z.bits_0, Z.pow2_bits_eqb by lia.
    destruct (Z.eqb_spec 21 n) as [<-|]; [by rewrite Hb | by rewrite andb_false_r].
Qed.

(** X20. [isInputFromPipe] answers from the character-device bit of the mode
    of standard input alone: true exactly when that bit is clear (a pipe or a
    redirected file), whatever the other mode and permission bits are, and
    without printing; when the mode cannot be read it answers false and
    prints one line. *)
Theorem isInputFromPipe_char_device_bit (mode : Z) (err : error) (out : list diagnostic) :
  isInputFromPipe (inl mode) out = (negb (Z.testbit mode 21), out)
  /\ (isInputFromPipe (inr err) out).1 = false
  /\ length (isInputFromPipe (inr err) out).2 = S (length out).
Proof.
  unfold isInputFromPipe. rewrite land_ModeCharDevice. repeat split.
  simpl. rewrite length_app. simpl. lia.
Qed.

(** ** The binder on the types it handles *)

Section SafeBind.

Variable ext : Collaborators.
Variable env : gmap string string.

Import reflect.

Lemma mapM_Int_ k l :
  Value.isIntKind k = true -> mapM (Value.Int_ k) l = Ret (Value.intOf <$> l).
Proof.
  intros Hk. induction l as [|v l IH]; [done|].
  change (mapM (Value.Int_ k) (v :: l))
    with (y ← Value.Int_ k v; r ← mapM (Value.Int_ k) l; mret (y :: r)).
  rewrite IH. unfold Value.Int_. by rewrite Hk.
Qed.

Lemma mapM_Uint_ k l :
  Value.isUintKind k = true -> mapM (Value.Uint_ k) l = Ret (Value.uintOf <$> l).
Proof.
  intros Hk. induction l as [|v l IH]; [done|].
  change (mapM (Value.Uint_ k) (v :: l))
    with (y ← Value.Uint_ k v; r ← mapM (Value.Uint_ k) l; mret (y :: r)).
  rewrite IH. unfold Value.Uint_. by rewrite Hk.
Qed.

(** Where it registers, the parser returns a value of exactly the field's
    type, and a slice for a slice type. *)
Lemma parseDefaultValue_exact T s x :
  registers T = true ->
  parseDefaultValue ext T s = Ret (x, None) ->
  exists v, x = Some (T, v)
            /\ (KindOf T = Slice -> exists o, v = VSlice o).
Proof.
  intros Hr Hp.
  destruct T as [b|n b|e|k e|e|fs|len e|e|sg|ms]; try discriminate Hr;
    [| |destruct e as [b| | | | | | | | |]; try discriminate Hr
     |destruct k as [[]| | | | | | | | |]; try discriminate Hr;
      destruct e as [b| | | | | | | | |]; try discriminate Hr].
  - destruct (String.eqb s "") eqn:Hs.
    + destruct b; simpl in Hp; rewrite Hs in Hp; injection Hp as <-;
        eexists; (split; [reflexivity|]); discriminate.
    + destruct b; try discriminate Hr; simpl in Hp; rewrite Hs in Hp;
        repeat match type of Hp with
               | context [let '(_, _) := ?p in _] => destruct p
               end; simplify_eq;
        eexists; (split; [reflexivity|]); discriminate.
  - simpl in Hr. unfold parseDefaultValue in Hp.
    change (rtype_eqb (Named n b) time.Duration)
      with (String.eqb n "time.Duration" && basic_eqb b t_int64) in Hp.
    rewrite Hr in Hp. apply andb_true_iff in Hr as [Hn Hb].
    apply String.eqb_eq in Hn as ->. destruct b; try discriminate Hb.
    destruct (String.eqb s "").
    + injection Hp as <-. eexists; (split; [reflexivity|]); discriminate.
    + destruct (ParseDuration ext s) as [d [e|]]; [discriminate Hp|].
      injection Hp as <-. eexists; (split; [reflexivity|]); discriminate.
  - rewrite parseDefaultValue_SliceOf in Hp. destruct (String.eqb s "").
    + injection Hp as <-. eexists; split; [reflexivity|]. intros _. by eexists.
    + unfold parseSliceDefaultValue_body in Hp.
      change (negb (Kind_eqb (KindOf (SliceOf (Basic b))) Slice)) with false in Hp.
      cbv iota in Hp.
      destruct (parseSliceDefaultValue_loop _ _ _ _ _) as [[rs|e]|msg];
        try discriminate Hp.
      injection Hp as <-. eexists; split; [reflexivity|]. intros _. by eexists.
  - destruct (String.eqb s "") eqn:Hs; simpl in Hp; rewrite Hs in Hp;
      [|discriminate Hp].
    injection Hp as <-. eexists; (split; [reflexivity|]); discriminate.
Qed.

(** Registration, for every type of [registers]: one new flag under the
    name, nothing else in the flag set changes. *)
Lemma bindFieldTag_switch_registers recurse fieldTyp p name usage v groupNames w :
  registers (Type_ fieldTyp) = true ->
  (KindOf (Type_ fieldTyp) = Slice -> exists o, v = VSlice o) ->
  formal w !! name = None ->
  exists w1 F,
    bindFieldTag_switch recurse fieldTyp p name usage (Some (Type_ fieldTyp, v))
      groupNames w = Ret w1
    /\ formal w1 = <[name := F]> (formal w).
Proof.
  intros Hr Hv Hfresh. unfold bindFieldTag_switch.
  destruct (Type_ fieldTyp) as [b|n b|e|k e|e|fs|len e|e|sg|ms]; try discriminate Hr;
    [| |destruct e as [b| | | | | | | | |]; try discriminate Hr
     |destruct k as [[]| | | | | | | | |]; try discriminate Hr;
      destruct e as [b| | | | | | | | |]; try discriminate Hr].
  - destruct b; try discriminate Hr;
      cbn; unfold Var, AddFlag; cbn; rewrite Hfresh; by eexists _, _.
  - simpl in Hr.
    change (rtype_eqb (Named n b) time.Duration)
      with (String.eqb n "time.Duration" && basic_eqb b t_int64).
    rewrite Hr. apply andb_true_iff in Hr as [Hn Hb].
    apply String.eqb_eq in Hn as ->. destruct b; try discriminate Hb.
    cbn; unfold Var, AddFlag; cbn; rewrite Hfresh; by eexists _, _.
  - destruct (Hv eq_refl) as [o ->].
    destruct b; try discriminate Hr; destruct o as [l|]; cbn;
      rewrite ?mapM_Int_, ?mapM_Uint_ by done; cbn;
      unfold Var, AddFlag; cbn; rewrite Hfresh; by eexists _, _.
  - destruct b; try discriminate Hr;
      cbn; unfold Var, AddFlag; cbn; rewrite Hfresh; by eexists _, _.
Qed.


Lemma flagNames_StructOf fs prefix groupNames :
  flagNames (StructOf fs) prefix groupNames
  = flat_map (fieldNames prefix groupNames) fs.
Proof.
  induction fs as [|f fs IH]; [done|].
  change (flagNames (StructOf (f :: fs)) prefix groupNames)
    with ((if isBound groupNames f
           then match f with
                | mkStructField _ t _ =>
                    if registers t then [flagNameOf prefix f]
                    else flagNames t (flagNameOf prefix f) groupNames
                end
           else []) ++ flagNames (StructOf fs) prefix groupNames)%list.
  rewrite IH. by destruct f.
Qed.

Lemma safeType_StructOf fs :
  safeType (StructOf fs) = forallb (fun f => safeType (Type_ f)) fs.
Proof.
  induction fs as [|f fs IH]; [done|].
  change (safeType (StructOf (f :: fs)))
    with (match f with
          | mkStructField _ t _ => safeType t && safeType (StructOf fs)
          end).
  rewrite IH. by destruct f.
Qed.

Lemma bindFieldTag_switch_struct recurse fieldTyp p name usage dv groupNames w fs :
  Type_ fieldTyp = StructOf fs ->
  bindFieldTag_switch recurse fieldTyp p name usage dv groupNames w
  = recurse p name groupNames w.
Proof. intros H. unfold bindFieldTag_switch. by rewrite H. Qed.

(** The environment fallback and the required marking add no flag. *)
Lemma FlagSet_Set_dom name text w n :
  is_Some (formal (FlagSet_Set ext name text w).1 !! n) -> is_Some (formal w !! n).
Proof.
  unfold FlagSet_Set. destruct (formal w !! name) as [F|] eqn:HF; [|done].
  destruct (Value_Set _ _ _ _) as [[v c] [e|]]; cbn;
    (destruct (decide (name = n)) as [<-|Hne];
     [intros _; by rewrite HF | by rewrite lookup_insert_ne]).
Qed.

Lemma phases_dom tag name w n :
  is_Some (formal (bindFieldTag_required tag name (bindFieldTag_env ext env name w)) !! n) ->
  is_Some (formal w !! n).
Proof.
  intros H. apply (FlagSet_Set_dom name (os.Getenv env (envVarOf env name)) w).
  revert H. unfold bindFieldTag_required, bindFieldTag_env.
  set (w1 := if _ && _ then _ else w).
  assert (Hw1 : is_Some (formal w1 !! n) ->
                is_Some (formal (FlagSet_Set ext name (os.Getenv env (envVarOf env name)) w).1 !! n)).
  { subst w1. destruct (_ && _).
    - by destruct (FlagSet_Set _ _ _ _) as [w2 [e|]].
    - unfold FlagSet_Set. destruct (formal w !! name) as [F|] eqn:HF; [|done].
      destruct (Value_Set _ _ _ _) as [[v c] [e|]]; cbn;
        (destruct (decide (name = n)) as [<-|Hne];
         [intros _; rewrite lookup_insert_eq; by eexists
         | by rewrite lookup_insert_ne]). }
  intros H. apply Hw1. revert H.
  destruct (String.eqb (Required_ tag) "true"); [|done].
  unfold MarkFlagRequired. destruct (formal w1 !! name) as [F|] eqn:HF; [|done].
  cbn. destruct (decide (name = n)) as [<-|Hne];
    [intros _; by rewrite HF | by rewrite lookup_insert_ne].
Qed.

Lemma safeType_sliceOfInterface T :
  safeType T = true -> sliceOfInterface T = false.
Proof.
  destruct T as [b|n b|e|k e|e|fs|len e|e|sg|ms]; try done.
  intros [_ H]%andb_true_iff. by apply negb_true_iff in H.
Qed.

(** One turn of the loop on a field of a safe type: it returns, and the
    flags it adds are among the names of the field. *)
Lemma safe_field recurse val prefix groupNames i f w :
  safeType (Type_ f) = true ->
  (forall fs w,
     Type_ f = StructOf fs ->
     NoDup (flagNames (Type_ f) (flagNameOf prefix f) groupNames) ->
     fresh (flagNames (Type_ f) (flagNameOf prefix f) groupNames) w ->
     exists w', recurse (val ++ [i])%list (flagNameOf prefix f) groupNames w = Ret w'
                /\ addsOnly (flagNames (Type_ f) (flagNameOf prefix f) groupNames) w w') ->
  NoDup (fieldNames prefix groupNames f) ->
  fresh (fieldNames prefix groupNames f) w ->
  exists w', bindFieldTag_field ext env recurse val prefix groupNames i f w = Ret w'
             /\ addsOnly (fieldNames prefix groupNames f) w w'.
Proof.
  intros Hsafe Hrec Hnd Hfresh. unfold fieldNames in *.
  destruct (isBound groupNames f) eqn:Hb.
  2:{ rewrite bindFieldTag_field_unbound by done. exists w. split; [done|]. by left. }
  rewrite bindFieldTag_field_bound by done.
  destruct (parseDefaultValue_returns ext (Type_ f) (Default (tagOf f))
              (safeType_sliceOfInterface _ Hsafe))
    as (x & err & Hp & _).
  rewrite Hp, bind_Ret. destruct err as [e|].
  { eexists. split; [done|]. by left. }
  destruct (registers (Type_ f)) eqn:Hr.
  - destruct (parseDefaultValue_exact _ _ _ Hr Hp) as (v & -> & Hv).
    destruct (bindFieldTag_switch_registers recurse f (val ++ [i])%list
                (flagNameOf prefix f) (Note (tagOf f)) v groupNames w Hr Hv)
      as (w1 & F & -> & Hw1).
    { apply Hfresh. by apply list_elem_of_singleton. }
    rewrite bind_Ret. eexists. split; [done|].
    intros n Hn. apply phases_dom in Hn. rewrite Hw1 in Hn.
    destruct (decide (flagNameOf prefix f = n)) as [<-|Hne];
      [right; by apply list_elem_of_singleton|].
    left. by rewrite lookup_insert_ne in Hn.
  - destruct (Type_ f) as [b|n b|e|k e|e|fs|len e|e|sg|ms] eqn:HT.
    6:{ rewrite (bindFieldTag_switch_struct _ _ _ _ _ _ _ _ fs) by done.
        destruct (Hrec fs w eq_refl Hnd Hfresh) as (w1 & -> & Hw1).
        rewrite bind_Ret. eexists. split; [done|].
        intros n Hn. apply phases_dom in Hn. by apply Hw1. }
    all: assert (Hu : exists line, unsupportedLine (Type_ f) = Some line)
      by (rewrite HT; change (safeType ?T) with
            ((registers T
              || match unsupportedLine T with Some _ => true | None => false end)
             && negb (sliceOfInterface T))
            in Hsafe;
          rewrite Hr in Hsafe; cbn [orb] in Hsafe;
          destruct (unsupportedLine _); [by eexists|discriminate Hsafe]).
    all: destruct Hu as [line Hu];
      rewrite (bindFieldTag_switch_unsupported _ _ _ _ _ _ _ _ _ Hu), bind_Ret;
      eexists; (split; [done|]);
      intros m Hm; apply phases_dom in Hm; by left.
Qed.

Lemma safe_loop val prefix groupNames fs :
  Forall (fun f =>
            forall val prefix groupNames w,
              safeType (Type_ f) = true ->
              KindOf (Type_ f) = Struct ->
              NoDup (flagNames (Type_ f) prefix groupNames) ->
              fresh (flagNames (Type_ f) prefix groupNames) w ->
              exists w', bindFieldTag ext env (Type_ f) val prefix groupNames w = Ret w'
                         /\ addsOnly (flagNames (Type_ f) prefix groupNames) w w') fs ->
  forallb (fun f => safeType (Type_ f)) fs = true ->
  forall i w,
    NoDup (flat_map (fieldNames prefix groupNames) fs) ->
    fresh (flat_map (fieldNames prefix groupNames) fs) w ->
    exists w', bindFieldTag_loop ext env (fun f => bindFieldTag ext env (Type_ f))
                 val prefix groupNames i fs w = Ret w'
               /\ addsOnly (flat_map (fieldNames prefix groupNames) fs) w w'.
Proof.
  induction 1 as [|f fs Hf _ IH]; intros Hsafe i w Hnd Hfresh.
  { exists w. split; [done|]. by left. }
  cbn in Hsafe. apply andb_true_iff in Hsafe as [Hsf Hsfs].
  cbn [flat_map] in *. apply NoDup_app in Hnd as (Hnd1 & Hdisj & Hnd2).
  destruct (safe_field (bindFieldTag ext env (Type_ f)) val prefix groupNames i f w)
    as (w1 & Hw1 & Hadd1); [done| |done| |].
  { intros fs' w0 HT Hn Hfr. apply Hf; [done| by rewrite HT |done|done]. }
  { intros n Hn. apply Hfresh. apply elem_of_app; by left. }
  destruct (IH Hsfs (S i) w1 Hnd2) as (w2 & Hw2 & Hadd2).
  { intros n Hn. destruct (formal w1 !! n) eqn:Hl; [|done].
    destruct (Hadd1 n) as [Hold|Hin]; [by eexists| |].
    - rewrite Hfresh in Hold; [by destruct Hold|apply elem_of_app; by right].
    - by destruct (Hdisj n Hin). }
  exists w2. split.
  - change (bindFieldTag_loop ext env (fun f => bindFieldTag ext env (Type_ f))
              val prefix groupNames i (f :: fs) w)
      with (w ← bindFieldTag_field ext env (bindFieldTag ext env (Type_ f))
                  val prefix groupNames i f w;
            bindFieldTag_loop ext env (fun f => bindFieldTag ext env (Type_ f))
              val prefix groupNames (S i) fs w).
    by rewrite Hw1, bind_Ret.
  - intros n Hn. destruct (Hadd2 n Hn) as [H1|H2]; [|right; apply elem_of_app; by right].
    destruct (Hadd1 n H1) as [H0|H0]; [by left|right; apply elem_of_app; by left].
Qed.

Lemma safe_bindFieldTag typ : forall val prefix groupNames w,
  safeType typ = true ->
  KindOf typ = Struct ->
  NoDup (flagNames typ prefix groupNames) ->
  fresh (flagNames typ prefix groupNames) w ->
  exists w', bindFieldTag ext env typ val prefix groupNames w = Ret w'
             /\ addsOnly (flagNames typ prefix groupNames) w w'.
Proof.
  induction typ as [b|n b|e _|k e _ _|e _|fs IH|len e _|e _|sg|ms] using rtype_induction;
    intros val prefix groupNames w Hsafe Hk; try discriminate Hk.
  - by destruct b.
  - by destruct b.
  - rewrite flagNames_StructOf, bindFieldTag_StructOf.
    rewrite safeType_StructOf in Hsafe. by apply safe_loop.
Qed.

End SafeBind.

(** X21. On a struct whose fields, nested ones included, all have a type the
    binder registers or reports as unsupported (a slice of an interface type
    is not among them), and whose flag names are
    pairwise distinct and not yet registered, [bindFieldTag] returns: it
    does not panic.  Every flag it adds bears one of those names. *)
Theorem bindFieldTag_safe_types (ext : Collaborators) (env : gmap string string)
    (fields : list reflect.StructField) (val : list nat) (prefix : string)
    (groupNames : list string) (w : World) :
  safeType (reflect.StructOf fields) = true ->
  NoDup (flagNames (reflect.StructOf fields) prefix groupNames) ->
  fresh (flagNames (reflect.StructOf fields) prefix groupNames) w ->
  exists w',
    bindFieldTag ext env (reflect.StructOf fields) val prefix groupNames w = Ret w'
    /\ addsOnly (flagNames (reflect.StructOf fields) prefix groupNames) w w'.
Proof. intros Hsafe Hnd Hfresh. by apply safe_bindFieldTag. Qed.

Lemma bindFieldTag_safe_types_witness :
  exists w',
    bindFieldTag rejecting ∅ (reflect.StructOf serviceConfig) [] "" [] emptyWorld = Ret w'
    /\ addsOnly (flagNames (reflect.StructOf serviceConfig) "" []) emptyWorld w'.
Proof.
  apply (bindFieldTag_safe_types rejecting ∅ serviceConfig [] "" [] emptyWorld).
  - reflexivity.
  - apply (bool_decide_unpack _). vm_compute. exact I.
  - intros n _. apply lookup_empty.
Defined.

(** X22. [AddCmd] with a group, on a configuration that is a pointer to a
    struct of types the binder gets through and with pairwise distinct flag
    names, returns, whatever subcommands were added before: the new
    subcommand starts without flags, and the flags it gets bear those
    names. *)
Theorem AddCmd_safe_config (Handler : Type) (ext : Collaborators)
    (env : gmap string string) (t : Ts Handler) (runFunc : Handler) (name short : string)
    (g : string) (group : list string) (mem : gmap (list nat) reflect.value)
    (out : list diagnostic) (fields : list reflect.StructField) (p : list nat) :
  flags Handler t
  = Some (reflect.PointerTo (reflect.StructOf fields), reflect.VPointer (Some p)) ->
  safeType (reflect.StructOf fields) = true ->
  NoDup (flagNames (reflect.StructOf fields) "" (g :: group)) ->
  exists t' mem' out' c,
    AddCmd Handler ext env t runFunc name short (g :: group) mem out
    = Ret (t', mem', out')
    /\ cobra.Commands (cc Handler t') = (cobra.Commands (cc Handler t) ++ [c])%list
    /\ forall n, is_Some (cobra.Flags c !! n) ->
                 n ∈ flagNames (reflect.StructOf fields) "" (g :: group).
Proof.
  intros Hf Hsafe Hnd. unfold AddCmd. rewrite Hf.
  assert ((0 <? Z.of_nat (length (g :: group))) = true) as ->
      by (apply Z.ltb_lt; simpl; lia).
  change (ValueOf_Elem (reflect.PointerTo (reflect.StructOf fields),
                        reflect.VPointer (Some p)))
    with (Ret (Some (reflect.StructOf fields, p))).
  rewrite bind_Ret.
  destruct (safe_bindFieldTag ext env (reflect.StructOf fields) p "" (g :: group)
              {| formal := ∅; memory := mem; output := out |} Hsafe eq_refl Hnd)
    as (w' & -> & Hadd).
  { intros n _. apply lookup_empty. }
  rewrite bind_Ret. eexists _, _, _, _. split; [reflexivity|]. split.
  - cbn. by destruct (cc Handler t).
  - intros n Hn. destruct (Hadd n Hn) as [H|H]; [|done].
    cbn in H. rewrite lookup_empty in H. by destruct H.
Qed.

Lemma AddCmd_safe_config_witness :
  exists t' mem' out' c,
    AddCmd nat rejecting ∅
      (New nat (Some (reflect.PointerTo (reflect.StructOf serviceConfig),
                      reflect.VPointer (Some []))))
      0%nat "serve" "run the server" ("web" :: []) ∅ []
    = Ret (t', mem', out')
    /\ cobra.Commands (cc nat t')
       = (cobra.Commands
            (cc nat (New nat (Some (reflect.PointerTo (reflect.StructOf serviceConfig),
                                    reflect.VPointer (Some []))))) ++ [c])%list
    /\ forall n, is_Some (cobra.Flags c !! n) ->
                 n ∈ flagNames (reflect.StructOf serviceConfig) "" ("web" :: []).
Proof.
  apply (AddCmd_safe_config nat rejecting ∅
           (New nat (Some (reflect.PointerTo (reflect.StructOf serviceConfig),
                           reflect.VPointer (Some []))))
           0%nat "serve" "run the server" "web" [] ∅ [] serviceConfig []).
  - reflexivity.
  - reflexivity.
  - apply (bool_decide_unpack _). vm_compute. exact I.
Defined.

(** ** Every bound field gets its flag *)

Section Registered.

Variable ext : Collaborators.
Variable env : gmap string string.

Import reflect.

Lemma boundNames_StructOf fs prefix groupNames :
  boundNames ext (StructOf fs) prefix groupNames
  = flat_map (boundFieldNames ext prefix groupNames) fs.
Proof.
  induction fs as [|f fs IH]; [done|].
  change (boundNames ext (StructOf (f :: fs)) prefix groupNames)
    with ((if isBound groupNames f
           then match f with
                | mkStructField _ t _ =>
                    match parseDefaultValue ext t (Default (tagOf f)) with
                    | Ret (_, None) =>
                        if registers t then [flagNameOf prefix f]
                        else boundNames ext t (flagNameOf prefix f) groupNames
                    | _ => []
                    end
                end
           else []) ++ boundNames ext (StructOf fs) prefix groupNames)%list.
  rewrite IH. by destruct f.
Qed.

Lemma boundNames_not_struct T prefix groupNames n :
  n ∈ boundNames ext T prefix groupNames -> exists fs, T = StructOf fs.
Proof.
  destruct T as [b|m b|e|k e|e|fs|len e|e|sg|ms]; try (by intros ?%elem_of_nil). by eexists.
Qed.

(** Where it registers and returns, the switch leaves a flag of the name. *)
Lemma bindFieldTag_switch_registered recurse fieldTyp p name usage s x groupNames w w1 :
  (forall p n g w w', recurse p n g w = Ret w' -> grows w w') ->
  registers (Type_ fieldTyp) = true ->
  parseDefaultValue ext (Type_ fieldTyp) s = Ret (x, None) ->
  bindFieldTag_switch recurse fieldTyp p name usage x groupNames w = Ret w1 ->
  is_Some (formal w1 !! name).
Proof.
  intros Hrec Hr Hp H.
  destruct (parseDefaultValue_exact ext _ _ _ Hr Hp) as (v & -> & Hv).
  destruct (formal w !! name) as [F|] eqn:HF.
  - apply (grows_switch _ _ _ _ _ _ _ _ _ Hrec) in H as [Hg _].
    apply Hg. by rewrite HF.
  - destruct (bindFieldTag_switch_registers recurse fieldTyp p name usage v groupNames w
                Hr Hv HF) as (w2 & F & Hw2 & Hf).
    rewrite Hw2 in H. injection H as <-. rewrite Hf, lookup_insert_eq. by eexists.
Qed.

Lemma registered_field recurse val prefix groupNames i f w w' :
  (forall p n g w w', recurse p n g w = Ret w' -> grows w w') ->
  (forall w w' n,
     recurse (val ++ [i])%list (flagNameOf prefix f) groupNames w = Ret w' ->
     n ∈ boundNames ext (Type_ f) (flagNameOf prefix f) groupNames ->
     is_Some (formal w' !! n)) ->
  bindFieldTag_field ext env recurse val prefix groupNames i f w = Ret w' ->
  forall n, n ∈ boundFieldNames ext prefix groupNames f -> is_Some (formal w' !! n).
Proof.
  intros Hg Hrec H n Hn. unfold boundFieldNames in Hn.
  destruct (isBound groupNames f) eqn:Hb; [|by apply elem_of_nil in Hn].
  rewrite bindFieldTag_field_bound in H by done.
  destruct (parseDefaultValue ext (Type_ f) (Default (tagOf f))) as [[x [e|]]|msg] eqn:Hp;
    try (by apply elem_of_nil in Hn).
  rewrite bind_Ret in H.
  destruct (bindFieldTag_switch _ _ _ _ _ _ _ _) as [w1|msg] eqn:Hs; [|discriminate H].
  rewrite bind_Ret in H. injection H as <-.
  apply (grows_required (tagOf f) (flagNameOf prefix f)).
  apply (grows_env ext env (flagNameOf prefix f)).
  destruct (registers (Type_ f)) eqn:Hr.
  - apply list_elem_of_singleton in Hn as ->.
    by eapply bindFieldTag_switch_registered.
  - destruct (boundNames_not_struct _ _ _ _ Hn) as [fs HT].
    rewrite (bindFieldTag_switch_struct _ _ _ _ _ _ _ _ fs HT) in Hs. by eapply Hrec.
Qed.

Lemma registered_loop recurse val prefix groupNames fields : forall i w w',
  Forall (fun f => forall p n g w w', recurse f p n g w = Ret w' -> grows w w') fields ->
  Forall (fun f => forall p pre w w' n,
            recurse f p pre groupNames w = Ret w' ->
            n ∈ boundNames ext (Type_ f) pre groupNames ->
            is_Some (formal w' !! n)) fields ->
  bindFieldTag_loop ext env recurse val prefix groupNames i fields w = Ret w' ->
  forall n, n ∈ flat_map (boundFieldNames ext prefix groupNames) fields ->
            is_Some (formal w' !! n).
Proof.
  induction fields as [|f fields IH]; intros i w w' Hg Hrec H n Hn;
    [by apply elem_of_nil in Hn|].
  inversion Hg as [|? ? Hg1 Hg2]; subst. inversion Hrec as [|? ? Hr1 Hr2]; subst.
  change (bindFieldTag_loop ext env recurse val prefix groupNames i (f :: fields) w)
    with (w ← bindFieldTag_field ext env (recurse f) val prefix groupNames i f w;
          bindFieldTag_loop ext env recurse val prefix groupNames (S i) fields w) in H.
  destruct (bindFieldTag_field _ _ _ _ _ _ _ _ _) as [w1|msg] eqn:Hf; [|discriminate H].
  rewrite bind_Ret in H. cbn [flat_map] in Hn. apply elem_of_app in Hn as [Hn|Hn].
  - apply (grows_loop ext env _ _ _ _ _ _ _ _ Hg2 H).
    eapply registered_field; [exact Hg1| |exact Hf|exact Hn].
    intros w0 w0' m. apply Hr1.
  - by eapply IH.
Qed.

Lemma registered_bindFieldTag typ : forall val prefix groupNames w w' n,
  bindFieldTag ext env typ val prefix groupNames w = Ret w' ->
  n ∈ boundNames ext typ prefix groupNames ->
  is_Some (formal w' !! n).
Proof.
  induction typ as [b|m b|e _|k e _ _|e _|fs IH|len e _|e _|sg|ms] using rtype_induction;
    intros val prefix groupNames w w' n H Hn; try (by apply elem_of_nil in Hn).
  rewrite bindFieldTag_StructOf in H. rewrite boundNames_StructOf in Hn.
  eapply registered_loop; [| |exact H|exact Hn].
  - apply Forall_forall. intros f _ p pre g w0 w0'. apply grows_bindFieldTag.
  - eapply Forall_impl; [exact IH|]. intros f Hf p pre w0 w0' m. apply Hf.
Qed.

End Registered.

(** X23. When [bindFieldTag] returns, every bound field of a type it registers
    whose default text parses has its flag, at every depth of nesting. *)
Theorem bound_fields_are_registered (ext : Collaborators) (env : gmap string string)
    (typ : reflect.rtype) (val : list nat) (prefix : string) (groupNames : list string)
    (w w' : World) (n : string) :
  bindFieldTag ext env typ val prefix groupNames w = Ret w' ->
  n ∈ boundNames ext typ prefix groupNames ->
  is_Some (formal w' !! n).
Proof. apply registered_bindFieldTag. Qed.

Lemma bound_fields_are_registered_witness :
  is_Some (formal (returned (bindFieldTag rejecting ∅ (reflect.StructOf serviceConfig)
                               [] "" [] emptyWorld)) !! "db-max-conns").
Proof.
  apply (bound_fields_are_registered rejecting ∅ (reflect.StructOf serviceConfig) [] "" []
           emptyWorld).
  - vm_compute. reflexivity.
  - apply (bool_decide_unpack _). vm_compute. exact I.
Defined.
